(** * react-video-timeline: drag controller, frame sampler and renderer

    A shallow embedding of the TypeScript sources

      - [utils/time-format.ts]           ([roundToDecimals])
      - [hooks/use-drag-interaction.ts]  ([detectHitArea], [pixelToTime],
                                          [handleStart], [handleMove],
                                          [handleEnd])
      - [utils/frame-extractor.ts]       ([VideoFrameExtractor],
                                          [generateTimePoints])
      - [hooks/use-frame-extractor.ts]   ([useFrameExtractor])
      - [utils/timeline-renderer.ts]     ([preloadFrameImages], [drawFrames],
                                          [render])

    and the properties of them that the specification of the widget
    states.

    Numbers.  A JavaScript [number] is an IEEE double; here it is an exact
    rational [Q].  The embedding agrees with the source on finite values
    as long as no division by zero occurs, up to the rounding of doubles.
    [Math.min], [Math.max], [<], [<=] and [!==], which are exact on doubles,
    are [Qmin], [Qmax], [Qlt_bool], [Qle_bool] and [Qeq_bool]; values are
    compared with [==] where the arithmetic of [Q] leaves a fraction
    unreduced.

    Effects.  The callbacks handed to a hook ([onTimeChange],
    [onProgress], ...) become an explicit list of the calls made, in order.
    An asynchronous method becomes a state machine that is advanced by the
    browser events it awaits; a loop that need not end takes fuel. *)

From stdpp Require Import base option list strings gmap.
From Stdlib Require Import ZArith QArith Qabs Qround Qminmax Lqa Lia Sorted.

Local Open Scope Q_scope.

(** ** Comparisons on numbers *)

Definition Qlt_bool (a b : Q) : bool := negb (Qle_bool b a).

(** ** types.ts

    The declarations of [types.ts] as the README of the package lists them:
    [TimeRange], [VideoFrame], [DragType] and
    [HitAreaType = DragType | 'track' | null]. *)

Record TimeRange : Type := mkRange { start : Q; end_ : Q }.

Record VideoFrame : Type := mkFrame { time : Q; imageData : string }.

Inductive DragType : Type := cursor | start_handle | end_handle.

Inductive HitArea : Type := hit (d : DragType) | track.

(** [HitAreaType]: [None] is the source's [null]. *)
Definition HitAreaType : Type := option HitArea.

(** ** utils/time-format.ts *)

Module TimeFormat.

(** [Math.round]: the nearest integer, halves rounded towards +infinity. *)
Definition Math_round (x : Q) : Z := Qfloor (x + (1 # 2)).

(** [Math.pow(10, decimals)] for a natural number of decimals. *)
Definition pow10 (decimals : nat) : Q := inject_Z (10 ^ Z.of_nat decimals).

Definition roundToDecimals (value : Q) (decimals : nat) : Q :=
  let factor := pow10 decimals in
  inject_Z (Math_round (value * factor)) / factor.

End TimeFormat.

(** ** hooks/use-drag-interaction.ts *)

Module DragInteraction.
Import TimeFormat.

(** What the hook reads from the canvas element: the left and top of
    [getBoundingClientRect()] and [offsetWidth]. *)
Record HTMLCanvasElement : Type := mkCanvas {
  rect_left : Q;
  rect_top : Q;
  offsetWidth : Q
}.

(** [UseDragInteractionOptions].  The four callbacks are optional in the
    source; a field [on...] tells whether the caller supplied one. *)
Record UseDragInteractionOptions : Type := mkOptions {
  canvasRef : option HTMLCanvasElement;
  duration : Q;
  currentTime : Q;
  selectedRange : TimeRange;
  scaleHeight : Q;
  frameHeight : Q;
  handleWidth : Q;
  minDuration : Q;
  disabled : bool;
  onTimeChange : bool;
  onRangeChange : bool;
  onDragStart : bool;
  onDragEnd : bool
}.

(** The hook's own state: the four refs and the two [useState] cells. *)
Record DragState : Type := mkDrag {
  dragTypeRef : option DragType;
  startXRef : Q;
  startRangeRef : TimeRange;
  startTimeRef : Q;
  isDragging : bool;
  dragType : option DragType
}.

(** A call of one of the caller's callbacks. *)
Inductive Emitted : Type :=
  | TimeChange (t : Q)
  | RangeChange (r : TimeRange)
  | DragStarted (d : DragType)
  | DragEnded (d : DragType).

(** [cb?.(arg)]: the call happens only when the callback was supplied. *)
Definition call (supplied : bool) (e : Emitted) : list Emitted :=
  if supplied then [e] else [].

(** The pixel column of a time: the expression
    [handleWidth + (t / duration) * effectiveWidth] that [detectHitArea]
    (and every drawing routine of the renderer) uses. *)
Definition timeToPixel (o : UseDragInteractionOptions) (width t : Q) : Q :=
  let effectiveWidth := width - handleWidth o * 2 in
  handleWidth o + (t / duration o) * effectiveWidth.

Definition detectHitArea (o : UseDragInteractionOptions)
    (clientX clientY : Q) : HitAreaType :=
  match canvasRef o with
  | None => None
  | Some canvas =>
    let x := clientX - rect_left canvas in
    let y := clientY - rect_top canvas in
    if Qlt_bool y (scaleHeight o) || Qlt_bool (scaleHeight o + frameHeight o) y
    then
      if Qle_bool 0 y && Qlt_bool y (scaleHeight o)
      then Some (hit cursor)
      else None
    else
      let width := offsetWidth canvas in
      let effectiveWidth := width - handleWidth o * 2 in
      let startX :=
        handleWidth o + (start (selectedRange o) / duration o) * effectiveWidth in
      let endX :=
        handleWidth o + (end_ (selectedRange o) / duration o) * effectiveWidth in
      if Qle_bool (startX - handleWidth o) x && Qle_bool x startX
      then Some (hit start_handle)
      else if Qle_bool endX x && Qle_bool x (endX + handleWidth o)
      then Some (hit end_handle)
      else if Qle_bool startX x && Qle_bool x endX
      then Some (hit cursor)
      else Some (hit cursor)
  end.

Definition pixelToTime (o : UseDragInteractionOptions) (clientX : Q) : Q :=
  match canvasRef o with
  | None => 0
  | Some canvas =>
    if Qle_bool (duration o) 0 then 0
    else
      let x := clientX - rect_left canvas in
      let width := offsetWidth canvas in
      let effectiveWidth := width - handleWidth o * 2 in
      let time := ((x - handleWidth o) / effectiveWidth) * duration o in
      roundToDecimals (Qmax 0 (Qmin (duration o) time)) 2
  end.

(** Pointer down.  Returns the new hook state and the callbacks called. *)
Definition handleStart (o : UseDragInteractionOptions) (st : DragState)
    (clientX clientY : Q) : DragState * list Emitted :=
  if disabled o then (st, [])
  else
    match detectHitArea o clientX clientY with
    | None => (st, [])
    | Some track => (st, [])
    | Some (hit hitArea) =>
      let st' := mkDrag (Some hitArea) clientX (selectedRange o) (currentTime o)
                        true (Some hitArea) in
      let time := pixelToTime o clientX in
      (st',
       call (onDragStart o) (DragStarted hitArea) ++
       match hitArea with
       | cursor => call (onTimeChange o) (TimeChange time)
       | start_handle => call (onTimeChange o) (TimeChange (start (selectedRange o)))
       | end_handle => call (onTimeChange o) (TimeChange (end_ (selectedRange o)))
       end)
    end.

(** Pointer move.  The hook state is left as it is; the result is the
    list of callbacks called, in order. *)
Definition handleMove (o : UseDragInteractionOptions) (st : DragState)
    (clientX : Q) : list Emitted :=
  match dragTypeRef st with
  | None => []
  | Some d =>
    let time := pixelToTime o clientX in
    match d with
    | cursor => call (onTimeChange o) (TimeChange time)
    | start_handle =>
      let newStart := Qmin time (end_ (selectedRange o) - minDuration o) in
      let clampedStart := Qmax 0 newStart in
      if negb (Qeq_bool clampedStart (start (selectedRange o)))
      then call (onRangeChange o)
                (RangeChange (mkRange clampedStart (end_ (selectedRange o))))
           ++ call (onTimeChange o) (TimeChange clampedStart)
      else []
    | end_handle =>
      let newEnd := Qmax time (start (selectedRange o) + minDuration o) in
      let clampedEnd := Qmin (duration o) newEnd in
      if negb (Qeq_bool clampedEnd (end_ (selectedRange o)))
      then call (onRangeChange o)
                (RangeChange (mkRange (start (selectedRange o)) clampedEnd))
           ++ call (onTimeChange o) (TimeChange clampedEnd)
      else []
    end
  end.

(** Pointer up. *)
Definition handleEnd (o : UseDragInteractionOptions) (st : DragState)
    : DragState * list Emitted :=
  (mkDrag None (startXRef st) (startRangeRef st) (startTimeRef st) false None,
   match dragTypeRef st with
   | Some d => call (onDragEnd o) (DragEnded d)
   | None => []
   end).

(** The widget's default geometry (420 pixels wide, handles of 16 pixels,
    a 27 pixel scale strip above a 50 pixel frame strip) over a clip of
    10 seconds, with both range and time listeners supplied. *)
Definition demo_canvas : HTMLCanvasElement := mkCanvas 0 0 420.

Definition demo_options (range : TimeRange) (minDuration : Q)
    : UseDragInteractionOptions :=
  mkOptions (Some demo_canvas) 10 0 range 27 50 16 minDuration false
            true true true true.

Definition dragging (d : DragType) : DragState :=
  mkDrag (Some d) 0 (mkRange 0 0) 0 true (Some d).

End DragInteraction.

(** ** utils/frame-extractor.ts: [generateTimePoints] *)

Module TimePoints.

(** The [for] loop [for (let t = 0; t < duration; t += interval)
    points.push(t)], entered with the loop variable [t] and the array
    [points].  A [for] loop need not end: [fuel] bounds the number of
    tests of the loop condition, and [None] says that the bound was
    reached before the loop was left. *)
Fixpoint generateTimePoints_loop (fuel : nat) (duration interval t : Q)
    (points : list Q) : option (list Q) :=
  match fuel with
  | O => None
  | S fuel' =>
    if Qlt_bool t duration
    then generateTimePoints_loop fuel' duration interval (t + interval)
                                 (points ++ [t])
    else Some points
  end.

(** [points[points.length - 1]] is [undefined] on the empty array, and
    [undefined < x] is false. *)
Definition generateTimePoints (fuel : nat) (duration interval : Q)
    : option (list Q) :=
  match generateTimePoints_loop fuel duration interval 0 [] with
  | None => None
  | Some points =>
    match last points with
    | Some lastPoint =>
      if Qlt_bool lastPoint (duration - 0.1)
      then Some (points ++ [duration - 0.01])
      else Some points
    | None => Some points
    end
  end.

(** The loop variable after [n] rounds, started at [t]. *)
Fixpoint loop_variable (n : nat) (t interval : Q) : Q :=
  match n with
  | O => t
  | S n' => loop_variable n' (t + interval) interval
  end.

(** The values the loop pushes in its first [n] rounds. *)
Fixpoint pushed (n : nat) (t interval : Q) : list Q :=
  match n with
  | O => []
  | S n' => t :: pushed n' (t + interval) interval
  end.


(** The number of rounds of the loop for a positive [interval]. *)
Definition rounds (duration interval : Q) : nat :=
  Z.to_nat (Qceiling (duration / interval)).

End TimePoints.

(** ** utils/frame-extractor.ts: [VideoFrameExtractor]

    An [async] method is a coroutine: it runs until it awaits a promise
    that is still pending, and is resumed by the browser event that settles
    the promise.  The extractor below carries, next to the fields of the
    class, the listeners it has registered on its video element and the
    point at which its method call in flight is suspended; [fire] delivers
    one browser event to the video element and runs the resumed call up to
    its next suspension.  A promise that is already settled resumes its
    awaiter before the browser delivers anything else, so such an [await] is
    run through.  One method call is in flight per extractor, as in
    [useFrameExtractor], which builds a fresh extractor for every
    extraction. *)

Module FrameExtractor.

(** [string | File]: a URL, or a [File] object (compared by identity). *)
Inductive VideoSource : Type := url (href : string) | file (object : nat).

Global Instance VideoSource_eq_dec : EqDecision VideoSource.
Proof. solve_decision. Defined.

(** The blob URL strings that [URL.createObjectURL] hands out. *)
Inductive BlobUrl : Type := blob (serial : nat).

Global Instance BlobUrl_eq_dec : EqDecision BlobUrl.
Proof. solve_decision. Defined.

(** Calls of [URL.createObjectURL] and [URL.revokeObjectURL], oldest first. *)
Inductive UrlCall : Type := createObjectURL (b : BlobUrl) | revokeObjectURL (b : BlobUrl).


(** The [Error] values a method call can throw. *)
Inductive ExtractError : Type :=
  | disposed_error                (* the extractor has been disposed of *)
  | load_error                    (* the video failed to load *)
  | capture_error (time : Q)      (* no frame could be captured at [time] *)
  | draw_error.                   (* thrown by drawImage / toDataURL *)

(** Events of the video element.  [loadedmetadata] comes with the duration
    the element then reports; [seeked] with what [drawImage] and
    [toDataURL] then produce: a data URL, or [None] when they throw. *)
Inductive VideoEvent : Type :=
  | loadedmetadata (duration : Q)
  | video_error
  | seeked (picture : option string).

(** Where the method call in flight is suspended. *)
Inductive Suspended : Type :=
  | not_running
  | in_getDuration
  | in_loadVideo (timePoints : list Q)
  | in_captureFrame (timePoints : list Q) (i : nat) (frames : list VideoFrame).

(** What a method call lets its caller observe. *)
Inductive Outcome : Type :=
  | progress_called (percent : Q)
  | duration_returned (duration : Q)
  | frames_returned (frames : list VideoFrame)
  | thrown (e : ExtractError).

Record VideoFrameExtractor : Type := mkExtractor {
  isDisposed : bool;
  currentSrc : option VideoSource;
  blobUrl : option BlobUrl;
  (** [currentLoadHandler] and [currentErrorHandler]: set and cleared
      together, with the [src] their closure holds *)
  currentLoadHandler : option VideoSource;
  (** the [seeked] and [error] listeners of [captureFrame], with its [time] *)
  seekListeners : option Q;
  (** [video.readyState] and [video.duration] *)
  readyState : nat;
  video_duration : Q;
  suspended : Suspended;
  urlCalls : list UrlCall
}.

(** [new VideoFrameExtractor()] *)
Definition new_extractor : VideoFrameExtractor :=
  mkExtractor false None None None None 0 0 not_running [].

Definition set_suspended (s : Suspended) (ex : VideoFrameExtractor)
    : VideoFrameExtractor :=
  mkExtractor (isDisposed ex) (currentSrc ex) (blobUrl ex)
    (currentLoadHandler ex) (seekListeners ex) (readyState ex)
    (video_duration ex) s (urlCalls ex).

Definition cleanupListeners (ex : VideoFrameExtractor) : VideoFrameExtractor :=
  mkExtractor (isDisposed ex) (currentSrc ex) (blobUrl ex)
    None (seekListeners ex) (readyState ex)
    (video_duration ex) (suspended ex) (urlCalls ex).

(** [if (this.blobUrl) { URL.revokeObjectURL(this.blobUrl); this.blobUrl = null }] *)
Definition revokeBlobUrl (ex : VideoFrameExtractor) : VideoFrameExtractor :=
  match blobUrl ex with
  | Some b =>
    mkExtractor (isDisposed ex) (currentSrc ex) None
      (currentLoadHandler ex) (seekListeners ex) (readyState ex)
      (video_duration ex) (suspended ex) (urlCalls ex ++ [revokeObjectURL b])
  | None => ex
  end.

(** The blob URL the next [URL.createObjectURL] returns: a fresh one. *)
Definition fresh_blob (ex : VideoFrameExtractor) : BlobUrl :=
  blob (length (urlCalls ex)).

(** The settled or pending promise of [loadVideo]. *)
Inductive LoadPromise : Type :=
  | load_rejected (e : ExtractError)
  | load_resolved
  | load_pending.

Definition loadVideo (ex : VideoFrameExtractor) (src : VideoSource)
    : VideoFrameExtractor * LoadPromise :=
  if isDisposed ex then (ex, load_rejected disposed_error)
  else if bool_decide (currentSrc ex = Some src) && (1 <=? readyState ex)%nat
  then (ex, load_resolved)
  else
    let ex := revokeBlobUrl (cleanupListeners ex) in
    (* the executor of [new Promise]: it registers both handlers and sets
       [video.src] *)
    match src with
    | file _ =>
      let b := fresh_blob ex in
      (mkExtractor (isDisposed ex) (currentSrc ex) (Some b)
         (Some src) (seekListeners ex) (readyState ex)
         (video_duration ex) (suspended ex) (urlCalls ex ++ [createObjectURL b]),
       load_pending)
    | url _ =>
      (mkExtractor (isDisposed ex) (currentSrc ex) (blobUrl ex)
         (Some src) (seekListeners ex) (readyState ex)
         (video_duration ex) (suspended ex) (urlCalls ex),
       load_pending)
    end.

(** [captureFrame(time)]: registers the two listeners and seeks. *)
Definition captureFrame (ex : VideoFrameExtractor) (time : Q)
    : VideoFrameExtractor :=
  mkExtractor (isDisposed ex) (currentSrc ex) (blobUrl ex)
    (currentLoadHandler ex) (Some time) (readyState ex)
    (video_duration ex) (suspended ex) (urlCalls ex).

Definition removeSeekListeners (ex : VideoFrameExtractor) : VideoFrameExtractor :=
  mkExtractor (isDisposed ex) (currentSrc ex) (blobUrl ex)
    (currentLoadHandler ex) None (readyState ex)
    (video_duration ex) (suspended ex) (urlCalls ex).

(** The [for] loop of [extractFrames], entered at the test of its
    condition with the counter [i] and the array [frames]; it runs until
    the call returns or is suspended in [captureFrame]. *)
Definition extractFrames_loop (ex : VideoFrameExtractor) (timePoints : list Q)
    (i : nat) (frames : list VideoFrame)
    : VideoFrameExtractor * list Outcome :=
  match timePoints !! i with
  | Some time =>
    if isDisposed ex
    then (set_suspended not_running ex, [frames_returned frames])
    else (set_suspended (in_captureFrame timePoints i frames)
            (captureFrame ex time), [])
  | None => (set_suspended not_running ex, [frames_returned frames])
  end.

(** [extractFrames(src, timePoints, frameHeight, onProgress)] up to its
    first suspension.  The size of the capture canvas, which the method
    derives from [frameHeight], has no bearing on what follows. *)
Definition extractFrames (ex : VideoFrameExtractor) (src : VideoSource)
    (timePoints : list Q) : VideoFrameExtractor * list Outcome :=
  if isDisposed ex then (ex, [thrown disposed_error])
  else
    match loadVideo ex src with
    | (ex, load_rejected e) => (ex, [thrown e])
    | (ex, load_resolved) => extractFrames_loop ex timePoints 0 []
    | (ex, load_pending) => (set_suspended (in_loadVideo timePoints) ex, [])
    end.

(** [getDuration(src)] up to its first suspension. *)
Definition getDuration (ex : VideoFrameExtractor) (src : VideoSource)
    : VideoFrameExtractor * list Outcome :=
  match loadVideo ex src with
  | (ex, load_rejected e) => (ex, [thrown e])
  | (ex, load_resolved) => (ex, [duration_returned (video_duration ex)])
  | (ex, load_pending) => (set_suspended in_getDuration ex, [])
  end.

Definition dispose (ex : VideoFrameExtractor) : VideoFrameExtractor :=
  let ex := revokeBlobUrl (cleanupListeners ex) in
  mkExtractor true None (blobUrl ex)
    (currentLoadHandler ex) (seekListeners ex) (readyState ex)
    (video_duration ex) (suspended ex) (urlCalls ex).

(** The call suspended in [loadVideo] goes on after [resolve()]. *)
Definition resume_loaded (ex : VideoFrameExtractor)
    : VideoFrameExtractor * list Outcome :=
  match suspended ex with
  | in_getDuration =>
    (set_suspended not_running ex, [duration_returned (video_duration ex)])
  | in_loadVideo timePoints => extractFrames_loop ex timePoints 0 []
  | _ => (ex, [])
  end.

(** The call suspended in [loadVideo] goes on after [reject(e)]: its
    [await] throws. *)
Definition resume_load_rejected (ex : VideoFrameExtractor) (e : ExtractError)
    : VideoFrameExtractor * list Outcome :=
  match suspended ex with
  | in_getDuration | in_loadVideo _ =>
    (set_suspended not_running ex, [thrown e])
  | _ => (ex, [])
  end.

(** The call suspended in [captureFrame] goes on after [reject(e)]. *)
Definition resume_capture_rejected (ex : VideoFrameExtractor)
    (e : ExtractError) : VideoFrameExtractor * list Outcome :=
  match suspended ex with
  | in_captureFrame _ _ _ => (set_suspended not_running ex, [thrown e])
  | _ => (ex, [])
  end.

(** [((i + 1) / timePoints.length) * 100] *)
Definition percent (timePoints : list Q) (i : nat) : Q :=
  (inject_Z (Z.of_nat (i + 1)) / inject_Z (Z.of_nat (length timePoints))) * 100.

(** The call suspended in [captureFrame] goes on after [resolve(imageData)]:
    it pushes the frame, reports progress and re-enters the loop. *)
Definition resume_captured (ex : VideoFrameExtractor) (imageData : string)
    : VideoFrameExtractor * list Outcome :=
  match suspended ex with
  | in_captureFrame timePoints i frames =>
    match timePoints !! i with
    | Some time =>
      let frames := frames ++ [mkFrame time imageData] in
      let (ex, outcomes) := extractFrames_loop ex timePoints (i + 1) frames in
      (ex, progress_called (percent timePoints i) :: outcomes)
    | None => (ex, [])
    end
  | _ => (ex, [])
  end.

(** The browser delivers an event to the video element of the extractor. *)
Definition fire (ex : VideoFrameExtractor) (ev : VideoEvent)
    : VideoFrameExtractor * list Outcome :=
  match ev with
  | loadedmetadata d =>
    let ex :=
      mkExtractor (isDisposed ex) (currentSrc ex) (blobUrl ex)
        (currentLoadHandler ex) (seekListeners ex) (Nat.max 1 (readyState ex))
        d (suspended ex) (urlCalls ex) in
    match currentLoadHandler ex with
    | Some src =>
      (* handleLoad *)
      let ex := cleanupListeners ex in
      let ex :=
        mkExtractor (isDisposed ex) (Some src) (blobUrl ex)
          (currentLoadHandler ex) (seekListeners ex) (readyState ex)
          (video_duration ex) (suspended ex) (urlCalls ex) in
      resume_loaded ex
    | None => (ex, [])
    end
  | video_error =>
    (* both [error] listeners, as far as they are registered *)
    let (ex, of_load) :=
      match currentLoadHandler ex with
      | Some _ =>
        (* handleError of loadVideo *)
        let ex := cleanupListeners ex in
        if isDisposed ex then (ex, [])
        else resume_load_rejected ex load_error
      | None => (ex, [])
      end in
    let (ex, of_capture) :=
      match seekListeners ex with
      | Some time =>
        (* handleError of captureFrame *)
        resume_capture_rejected (removeSeekListeners ex) (capture_error time)
      | None => (ex, [])
      end in
    (ex, of_load ++ of_capture)
  | seeked picture =>
    match seekListeners ex with
    | Some _ =>
      (* handleSeeked *)
      let ex := removeSeekListeners ex in
      match picture with
      | Some imageData => resume_captured ex imageData
      | None => resume_capture_rejected ex draw_error
      end
    | None => (ex, [])
    end
  end.

(** What a client of the class can do to an extractor, and what the
    browser can. *)
Inductive Action : Type :=
  | call_getDuration (src : VideoSource)
  | call_extractFrames (src : VideoSource) (timePoints : list Q)
  | call_dispose
  | event (ev : VideoEvent).

Definition act (ex : VideoFrameExtractor) (a : Action)
    : VideoFrameExtractor * list Outcome :=
  match a with
  | call_getDuration src => getDuration ex src
  | call_extractFrames src timePoints => extractFrames ex src timePoints
  | call_dispose => (dispose ex, [])
  | event ev => fire ex ev
  end.

(** A run: the final extractor and everything observed on the way. *)
Fixpoint run (ex : VideoFrameExtractor) (actions : list Action)
    : VideoFrameExtractor * list Outcome :=
  match actions with
  | [] => (ex, [])
  | a :: rest =>
    let (ex, first) := act ex a in
    let (ex, later) := run ex rest in
    (ex, first ++ later)
  end.



(** The events a run delivers to the video element. *)
Definition events (evs : list VideoEvent) : list Action := map event evs.




(** Neither an event nor the loop of [extractFrames] touches the blob
    URL, the log of URL calls or the disposed flag. *)
Definition same_urls (ex ex' : VideoFrameExtractor) : Prop :=
  urlCalls ex' = urlCalls ex /\ blobUrl ex' = blobUrl ex /\
  isDisposed ex' = isDisposed ex.

(** The timestamps of a clip of 10 seconds sampled every 2 seconds. *)
Definition ten_seconds : list Q := [0; 2; 4; 6; 8; 9.99].



End FrameExtractor.

(** ** hooks/use-frame-extractor.ts

    The hook owns two refs, [extractorRef] and [abortRef], five state
    cells, and the latest callbacks in [callbacksRef].  Every call of its
    [extractFrames] builds an extractor of its own; the extractors live in
    [extractions], in the order of their construction, each next to the
    options its call closed over.  A callback of the caller is recorded
    with the number of the extraction that called it. *)

Module UseFrameExtractor.
Import TimePoints FrameExtractor.

(** The options [extractFrames] closes over. *)
Record UseFrameExtractorOptions : Type := mkHookOptions {
  videoSrc : option VideoSource;
  duration : option Q;
  frameInterval : Q;
  frameHeight : Q
}.

(** [{ onProgress, onComplete, onError }]: which of them are supplied. *)
Record Callbacks : Type := mkCallbacks {
  onProgress : bool;
  onComplete : bool;
  onError : bool
}.

Inductive Called : Type :=
  | onProgress_called (extraction : nat) (percent : Q)
  | onComplete_called (extraction : nat) (frames : list VideoFrame)
  | onError_called (extraction : nat) (e : ExtractError).

Record Extraction : Type := mkExtraction {
  closure : UseFrameExtractorOptions;
  extractor : VideoFrameExtractor
}.

Record Hook : Type := mkHook {
  frames : list VideoFrame;
  videoDuration : Q;
  loading : bool;
  progress : Q;
  error : option ExtractError;
  extractorRef : option nat;
  abortRef : bool;
  callbacksRef : Callbacks;
  extractions : list Extraction;
  (** an extraction is stuck inside [generateTimePoints] *)
  frozen : bool;
  called : list Called
}.

(** The hook at its first render. *)
Definition mount (o : UseFrameExtractorOptions) (cbs : Callbacks) : Hook :=
  mkHook [] (default 0 (duration o)) false 0 None None false cbs [] false [].

(** [!videoSrc]: [undefined] and the empty string are falsy. *)
Definition truthy_src (src : option VideoSource) : option VideoSource :=
  match src with
  | Some (url "") => None
  | _ => src
  end.

(** [!actualDuration]: [undefined] and [0] are falsy. *)
Definition truthy_duration (d : option Q) : option Q :=
  match d with
  | Some d => if Qeq_bool d 0 then None else Some d
  | None => None
  end.

Definition set_abortRef (b : bool) (h : Hook) : Hook :=
  mkHook (frames h) (videoDuration h) (loading h) (progress h) (error h)
    (extractorRef h) b (callbacksRef h) (extractions h) (frozen h) (called h).

Definition set_extractor (k : nat) (ex : VideoFrameExtractor) (h : Hook) : Hook :=
  mkHook (frames h) (videoDuration h) (loading h) (progress h) (error h)
    (extractorRef h) (abortRef h) (callbacksRef h)
    (alter (fun e => mkExtraction (closure e) ex) k (extractions h))
    (frozen h) (called h).

(** [extractorRef.current?.dispose()] *)
Definition dispose_current (h : Hook) : Hook :=
  match extractorRef h with
  | Some k =>
    match extractions h !! k with
    | Some e => set_extractor k (dispose (extractor e)) h
    | None => h
    end
  | None => h
  end.

(** [cb?.(arg)] on [callbacksRef.current]. *)
Definition call_back (supplied : bool) (c : Called) (h : Hook) : list Called :=
  if supplied then called h ++ [c] else called h.

(** What extraction [k] does with a progress report, with the frames its
    extractor returns, or with what it throws. *)
Definition deliver (k : nat) (h : Hook) (o : Outcome) : Hook :=
  match o with
  | progress_called p =>
    if abortRef h then h
    else
      mkHook (frames h) (videoDuration h) (loading h) p (error h)
        (extractorRef h) (abortRef h) (callbacksRef h) (extractions h)
        (frozen h)
        (call_back (onProgress (callbacksRef h)) (onProgress_called k p) h)
  | frames_returned extractedFrames =>
    if abortRef h then h
    else
      mkHook extractedFrames (videoDuration h) false (progress h) (error h)
        (extractorRef h) (abortRef h) (callbacksRef h) (extractions h)
        (frozen h)
        (call_back (onComplete (callbacksRef h))
                   (onComplete_called k extractedFrames) h)
  | thrown e =>
    if abortRef h then h
    else
      mkHook (frames h) (videoDuration h) false (progress h) (Some e)
        (extractorRef h) (abortRef h) (callbacksRef h) (extractions h)
        (frozen h)
        (call_back (onError (callbacksRef h)) (onError_called k e) h)
  | duration_returned _ => h
  end.

(** Extraction [k] from [generateTimePoints(actualDuration, frameInterval)]
    on.  [generateTimePoints] is given the fuel [S (rounds ...)], which is
    enough whenever any fuel is; without a result the extraction, and the
    page with it, stays in that loop. *)
Definition extract_at (k : nat) (o : UseFrameExtractorOptions)
    (src : VideoSource) (actualDuration : Q) (h : Hook) : Hook :=
  match generateTimePoints (S (rounds actualDuration (frameInterval o)))
                           actualDuration (frameInterval o) with
  | None =>
    mkHook (frames h) (videoDuration h) (loading h) (progress h) (error h)
      (extractorRef h) (abortRef h) (callbacksRef h) (extractions h)
      true (called h)
  | Some timePoints =>
    match extractions h !! k with
    | Some e =>
      let (ex, outcomes) := extractFrames (extractor e) src timePoints in
      foldl (deliver k) (set_extractor k ex h) outcomes
    | None => h
    end
  end.

(** Extraction [k] goes on with what its extractor lets it observe. *)
Definition continue (k : nat) (o : UseFrameExtractorOptions)
    (src : VideoSource) (h : Hook) (out : Outcome) : Hook :=
  match out with
  | duration_returned actualDuration =>
    (* setVideoDuration(actualDuration) *)
    let h :=
      mkHook (frames h) actualDuration (loading h) (progress h) (error h)
        (extractorRef h) (abortRef h) (callbacksRef h) (extractions h)
        (frozen h) (called h) in
    extract_at k o src actualDuration h
  | _ => deliver k h out
  end.

(** The hook's [extractFrames], called by the effect and by [refresh()]
    with the options of the render that built it. *)
Definition extractFrames_hook (o : UseFrameExtractorOptions) (h : Hook) : Hook :=
  match truthy_src (videoSrc o) with
  | None => h
  | Some src =>
    (* abortRef.current = true; extractorRef.current?.dispose() *)
    let h := dispose_current (set_abortRef true h) in
    (* abortRef.current = false; setLoading(true); setProgress(0);
       setError(null) *)
    let k := length (extractions h) in
    (* const extractor = new VideoFrameExtractor();
       extractorRef.current = extractor *)
    let h :=
      mkHook (frames h) (videoDuration h) true 0 None
        (Some k) false (callbacksRef h)
        (extractions h ++ [mkExtraction o new_extractor])
        (frozen h) (called h) in
    match truthy_duration (duration o) with
    | Some actualDuration => extract_at k o src actualDuration h
    | None =>
      let (ex, outcomes) := getDuration new_extractor src in
      foldl (continue k o src) (set_extractor k ex h) outcomes
    end
  end.

Inductive HookEvent : Type :=
  | render (cbs : Callbacks)
  | extractFrames_called (o : UseFrameExtractorOptions)
  | effect_cleanup
  | video (k : nat) (ev : VideoEvent).

Definition hook_step (h : Hook) (e : HookEvent) : Hook :=
  if frozen h then h
  else
    match e with
    | render cbs =>
      mkHook (frames h) (videoDuration h) (loading h) (progress h) (error h)
        (extractorRef h) (abortRef h) cbs (extractions h)
        (frozen h) (called h)
    | extractFrames_called o => extractFrames_hook o h
    | effect_cleanup => dispose_current (set_abortRef true h)
    | video k ev =>
      match extractions h !! k with
      | Some e =>
        let (ex, outcomes) := fire (extractor e) ev in
        match truthy_src (videoSrc (closure e)) with
        | Some src =>
          foldl (continue k (closure e) src) (set_extractor k ex h) outcomes
        | None => set_extractor k ex h
        end
      | None => h
      end
    end.

Definition hook_run (h : Hook) (events : list HookEvent) : Hook :=
  foldl hook_step h events.

Definition is_onComplete (c : Called) : bool :=
  match c with onComplete_called _ _ => true | _ => false end.


(** A clip of 10 seconds given by URL with its duration, sampled every
    2 seconds, and a caller that listens to progress, completion and
    errors. *)
Definition clip : UseFrameExtractorOptions :=
  mkHookOptions (Some (url "/video.mp4")) (Some 10) 2 50.

Definition listening : Callbacks := mkCallbacks true true true.

(** Extraction A (number 0) is started and its video loads, so that its
    first capture awaits [seeked]; then extraction B (number 1) is
    started. *)
Definition a_then_b : list HookEvent :=
  [extractFrames_called clip;
   video 0 (loadedmetadata 10);
   extractFrames_called clip].

(** The pending [seeked] of A's video arrives. *)
Definition a_seeked : HookEvent := video 0 (seeked (Some "data:A0")).

(** B's video loads and its six captures complete. *)
Definition b_completes : list HookEvent :=
  [video 1 (loadedmetadata 10);
   video 1 (seeked (Some "data:B0"));
   video 1 (seeked (Some "data:B1"));
   video 1 (seeked (Some "data:B2"));
   video 1 (seeked (Some "data:B3"));
   video 1 (seeked (Some "data:B4"));
   video 1 (seeked (Some "data:B5"))].

Definition b_frames : list VideoFrame :=
  [mkFrame 0 "data:B0"; mkFrame 2 "data:B1"; mkFrame 4 "data:B2";
   mkFrame 6 "data:B3"; mkFrame 8 "data:B4"; mkFrame 9.99 "data:B5"].

End UseFrameExtractor.

(** ** utils/timeline-renderer.ts

    The renderer's only state that outlives a draw call is its image cache
    [frameImages].  A draw call is rendered as the list of calls it makes on
    the 2D context, in order.  The frame tiles are kept call by call; each
    of the other layers ([drawTimeScale], [drawSelectionMask],
    [drawHandles], [drawCursor]), none of which branches on the frames, is
    one entry with the arguments [render] passes to it.

    [loadImage] resolves when the browser decodes the image and rejects
    when it does not; [decodes] is that verdict of the browser. *)

Module TimelineRenderer.

Record HTMLImageElement : Type := mkImage { img_src : string }.

Record TimelineTheme : Type := mkTheme {
  backgroundColor : string;
  handleColor : string;
  handleStripeColor : string;
  scaleTextColor : string;
  scaleLineColor : string;
  cursorColor : string;
  selectionBorderColor : string
}.

Record RenderOptions : Type := mkRender {
  frames : list VideoFrame;
  duration : Q;
  currentTime : Q;
  selectedRange : TimeRange;
  width : Q;
  height : Q;
  scaleHeight : Q;
  frameHeight : Q;
  handleWidth : Q;
  showTimeScale : bool;
  theme : TimelineTheme
}.

Inductive CanvasCall : Type :=
  | clearRect (x y w h : Q)
  | fillRect (fillStyle : string) (x y w h : Q)
  | drawImage (img : HTMLImageElement) (x y w h : Q)
  | drawTimeScale (duration width scaleHeight handleWidth : Q)
  | drawSelectionMask (range : TimeRange)
      (duration width offsetY frameHeight handleWidth : Q)
  | drawHandles (range : TimeRange)
      (duration width offsetY frameHeight handleWidth : Q)
  | drawCursor (currentTime duration width offsetY cursorHeight handleWidth : Q).

(** How an [async] method of the renderer ends. *)
Inductive Settled : Type :=
  | fulfilled
  | rejected.   (* with the error of [loadImage] *)

Definition loadImage (decodes : string -> bool) (src : string)
    : option HTMLImageElement :=
  if decodes src then Some (mkImage src) else None.

(** [this.frameImages.set(frame.imageData, img)] once [loadImage] has
    resolved; nothing is stored for an image that does not load. *)
Definition store (decodes : string -> bool)
    (cache : gmap string HTMLImageElement) (frame : VideoFrame)
    : gmap string HTMLImageElement :=
  match loadImage decodes (imageData frame) with
  | Some img => <[imageData frame := img]> cache
  | None => cache
  end.

(** [preloadFrameImages].  [frames.map] runs the cache test of every
    frame before any image has loaded; every load that succeeds stores its
    image; [Promise.all] is fulfilled when all loads succeed and rejected
    as soon as one fails.  The cache returned is the one after every load
    has settled. *)
Definition preloadFrameImages (decodes : string -> bool)
    (frameImages : gmap string HTMLImageElement) (frames : list VideoFrame)
    : gmap string HTMLImageElement * Settled :=
  let missing :=
    filter (fun frame => frameImages !! imageData frame = None) frames in
  (foldl (store decodes) frameImages missing,
   if forallb (fun frame => decodes (imageData frame)) missing
   then fulfilled else rejected).

(** The [for] loop of [drawFrames], from index [i] on. *)
Fixpoint drawFrames_loop (frameImages : gmap string HTMLImageElement)
    (frames : list VideoFrame) (i : nat)
    (frameWidth offsetY frameHeight handleWidth : Q) : list CanvasCall :=
  match frames with
  | [] => []
  | frame :: rest =>
    match frameImages !! imageData frame with
    | Some img =>
      let x := handleWidth + inject_Z (Z.of_nat i) * frameWidth in
      [drawImage img x offsetY frameWidth frameHeight]
    | None => []
    end ++
    drawFrames_loop frameImages rest (S i)
                    frameWidth offsetY frameHeight handleWidth
  end.

Definition drawFrames (decodes : string -> bool)
    (frameImages : gmap string HTMLImageElement) (frames : list VideoFrame)
    (duration width offsetY frameHeight handleWidth : Q)
    : gmap string HTMLImageElement * list CanvasCall * Settled :=
  let effectiveWidth := width - handleWidth * 2 in
  let frameWidth := effectiveWidth / inject_Z (Z.of_nat (length frames)) in
  match preloadFrameImages decodes frameImages frames with
  | (frameImages, rejected) => (frameImages, [], rejected)
  | (frameImages, fulfilled) =>
    (frameImages,
     drawFrames_loop frameImages frames 0
                     frameWidth offsetY frameHeight handleWidth,
     fulfilled)
  end.

Definition drawFrameBackground (width offsetY frameHeight : Q)
    (backgroundColor : string) : list CanvasCall :=
  if bool_decide (backgroundColor <> "transparent")
  then [fillRect backgroundColor 0 offsetY width frameHeight]
  else [].

Definition render (decodes : string -> bool)
    (frameImages : gmap string HTMLImageElement) (o : RenderOptions)
    : gmap string HTMLImageElement * list CanvasCall * Settled :=
  let offsetY := if showTimeScale o then scaleHeight o else 0 in
  let before :=
    [clearRect 0 0 (width o) (height o)] ++
    (if showTimeScale o
     then [drawTimeScale (duration o) (width o) (scaleHeight o) (handleWidth o)]
     else []) ++
    drawFrameBackground (width o) offsetY (frameHeight o)
                        (backgroundColor (theme o)) in
  let after :=
    let cursorOverflow := 10 in
    let cursorOffsetY := offsetY - cursorOverflow in
    let cursorHeight := frameHeight o + cursorOverflow * 2 in
    [drawSelectionMask (selectedRange o) (duration o) (width o) offsetY
                       (frameHeight o) (handleWidth o);
     drawHandles (selectedRange o) (duration o) (width o) offsetY
                 (frameHeight o) (handleWidth o);
     drawCursor (currentTime o) (duration o) (width o) cursorOffsetY
                cursorHeight (handleWidth o)] in
  match frames o with
  | [] => (frameImages, before ++ after, fulfilled)
  | _ :: _ =>
    match drawFrames decodes frameImages (frames o) (duration o) (width o)
                     offsetY (frameHeight o) (handleWidth o) with
    | (frameImages, tiles, rejected) => (frameImages, before ++ tiles, rejected)
    | (frameImages, tiles, fulfilled) =>
      (frameImages, before ++ tiles ++ after, fulfilled)
    end
  end.

(** The calls [render] makes before it turns to the frames. *)
Definition drawn_before_frames (o : RenderOptions) : list CanvasCall :=
  let offsetY := if showTimeScale o then scaleHeight o else 0 in
  [clearRect 0 0 (width o) (height o)] ++
  (if showTimeScale o
   then [drawTimeScale (duration o) (width o) (scaleHeight o) (handleWidth o)]
   else []) ++
  drawFrameBackground (width o) offsetY (frameHeight o)
                      (backgroundColor (theme o)).

(** Two frames over the widget's default geometry; the browser decodes the
    first thumbnail and not the second. *)
Definition two_frames : RenderOptions :=
  mkRender [mkFrame 0 "data:first"; mkFrame 5 "data:second"]
    10 0 (mkRange 2 8) 420 97 27 50 16 true
    (mkTheme "transparent" "#FFFFFF" "#E5E4E4" "#888888" "#444444"
             "#FFFFFF" "#FFFFFF").

Definition decodes_first (src : string) : bool :=
  bool_decide (src = "data:first").

End TimelineRenderer.

From stdpp Require Import pretty.

Local Open Scope Q_scope.

(** ** components/video-timeline.tsx: the widget around the drag hook

    The component keeps the current time and the selected range in two
    state cells, decides between them and the caller's props, and hands
    the outcome to [useDragInteraction] together with its own two
    callbacks [handleTimeChange] and [handleRangeChange].  A pointer event
    runs the handler of the hook on the options of the latest render and
    then applies the callbacks the handler called. *)

Module VideoTimeline.
Import DragInteraction.

Definition DEFAULT_FRAME_HEIGHT : Q := 50.
Definition DEFAULT_SCALE_HEIGHT : Q := 27.
Definition DEFAULT_HANDLE_WIDTH : Q := 16.
Definition DEFAULT_MIN_DURATION : Q := 0.1.

(** The props the drag interaction depends on; [None] is [undefined].
    The four callbacks are optional. *)
Record VideoTimelineProps : Type := mkProps {
  prop_duration : option Q;
  prop_currentTime : option Q;
  prop_selectedRange : option TimeRange;
  prop_defaultSelectedRange : option TimeRange;
  prop_frameHeight : option Q;
  prop_showTimeScale : option bool;
  prop_disabled : option bool;
  prop_minDuration : option Q;
  prop_onTimeChange : bool;
  prop_onRangeChange : bool;
  prop_onDragStart : bool;
  prop_onDragEnd : bool
}.

(** The state cells of the component, the duration its frame extractor
    reports, and the state of the drag hook. *)
Record Widget : Type := mkWidget {
  internalCurrentTime : Q;
  internalSelectedRange : TimeRange;
  videoDuration : Q;
  drag : DragState
}.

(** [a || b] on numbers: [undefined] and [0] are falsy. *)
Definition or_number (a : option Q) (b : Q) : Q :=
  match a with
  | Some x => if Qeq_bool x 0 then b else x
  | None => b
  end.

(** [currentTime: propCurrentTime = 0] in the destructuring of the props. *)
Definition propCurrentTime (p : VideoTimelineProps) : Q :=
  default 0 (prop_currentTime p).

(** The state at the first render. *)
Definition first_render (p : VideoTimelineProps) (videoDuration : Q) : Widget :=
  mkWidget (propCurrentTime p)
    (default (default (mkRange 0 0) (prop_defaultSelectedRange p))
             (prop_selectedRange p))
    videoDuration
    (mkDrag None 0 (mkRange 0 0) 0 false None).

(** [propCurrentTime !== undefined ? propCurrentTime : internalCurrentTime];
    after its default, [propCurrentTime] is a number. *)
Definition currentTime_of (p : VideoTimelineProps) (w : Widget) : Q :=
  let propCurrentTime : option Q := Some (propCurrentTime p) in
  match propCurrentTime with
  | Some t => t
  | None => internalCurrentTime w
  end.

(** [propSelectedRange || internalSelectedRange] *)
Definition selectedRange_of (p : VideoTimelineProps) (w : Widget) : TimeRange :=
  default (internalSelectedRange w) (prop_selectedRange p).

(** [propDuration || videoDuration || 10] *)
Definition duration_of (p : VideoTimelineProps) (w : Widget) : Q :=
  or_number (Some (or_number (prop_duration p) (videoDuration w))) 10.

(** The options the component passes to [useDragInteraction]. *)
Definition drag_options (p : VideoTimelineProps) (canvas : HTMLCanvasElement)
    (w : Widget) : UseDragInteractionOptions :=
  let showTimeScale := default true (prop_showTimeScale p) in
  mkOptions (Some canvas) (duration_of p w) (currentTime_of p w)
    (selectedRange_of p w)
    (if showTimeScale then DEFAULT_SCALE_HEIGHT else 0)
    (default DEFAULT_FRAME_HEIGHT (prop_frameHeight p))
    DEFAULT_HANDLE_WIDTH
    (default DEFAULT_MIN_DURATION (prop_minDuration p))
    (default false (prop_disabled p))
    true true (prop_onDragStart p) (prop_onDragEnd p).

(** [handleTimeChange] and [handleRangeChange] store the value and call
    the caller's callback; [onDragStart] and [onDragEnd] are the caller's
    own.  The result is the new state and what the caller is called
    with. *)
Definition handle_emitted (p : VideoTimelineProps)
    (acc : Widget * list Emitted) (e : Emitted) : Widget * list Emitted :=
  let (w, seen) := acc in
  match e with
  | TimeChange t =>
    (mkWidget t (internalSelectedRange w) (videoDuration w) (drag w),
     seen ++ call (prop_onTimeChange p) e)
  | RangeChange r =>
    (mkWidget (internalCurrentTime w) r (videoDuration w) (drag w),
     seen ++ call (prop_onRangeChange p) e)
  | DragStarted _ | DragEnded _ => (w, seen ++ [e])
  end.

Inductive PointerEvent : Type :=
  | pointer_down (clientX clientY : Q)
  | pointer_move (clientX : Q)
  | pointer_up.

Definition set_drag (d : DragState) (w : Widget) : Widget :=
  mkWidget (internalCurrentTime w) (internalSelectedRange w) (videoDuration w) d.

(** One mouse or single-touch event on the widget. *)
Definition widget_step (p : VideoTimelineProps) (canvas : HTMLCanvasElement)
    (w : Widget) (ev : PointerEvent) : Widget * list Emitted :=
  let o := drag_options p canvas w in
  match ev with
  | pointer_down clientX clientY =>
    let (d, emitted) := handleStart o (drag w) clientX clientY in
    foldl (handle_emitted p) (set_drag d w, []) emitted
  | pointer_move clientX =>
    foldl (handle_emitted p) (w, []) (handleMove o (drag w) clientX)
  | pointer_up =>
    let (d, emitted) := handleEnd o (drag w) in
    foldl (handle_emitted p) (set_drag d w, []) emitted
  end.

(** A run of pointer events: the final state and all the caller saw. *)
Fixpoint widget_run (p : VideoTimelineProps) (canvas : HTMLCanvasElement)
    (w : Widget) (evs : list PointerEvent) : Widget * list Emitted :=
  match evs with
  | [] => (w, [])
  | ev :: rest =>
    let (w, first) := widget_step p canvas w ev in
    let (w, later) := widget_run p canvas w rest in
    (w, first ++ later)
  end.


(** A widget that lets its own state hold the range, over a clip of 10
    seconds. *)
Definition uncontrolled : VideoTimelineProps :=
  mkProps (Some 10) None None (Some (mkRange 2 8)) None None None (Some 1)
          true true true true.

End VideoTimeline.

(** ** Runs of an extraction *)

Module Extraction.
Import FrameExtractor.

(** The [seeked] events of captures that can be drawn, with the data URLs
    [toDataURL] returns for them. *)
Definition captures (pictures : list string) : list Action :=
  map (fun imageData => event (seeked (Some imageData))) pictures.

(** The frames of the time points that have been captured. *)
Definition frames_of (timePoints : list Q) (pictures : list string)
    : list VideoFrame :=
  zip_with mkFrame timePoints pictures.

(** The progress reports of the captures [first], ..., [first + n - 1]. *)
Definition progress_reports (timePoints : list Q) (first n : nat)
    : list Outcome :=
  map (fun i => progress_called (percent timePoints i)) (seq first n).

(** An extractor whose call of [extractFrames] awaits the [seeked] of
    capture [i], with [frames] captured before. *)
Definition capturing (ex : VideoFrameExtractor) (timePoints : list Q)
    (i : nat) (frames : list VideoFrame) : Prop :=
  isDisposed ex = false /\ currentLoadHandler ex = None /\
  is_Some (timePoints !! i) /\ seekListeners ex = timePoints !! i /\
  suspended ex = in_captureFrame timePoints i frames.

(** The error a capture that fails throws: [error] on the video element
    while capture [i] is awaited, or a picture that cannot be drawn. *)
Definition failure_of (timePoints : list Q) (i : nat) (ev : VideoEvent)
    : option ExtractError :=
  match ev with
  | video_error => capture_error <$> timePoints !! i
  | seeked None => Some draw_error
  | _ => None
  end.

(** An extractor without a call in flight and without listeners. *)
Definition at_rest (ex : VideoFrameExtractor) : Prop :=
  currentLoadHandler ex = None /\ seekListeners ex = None /\
  suspended ex = not_running.

(** The blob URLs that are created and not yet revoked, counted. *)
Definition is_create (c : UrlCall) : bool :=
  match c with createObjectURL _ => true | revokeObjectURL _ => false end.

Definition creations (ex : VideoFrameExtractor) : nat :=
  length (List.filter is_create (urlCalls ex)).

Definition revocations (ex : VideoFrameExtractor) : nat :=
  length (List.filter (fun c => negb (is_create c)) (urlCalls ex)).

(** As many blob URLs are created and not revoked as the extractor holds:
    one or none; a disposed extractor holds none. *)
Definition urls_balanced (ex : VideoFrameExtractor) : Prop :=
  creations ex =
    (revocations ex + if blobUrl ex is Some _ then 1 else 0)%nat /\
  (isDisposed ex = true -> blobUrl ex = None).

End Extraction.

(** ** The extractors of the hook *)

Module HookExtractors.
Import FrameExtractor Extraction UseFrameExtractor.

(** The extractors of a hook are in order: [extractorRef] is the last
    one built, every other one is disposed of, and each has its blob URLs
    balanced. *)
Definition extractors_in_order (h : Hook) : Prop :=
  match extractorRef h with
  | None => extractions h = []
  | Some k => length (extractions h) = S k
  end /\
  forall (j : nat) (e : Extraction),
    extractions h !! j = Some e ->
    urls_balanced (extractor e) /\
    (extractorRef h <> Some j -> isDisposed (extractor e) = true).

(** The blob URLs all extractors of a hook have created and not revoked. *)
Definition live_blob_urls (h : Hook) : nat :=
  foldr (fun e n => (creations (extractor e) - revocations (extractor e) + n)%nat)
        0%nat (extractions h).

End HookExtractors.

(** ** Runs of the hook *)

Module HookRuns.
Import FrameExtractor Extraction UseFrameExtractor.

(** An outcome other than the return of [getDuration]. *)
Definition no_duration (o : Outcome) : Prop :=
  match o with duration_returned _ => False | _ => True end.

(** The [seeked] events of captures that draw these pictures. *)
Definition seeks (pictures : list string) : list VideoEvent :=
  map (fun p => seeked (Some p)) pictures.

(** [onProgress] called by extraction [k] once for each time point. *)
Definition progress_calls (k : nat) (timePoints : list Q) : list Called :=
  map (fun i => onProgress_called k (percent timePoints i))
      (seq 0 (length timePoints)).

(** The hook after the synchronous part of [extractFrames] up to
    [extractorRef.current = extractor], on a hook that was just mounted. *)
Definition first_started (o : UseFrameExtractorOptions) (cbs : Callbacks)
    : Hook :=
  mkHook [] (default 0 (duration o)) true 0 None (Some 0%nat) false cbs
    [mkExtraction o new_extractor] false [].

(** [generateTimePoints] returns for the duration the options give; with
    no duration given it is not called before the video has loaded. *)
Definition returns_time_points (o : UseFrameExtractorOptions) : Prop :=
  match truthy_duration (duration o) with
  | Some d =>
    is_Some (TimePoints.generateTimePoints
               (S (TimePoints.rounds d (frameInterval o))) d (frameInterval o))
  | None => True
  end.

(** The hook after the synchronous part of [extractFrames] up to
    [extractorRef.current = extractor]. *)
Definition restarted (o : UseFrameExtractorOptions) (h : Hook) : Hook :=
  mkHook (frames h) (videoDuration h) true 0 None
    (Some (length (extractions h))) false (callbacksRef h)
    (extractions (dispose_current (set_abortRef true h))
       ++ [mkExtraction o new_extractor])
    (frozen h) (called h).

End HookRuns.

(** ** The image cache of the renderer *)

Module RendererCache.
Import TimelineRenderer.

(** [clearCache()]: [this.frameImages.clear()]. *)
Definition clearCache (frameImages : gmap string HTMLImageElement)
    : gmap string HTMLImageElement := ∅.

(** [dispose()] clears the cache and drops the off-screen canvas. *)
Definition dispose (frameImages : gmap string HTMLImageElement)
    : gmap string HTMLImageElement := clearCache frameImages.

(** The right edge of a tile. *)
Definition right_edge (c : CanvasCall) : option Q :=
  match c with
  | drawImage _ x _ w _ => Some (x + w)
  | _ => None
  end.

Definition left_edge (c : CanvasCall) : option Q :=
  match c with
  | drawImage _ x _ _ _ => Some x
  | _ => None
  end.

End RendererCache.

(** ** Times as text: [utils/time-format.ts] *)

Module TimeText.
Import TimeFormat.

(** [x % 60] on numbers: the remainder has the sign of [x], the quotient
    being truncated towards zero. *)
Definition trunc (x : Q) : Z :=
  if Qlt_bool x 0 then Qceiling x else Qfloor x.

Definition rem60 (x : Q) : Q := x - 60 * inject_Z (trunc (x / 60)).

(** [n.toString()] for an integer [n] (below 1e21 in size, where
    JavaScript turns to the exponent notation). *)
Definition toString (n : Z) : string := pretty n.

(** [s.padStart(2, '0')] *)
Definition padStart2 (s : string) : string :=
  match String.length s with
  | 0%nat => "00"
  | 1%nat => "0" +:+ s
  | _ => s
  end.

Definition formatTime (seconds : Q) : string :=
  if Qlt_bool seconds 60 then toString (Qfloor seconds)
  else
    let m := Qfloor (seconds / 60) in
    let s := Qfloor (rem60 seconds) in
    toString m +:+ ":" +:+ padStart2 (toString s).

Definition calculateScaleInterval (duration : Q) : Q :=
  if Qle_bool duration 10 then 1
  else if Qle_bool duration 30 then 5
  else if Qle_bool duration 60 then 10
  else if Qle_bool duration 300 then 30
  else 60.

Definition formatTimeMMSS (seconds : Q) : string :=
  let m := Qfloor (seconds / 60) in
  let s := Qfloor (rem60 seconds) in
  padStart2 (toString m) +:+ ":" +:+ padStart2 (toString s).


(** A time of [m] minutes, [s] whole seconds and a fraction of a second. *)
Definition clock (m s : Z) (fraction : Q) : Q :=
  inject_Z (60 * m + s) + fraction.

End TimeText.

(** ** The time scale of the renderer *)

Module TimeScale.
Import TimeText.

(** [for (const interval of intervals) if (rawInterval <= interval) return
    interval; return 600] *)
Fixpoint first_interval (rawInterval : Q) (intervals : list Q) : Q :=
  match intervals with
  | [] => 600
  | interval :: rest =>
    if Qle_bool rawInterval interval then interval
    else first_interval rawInterval rest
  end.

Definition intervals : list Q :=
  [0.5; 1; 2; 5; 10; 15; 30; 60; 120; 300; 600].

(** The renderer's own [calculateScaleInterval]. *)
Definition calculateScaleInterval (duration : Q) : Q :=
  let targetTicks := 7 in
  let rawInterval := duration / targetTicks in
  first_interval rawInterval intervals.

Definition formatScaleTime (seconds : Q) : string :=
  let m := Qfloor (seconds / 60) in
  let s := Qfloor (rem60 seconds) in
  if (0 <? m)%Z then toString m +:+ ":" +:+ padStart2 (toString s)
  else toString s +:+ "s".

(** What [drawTimeScale] puts on the canvas: the stroke from
    [(x, y0)] to [(x, y1)] of a tick, and the text of a label. *)
Inductive ScaleCall : Type :=
  | tick_line (x y0 y1 : Q)
  | fillText (label : string) (x y : Q).

(** The [for] loop of [drawTimeScale] from [i] on, with [n] rounds left
    before [i] passes [tickCount]. *)
Fixpoint drawTimeScale_loop (n : nat) (i : Z)
    (duration interval effectiveWidth scaleHeight handleWidth : Q)
    : list ScaleCall :=
  match n with
  | O => []
  | S n =>
    let time := inject_Z i * interval in
    if Qlt_bool duration time then []   (* break *)
    else
      let x := handleWidth + (time / duration) * effectiveWidth in
      tick_line x (scaleHeight - 6) scaleHeight ::
      fillText (formatScaleTime time) x 2 ::
      drawTimeScale_loop n (i + 1) duration interval effectiveWidth
                         scaleHeight handleWidth
  end.

Definition tickCount (duration : Q) : Z :=
  Qfloor (duration / calculateScaleInterval duration).

Definition drawTimeScale (duration width scaleHeight handleWidth : Q)
    : list ScaleCall :=
  let effectiveWidth := width - handleWidth * 2 in
  let interval := calculateScaleInterval duration in
  let tickCount := Qfloor (duration / interval) in
  let endX := handleWidth + effectiveWidth in
  let lastRegularTick := inject_Z tickCount * interval in
  drawTimeScale_loop (Z.to_nat (tickCount + 1)) 0 duration interval
                     effectiveWidth scaleHeight handleWidth ++
  [tick_line endX (scaleHeight - 6) scaleHeight] ++
  (if Qlt_bool (interval * 0.3) (duration - lastRegularTick)
   then [fillText (formatScaleTime duration) endX 2]
   else []).

Definition is_tick (c : ScaleCall) : bool :=
  match c with tick_line _ _ _ => true | fillText _ _ _ => false end.

Definition call_x (c : ScaleCall) : Q :=
  match c with tick_line x _ _ => x | fillText _ x _ => x end.

End TimeScale.

(** ** What the renderer draws for the selection *)

Module SelectionGeometry.

Record Rect : Type := mkRect { rx : Q; ry : Q; rw : Q; rh : Q }.

(** [drawSelectionMask]: the two [fillRect] of the mask left and right of
    the selection, and the [strokeRect] of its border. *)
Record SelectionMask : Type := mkMask {
  leftMask : Rect;
  rightMask : Rect;
  border : Rect
}.

Definition drawSelectionMask (range : TimeRange)
    (duration width offsetY frameHeight handleWidth : Q) : SelectionMask :=
  let effectiveWidth := width - handleWidth * 2 in
  let startX := handleWidth + (start range / duration) * effectiveWidth in
  let endX := handleWidth + (end_ range / duration) * effectiveWidth in
  mkMask
    (mkRect handleWidth offsetY (startX - handleWidth) frameHeight)
    (mkRect endX offsetY (width - handleWidth - endX) frameHeight)
    (mkRect startX offsetY (endX - startX) frameHeight).

(** [drawHandle]: the filled shape, its outline and its stripe. *)
Record Handle : Type := mkHandle {
  body : Rect;
  outline : Rect;
  stripe : Rect
}.

Definition drawHandle (x y width height : Q) : Handle :=
  let stripeWidth := 2 in
  let stripeHeight := 28 in
  let stripeX := x + (width - stripeWidth) / 2 in
  let stripeY := y + (height - stripeHeight) / 2 in
  mkHandle
    (mkRect x y width height)
    (mkRect (x + 0.5) (y + 0.5) (width - 1) (height - 1))
    (mkRect stripeX stripeY stripeWidth stripeHeight).

(** [drawHandles]: the start handle and the end handle. *)
Definition drawHandles (range : TimeRange)
    (duration width offsetY frameHeight handleWidth : Q) : Handle * Handle :=
  let effectiveWidth := width - handleWidth * 2 in
  let startX := handleWidth + (start range / duration) * effectiveWidth in
  let endX := handleWidth + (end_ range / duration) * effectiveWidth in
  let handleOffsetY := offsetY - 1 in
  let handleHeight := frameHeight + 2 in
  (drawHandle (startX - handleWidth) handleOffsetY handleWidth handleHeight,
   drawHandle endX handleOffsetY handleWidth handleHeight).

(** [drawCursor]: the rounded rectangle of the play head. *)
Definition drawCursor (currentTime duration width offsetY cursorHeight
                       handleWidth : Q) : Rect :=
  let effectiveWidth := width - handleWidth * 2 in
  let x := handleWidth + (currentTime / duration) * effectiveWidth in
  let cursorWidth := 6 in
  mkRect (x - cursorWidth / 2) offsetY cursorWidth cursorHeight.

(** The point [(x, y)] lies on the rectangle. *)
Definition on_rect (r : Rect) (x y : Q) : Prop :=
  rx r <= x <= rx r + rw r /\ ry r <= y <= ry r + rh r.

Definition right (r : Rect) : Q := rx r + rw r.

End SelectionGeometry.

(** ** The press of a drag *)

Module DragPress.
Import DragInteraction.

(** The time a press sets: the pointer's for the cursor, the edge itself
    for a handle. *)
Definition snapped_time (o : UseDragInteractionOptions) (d : DragType)
    (clientX : Q) : Q :=
  match d with
  | cursor => pixelToTime o clientX
  | start_handle => start (selectedRange o)
  | end_handle => end_ (selectedRange o)
  end.

End DragPress.

(** ** The tooltip of the component *)

Module Tooltip.
Import DragInteraction VideoTimeline.

Record TooltipInfo : Type := mkTooltip {
  show : bool;
  position : Q;
  tip_time : Q
}.

(** [tooltipInfo] of [components/video-timeline.tsx], for the [width] the
    component is given. *)
Definition tooltipInfo (p : VideoTimelineProps) (w : Widget) (width : Q)
    : TooltipInfo :=
  let duration := duration_of p w in
  let currentTime := currentTime_of p w in
  let selectedRange := selectedRange_of p w in
  let handleWidth := DEFAULT_HANDLE_WIDTH in
  if Qle_bool duration 0 || negb (isDragging (drag w))
     || bool_decide (dragType (drag w) = None)
  then mkTooltip false 0 0
  else
    let effectiveWidth := width - handleWidth * 2 in
    match dragType (drag w) with
    | Some d =>
      let time :=
        match d with
        | cursor => currentTime
        | start_handle => start selectedRange
        | end_handle => end_ selectedRange
        end in
      mkTooltip true (handleWidth + (time / duration) * effectiveWidth) time
    | None => mkTooltip false 0 0
    end.

End Tooltip.

(** * Properties *)

(** ** Numbers *)

Section Numbers.

Lemma Qlt_bool_iff (a b : Q) : Qlt_bool a b = true <-> a < b.
Proof.
  unfold Qlt_bool. rewrite negb_true_iff.
  destruct (Qle_bool b a) eqn:E.
  - apply Qle_bool_iff in E. split; [discriminate | lra].
  - split; [intros _ | reflexivity].
    apply Qnot_le_lt. intros H. apply Qle_bool_iff in H. congruence.
Qed.

Lemma Qlt_bool_false (a b : Q) : Qlt_bool a b = false <-> b <= a.
Proof.
  unfold Qlt_bool. rewrite negb_false_iff. apply Qle_bool_iff.
Qed.

Lemma Qle_bool_false (a b : Q) : Qle_bool a b = false <-> b < a.
Proof.
  rewrite <- Qlt_bool_iff. unfold Qlt_bool.
  destruct (Qle_bool a b); simpl; split; congruence.
Qed.

Lemma Qeq_bool_false (a b : Q) : Qeq_bool a b = false <-> ~ a == b.
Proof.
  destruct (Qeq_bool a b) eqn:E.
  - apply Qeq_bool_iff in E. split; [discriminate | tauto].
  - split; [intros _ H | reflexivity].
    apply Qeq_bool_iff in H. congruence.
Qed.

(** [Math.max] and [Math.min] return one of their arguments. *)
Lemma Qmax_cases (a b : Q) :
  (a <= b /\ Qmax a b = b) \/ (b <= a /\ Qmax a b = a).
Proof.
  unfold Qmax, GenericMinMax.gmax.
  destruct (Qcompare_spec a b) as [H | H | H]; [right | left | right];
    split; try reflexivity; lra.
Qed.

Lemma Qmin_cases (a b : Q) :
  (a <= b /\ Qmin a b = a) \/ (b <= a /\ Qmin a b = b).
Proof.
  unfold Qmin, GenericMinMax.gmin.
  destruct (Qcompare_spec a b) as [H | H | H]; [left | left | right];
    split; try reflexivity; lra.
Qed.

End Numbers.

(** Case analysis on every [Qmax] and [Qmin] of the goal and hypotheses. *)
Ltac minmax_case a b lem :=
  let H := fresh "Hm" in
  let E := fresh "Em" in
  destruct (lem a b) as [[H E] | [H E]]; try rewrite E in *; clear E.

Ltac minmax_cases :=
  repeat match goal with
  | |- context [Qmax ?a ?b] => minmax_case a b Qmax_cases
  | |- context [Qmin ?a ?b] => minmax_case a b Qmin_cases
  | _ : context [Qmax ?a ?b] |- _ => minmax_case a b Qmax_cases
  | _ : context [Qmin ?a ?b] |- _ => minmax_case a b Qmin_cases
  end.

(** Turn the boolean tests of the goal into order facts. *)
Ltac bool_cases :=
  repeat match goal with
  | |- context [Qlt_bool ?a ?b] =>
      let E := fresh "E" in
      destruct (Qlt_bool a b) eqn:E;
      [apply Qlt_bool_iff in E | apply Qlt_bool_false in E]
  | |- context [Qle_bool ?a ?b] =>
      let E := fresh "E" in
      destruct (Qle_bool a b) eqn:E;
      [apply Qle_bool_iff in E | apply Qle_bool_false in E]
  | |- context [Qeq_bool ?a ?b] =>
      let E := fresh "E" in
      destruct (Qeq_bool a b) eqn:E;
      [apply Qeq_bool_iff in E | apply Qeq_bool_false in E]
  end.

(** ** The drag controller *)

Section DragController.
Import TimeFormat DragInteraction.

(** In the demo geometry the pixel column 307 is the time 7.5. *)
Lemma demo_pixel_307 (range : TimeRange) (m : Q) :
  pixelToTime (demo_options range m) 307 == 7.5.
Proof. vm_compute. reflexivity. Qed.

(** Every callback a move on a handle can call. *)
Lemma handleMove_start_handle (o : UseDragInteractionOptions) (st : DragState)
    (clientX : Q) :
  dragTypeRef st = Some start_handle ->
  let t := pixelToTime o clientX in
  let newStart := Qmax 0 (Qmin t (end_ (selectedRange o) - minDuration o)) in
  handleMove o st clientX =
    if Qeq_bool newStart (start (selectedRange o)) then []
    else call (onRangeChange o)
              (RangeChange (mkRange newStart (end_ (selectedRange o))))
         ++ call (onTimeChange o) (TimeChange newStart).
Proof.
  intros Hd t newStart. unfold handleMove. rewrite Hd.
  fold t. fold newStart. destruct (Qeq_bool newStart _); reflexivity.
Qed.

Lemma handleMove_end_handle (o : UseDragInteractionOptions) (st : DragState)
    (clientX : Q) :
  dragTypeRef st = Some end_handle ->
  let t := pixelToTime o clientX in
  let newEnd :=
    Qmin (duration o) (Qmax t (start (selectedRange o) + minDuration o)) in
  handleMove o st clientX =
    if Qeq_bool newEnd (end_ (selectedRange o)) then []
    else call (onRangeChange o)
              (RangeChange (mkRange (start (selectedRange o)) newEnd))
         ++ call (onTimeChange o) (TimeChange newEnd).
Proof.
  intros Hd t newEnd. unfold handleMove. rewrite Hd.
  fold t. fold newEnd. destruct (Qeq_bool newEnd _); reflexivity.
Qed.






(** C4.  While the start handle is dragged, with [t] the time of the
    pointer, the new start is [max(0, min(t, end - minDuration))]; nothing is
    emitted when it equals the current start, otherwise the range update
    [{start: newStart, end}] is followed by the time update [newStart].
    Symmetrically for the end handle with
    [min(duration, max(t, start + minDuration))].  In the scenario
    [selectedRange = {start: 2, end: 8}], pointer time 7.5 and
    [minDuration = 1], the range [{start: 7, end: 8}] and the time [7] are
    emitted. *)
Theorem handleMove_handle_clamping :
  (forall (o : UseDragInteractionOptions) (st : DragState) (clientX : Q),
     onRangeChange o = true -> onTimeChange o = true ->
     let t := pixelToTime o clientX in
     let newStart := Qmax 0 (Qmin t (end_ (selectedRange o) - minDuration o)) in
     let newEnd :=
       Qmin (duration o) (Qmax t (start (selectedRange o) + minDuration o)) in
     (dragTypeRef st = Some start_handle ->
      handleMove o st clientX =
        if Qeq_bool newStart (start (selectedRange o)) then []
        else [RangeChange (mkRange newStart (end_ (selectedRange o)));
              TimeChange newStart]) /\
     (dragTypeRef st = Some end_handle ->
      handleMove o st clientX =
        if Qeq_bool newEnd (end_ (selectedRange o)) then []
        else [RangeChange (mkRange (start (selectedRange o)) newEnd);
              TimeChange newEnd])) /\
  (let o := demo_options (mkRange 2 8) 1 in
   pixelToTime o 307 == 7.5 /\
   handleMove o (dragging start_handle) 307 =
     [RangeChange (mkRange 7 8); TimeChange 7]).
Proof.
  split.
  - intros o st clientX Hr Ht t newStart newEnd. split; intros Hd.
    + rewrite (handleMove_start_handle o st clientX Hd), Hr, Ht. reflexivity.
    + rewrite (handleMove_end_handle o st clientX Hd), Hr, Ht. reflexivity.
  - split; [apply demo_pixel_307 | vm_compute; reflexivity].
Qed.

Lemma handleMove_handle_clamping_witness :
  handleMove (demo_options (mkRange 2 8) 1) (dragging end_handle) 55 =
    [RangeChange (mkRange 2 3); TimeChange 3].
Proof.
  destruct handleMove_handle_clamping as [H _].
  destruct (H (demo_options (mkRange 2 8) 1) (dragging end_handle) 55
              eq_refl eq_refl) as [_ He].
  rewrite (He eq_refl). vm_compute. reflexivity.
Defined.

(** C10.  While a handle is dragged (and the caller listens to both range
    and time updates), a move emits a time update if and only if it emits a
    range update; when the clamped candidate equals the current edge value it
    emits nothing at all. *)
Theorem handleMove_time_iff_range (o : UseDragInteractionOptions)
    (st : DragState) (clientX : Q) :
  onRangeChange o = true -> onTimeChange o = true ->
  dragTypeRef st = Some start_handle \/ dragTypeRef st = Some end_handle ->
  let t := pixelToTime o clientX in
  let candidate :=
    match dragTypeRef st with
    | Some end_handle =>
        Qmin (duration o) (Qmax t (start (selectedRange o) + minDuration o))
    | _ => Qmax 0 (Qmin t (end_ (selectedRange o) - minDuration o))
    end in
  let edge :=
    match dragTypeRef st with
    | Some end_handle => end_ (selectedRange o)
    | _ => start (selectedRange o)
    end in
  ((exists t', In (TimeChange t') (handleMove o st clientX)) <->
   (exists r, In (RangeChange r) (handleMove o st clientX))) /\
  (candidate == edge -> handleMove o st clientX = []) /\
  (~ candidate == edge ->
   exists r, handleMove o st clientX = [RangeChange r; TimeChange candidate]).
Proof.
  intros Hr Ht [Hd | Hd] t candidate edge; subst candidate edge; rewrite Hd.
  - rewrite (handleMove_start_handle o st clientX Hd), Hr, Ht. fold t.
    simpl call. bool_cases.
    + split; [ | split]; [ | reflexivity | tauto].
      split; intros [? []].
    + split; [ | split]; [ | tauto | eauto].
      split; intros _; eexists; simpl; eauto.
  - rewrite (handleMove_end_handle o st clientX Hd), Hr, Ht. fold t.
    simpl call. bool_cases.
    + split; [ | split]; [ | reflexivity | tauto].
      split; intros [? []].
    + split; [ | split]; [ | tauto | eauto].
      split; intros _; eexists; simpl; eauto.
Qed.

Lemma handleMove_time_iff_range_witness :
  let o := demo_options (mkRange 2 8) 1 in
  handleMove o (dragging start_handle) 93.6 = [].
Proof.
  intros o.
  apply (handleMove_time_iff_range o (dragging start_handle) 93.6
           eq_refl eq_refl (or_introl eq_refl)).
  vm_compute. reflexivity.
Defined.

(** Rounding to two decimals moves a value by at most half a hundredth. *)
Lemma roundToDecimals_2_close (v : Q) :
  v - (1 # 200) < roundToDecimals v 2 /\ roundToDecimals v 2 <= v + (1 # 200).
Proof.
  unfold roundToDecimals, Math_round.
  change (pow10 2) with (inject_Z 100).
  pose proof (Qfloor_le (v * inject_Z 100 + (1 # 2))) as Hlo.
  pose proof (Qlt_floor (v * inject_Z 100 + (1 # 2))) as Hhi.
  rewrite inject_Z_plus in Hhi.
  set (F := inject_Z (Qfloor (v * inject_Z 100 + (1 # 2)))) in *.
  change (inject_Z 100) with 100 in *. change (inject_Z 1) with 1 in *.
  assert (E : F / 100 == F * (1 # 100)) by (unfold Qdiv; reflexivity).
  rewrite E. split; lra.
Qed.

(** C6.  For a clip of positive duration on a track wider than its two
    handles, and every [t] in [[0, duration]], the time read back by
    [pixelToTime] at the pixel column of [t] is within 0.01 seconds of [t]. *)
Theorem pixelToTime_timeToPixel (o : UseDragInteractionOptions)
    (canvas : HTMLCanvasElement) (t : Q) :
  canvasRef o = Some canvas ->
  0 < duration o ->
  handleWidth o * 2 < offsetWidth canvas ->
  0 <= t -> t <= duration o ->
  Qabs (pixelToTime o (rect_left canvas + timeToPixel o (offsetWidth canvas) t)
        - t) <= 0.01.
Proof.
  intros Hc Hd Hw H0 Ht. unfold pixelToTime, timeToPixel. rewrite Hc.
  destruct (Qle_bool (duration o) 0) eqn:E;
    [apply Qle_bool_iff in E; lra | clear E].
  set (ew := offsetWidth canvas - handleWidth o * 2).
  assert (Hew : 0 < ew) by (unfold ew; lra).
  set (time := (rect_left canvas + (handleWidth o + t / duration o * ew)
                - rect_left canvas - handleWidth o) / ew * duration o).
  assert (Etime : time == t).
  { unfold time. field. split; intros Hz; rewrite Hz in *; lra. }
  clearbody time.
  set (w := Qmax 0 (Qmin (duration o) time)).
  assert (Ew : w == t).
  { unfold w. minmax_cases; lra. }
  clearbody w.
  pose proof (roundToDecimals_2_close w) as [Hlo Hhi].
  apply Qabs_Qle_condition. split; lra.
Qed.

Lemma pixelToTime_timeToPixel_witness :
  let o := demo_options (mkRange 2 8) 1 in
  Qabs (pixelToTime o (rect_left demo_canvas + timeToPixel o 420 (1 # 3))
        - (1 # 3)) <= 0.01.
Proof.
  intros o.
  apply (pixelToTime_timeToPixel o demo_canvas (1 # 3) eq_refl);
    simpl; lra.
Defined.

(** C7.  Hit-testing, with [x], [y] the pointer relative to the canvas and
    [startX], [endX] the pixel columns of the selection's edges:
    (1) [0 <= y < scaleHeight] gives [cursor] whatever [x] is;
    inside the frame strip [scaleHeight <= y <= scaleHeight + frameHeight],
    (2) [startX - handleWidth <= x <= startX] gives [start],
    (3) otherwise [endX <= x <= endX + handleWidth] gives [end],
    (4) otherwise the result is [cursor];
    (5) outside both strips there is no hit, and pointer-down changes
    nothing and calls nothing. *)
Theorem detectHitArea_precedence (o : UseDragInteractionOptions)
    (canvas : HTMLCanvasElement) (clientX clientY : Q) :
  canvasRef o = Some canvas ->
  let x := clientX - rect_left canvas in
  let y := clientY - rect_top canvas in
  let startX := timeToPixel o (offsetWidth canvas) (start (selectedRange o)) in
  let endX := timeToPixel o (offsetWidth canvas) (end_ (selectedRange o)) in
  let in_scale := 0 <= y /\ y < scaleHeight o in
  let in_frames := scaleHeight o <= y /\ y <= scaleHeight o + frameHeight o in
  let on_start := startX - handleWidth o <= x /\ x <= startX in
  let on_end := endX <= x /\ x <= endX + handleWidth o in
  (in_scale -> detectHitArea o clientX clientY = Some (hit cursor)) /\
  (in_frames -> on_start ->
   detectHitArea o clientX clientY = Some (hit start_handle)) /\
  (in_frames -> ~ on_start -> on_end ->
   detectHitArea o clientX clientY = Some (hit end_handle)) /\
  (in_frames -> ~ on_start -> ~ on_end ->
   detectHitArea o clientX clientY = Some (hit cursor)) /\
  (~ in_scale -> ~ in_frames ->
   detectHitArea o clientX clientY = None /\
   forall st, handleStart o st clientX clientY = (st, [])).
Proof.
  intros Hc x y startX endX in_scale in_frames on_start on_end.
  assert (Hno : detectHitArea o clientX clientY = None ->
                forall st, handleStart o st clientX clientY = (st, [])).
  { intros E st. unfold handleStart. rewrite E. destruct (disabled o); reflexivity. }
  unfold detectHitArea in *. rewrite Hc in *.
  fold x y in Hno |- *.
  change (handleWidth o + start (selectedRange o) / duration o *
            (offsetWidth canvas - handleWidth o * 2)) with startX in Hno |- *.
  change (handleWidth o + end_ (selectedRange o) / duration o *
            (offsetWidth canvas - handleWidth o * 2)) with endX in Hno |- *.
  subst in_scale in_frames on_start on_end.
  repeat split; intros; bool_cases; simpl; try reflexivity;
    try (exfalso; lra); try (exfalso; tauto);
    try (apply Hno; bool_cases; simpl; try reflexivity; exfalso; tauto).
Qed.

Lemma detectHitArea_precedence_witness :
  let o := demo_options (mkRange 2 8) 1 in
  detectHitArea o 90 40 = Some (hit start_handle) /\
  detectHitArea o 330 40 = Some (hit end_handle) /\
  detectHitArea o 90 10 = Some (hit cursor) /\
  detectHitArea o 200 40 = Some (hit cursor) /\
  detectHitArea o 200 90 = None.
Proof.
  intros o.
  pose proof (detectHitArea_precedence o demo_canvas 90 40 eq_refl) as (_ & Hs & _).
  pose proof (detectHitArea_precedence o demo_canvas 330 40 eq_refl) as (_ & _ & He & _).
  pose proof (detectHitArea_precedence o demo_canvas 90 10 eq_refl) as (Hc & _).
  pose proof (detectHitArea_precedence o demo_canvas 200 40 eq_refl) as (_ & _ & _ & Hf & _).
  pose proof (detectHitArea_precedence o demo_canvas 200 90 eq_refl) as (_ & _ & _ & _ & Hn).
  refine (conj _ (conj _ (conj _ (conj _ _)))).
  - apply Hs; vm_compute; split; discriminate.
  - apply He; vm_compute; try (split; discriminate); intros [H1 H2]; auto.
  - apply Hc; vm_compute; split; [discriminate | reflexivity].
  - apply Hf; vm_compute; try (split; discriminate); intros [H1 H2]; auto.
  - apply Hn; vm_compute; intros [H1 H2]; auto.
Defined.

End DragController.

(** ** The sampling timestamps *)

Section SamplingTimestamps.
Import TimePoints.

Lemma inject_Z_succ (k : nat) :
  inject_Z (Z.of_nat (S k)) == inject_Z (Z.of_nat k) + 1.
Proof. rewrite Nat2Z.inj_succ, <- Z.add_1_r, inject_Z_plus. reflexivity. Qed.

Lemma loop_variable_closed (n : nat) (t interval : Q) :
  loop_variable n t interval == t + inject_Z (Z.of_nat n) * interval.
Proof.
  revert t. induction n as [ | n IH]; intros t.
  - cbn [loop_variable Z.of_nat]. change (inject_Z 0) with 0. ring.
  - cbn [loop_variable]. rewrite IH, inject_Z_succ. ring.
Qed.

Lemma pushed_snoc (n : nat) (t interval : Q) :
  pushed (S n) t interval = pushed n t interval ++ [loop_variable n t interval].
Proof.
  revert t. induction n as [ | n IH]; intros t; [reflexivity | ].
  change (pushed (S (S n)) t interval)
    with (t :: pushed (S n) (t + interval) interval).
  rewrite IH. reflexivity.
Qed.


(** The loop leaves after exactly [n] rounds when its variable is below
    [duration] in each of them and not after them. *)
Lemma loop_runs (duration interval : Q) (n : nat) :
  forall (fuel : nat) (t : Q) (points : list Q),
  (n < fuel)%nat ->
  (forall k, (k < n)%nat -> loop_variable k t interval < duration) ->
  duration <= loop_variable n t interval ->
  generateTimePoints_loop fuel duration interval t points =
    Some (points ++ pushed n t interval).
Proof.
  induction n as [ | n IH]; intros fuel t points Hfuel Hbelow Hleft;
    (destruct fuel as [ | fuel]; [lia | ]); simpl.
  - simpl in Hleft. apply Qlt_bool_false in Hleft. rewrite Hleft.
    rewrite app_nil_r. reflexivity.
  - pose proof (Hbelow 0%nat ltac:(lia)) as H0. simpl in H0.
    apply Qlt_bool_iff in H0. rewrite H0.
    rewrite IH; [ | lia | | exact Hleft].
    + rewrite <- app_assoc. reflexivity.
    + intros k Hk. apply (Hbelow (S k)). lia.
Qed.

(** Without progress the loop is never left. *)
Lemma loop_diverges (duration interval : Q) :
  interval <= 0 ->
  forall (fuel : nat) (t : Q) (points : list Q),
  t < duration ->
  generateTimePoints_loop fuel duration interval t points = None.
Proof.
  intros Hi. induction fuel as [ | fuel IH]; intros t points Ht; simpl.
  - reflexivity.
  - apply Qlt_bool_iff in Ht as Hb. rewrite Hb. apply IH. lra.
Qed.

(** For a positive clip and a positive interval [rounds] is the first
    multiple of [interval] that reaches [duration]. *)
Lemma rounds_spec (duration interval : Q) :
  0 < duration -> 0 < interval ->
  let n := rounds duration interval in
  (0 < n)%nat /\
  (inject_Z (Z.of_nat n) - 1) * interval < duration /\
  duration <= inject_Z (Z.of_nat n) * interval.
Proof.
  intros Hd Hi n. subst n. unfold rounds.
  set (q := duration / interval).
  assert (Eq : q * interval == duration) by (unfold q; field; lra).
  assert (Hq : 0 < q).
  { unfold q, Qdiv. apply Qmult_lt_0_compat; [ | apply Qinv_lt_0_compat ]; lra. }
  pose proof (Qle_ceiling q) as Hle. pose proof (Qceiling_lt q) as Hlt.
  assert (Hpos : (0 < Qceiling q)%Z).
  { rewrite Zlt_Qlt. change (inject_Z 0) with 0. lra. }
  rewrite Z2Nat.id by lia.
  unfold Z.sub in Hlt. rewrite inject_Z_plus, inject_Z_opp in Hlt.
  change (inject_Z 1) with 1 in Hlt.
  set (c := inject_Z (Qceiling q)) in *. clearbody c q.
  split; [lia | split].
  - rewrite <- Eq. apply Qmult_lt_compat_r; lra.
  - rewrite <- Eq. apply Qmult_le_compat_r; lra.
Qed.

Lemma inject_Z_of_nat_le (k n : nat) :
  (k < n)%nat -> inject_Z (Z.of_nat k) <= inject_Z (Z.of_nat n) - 1.
Proof.
  intros H. destruct n as [ | n]; [lia | ].
  rewrite inject_Z_succ.
  assert (inject_Z (Z.of_nat k) <= inject_Z (Z.of_nat n))
    by (rewrite <- Zle_Qle; lia).
  lra.
Qed.

(** The result for a positive clip and a positive interval, for every
    fuel above the number of rounds. *)
Lemma generateTimePoints_runs (duration interval : Q) :
  0 < duration -> 0 < interval ->
  let n := rounds duration interval in
  let lastPoint := loop_variable (pred n) 0 interval in
  forall fuel, (n < fuel)%nat ->
  generateTimePoints fuel duration interval =
    Some (pushed n 0 interval ++
          if Qlt_bool lastPoint (duration - 0.1) then [duration - 0.01]
          else []).
Proof.
  intros Hd Hi n lastPoint fuel Hfuel.
  destruct (rounds_spec duration interval Hd Hi) as (Hn & Hlo & Hhi).
  fold n in Hn, Hlo, Hhi.
  unfold generateTimePoints.
  rewrite (loop_runs duration interval n fuel 0 [] Hfuel).
  - destruct n as [ | m]; [lia | ].
    rewrite app_nil_l, pushed_snoc, last_snoc. subst lastPoint. simpl pred.
    destruct (Qlt_bool _ _); [reflexivity | ].
    rewrite app_nil_r. reflexivity.
  - intros k Hk. rewrite loop_variable_closed.
    apply inject_Z_of_nat_le in Hk.
    assert (inject_Z (Z.of_nat k) * interval
            <= (inject_Z (Z.of_nat n) - 1) * interval)
      by (apply Qmult_le_compat_r; lra).
    lra.
  - rewrite loop_variable_closed. lra.
Qed.




(** More fuel does not change a result. *)
Lemma loop_fuel_mono (duration interval : Q) (fuel : nat) :
  forall (t : Q) (points result : list Q) (more : nat),
  generateTimePoints_loop fuel duration interval t points = Some result ->
  (fuel <= more)%nat ->
  generateTimePoints_loop more duration interval t points = Some result.
Proof.
  induction fuel as [ | fuel IH]; intros t points result more Hrun Hmore;
    simpl in Hrun; [discriminate | ].
  destruct more as [ | more]; [lia | ]. simpl.
  destruct (Qlt_bool t duration); [ | exact Hrun].
  apply IH; [exact Hrun | lia].
Qed.

Lemma generateTimePoints_fuel_mono (duration interval : Q) (fuel more : nat)
    (result : list Q) :
  generateTimePoints fuel duration interval = Some result ->
  (fuel <= more)%nat ->
  generateTimePoints more duration interval = Some result.
Proof.
  unfold generateTimePoints. intros Hrun Hmore.
  destruct (generateTimePoints_loop fuel duration interval 0 []) as [points | ]
    eqn:Hloop; [ | discriminate].
  rewrite (loop_fuel_mono duration interval fuel 0 [] points more Hloop Hmore).
  exact Hrun.
Qed.

(** The fuel [S (rounds duration interval)] is enough whenever any is:
    what [generateTimePoints] returns with some fuel, it returns with
    that. *)
Lemma rounds_fuel_enough (duration interval : Q) (fuel : nat)
    (result : list Q) :
  generateTimePoints fuel duration interval = Some result ->
  generateTimePoints (S (rounds duration interval)) duration interval =
    Some result.
Proof.
  intros Hrun. destruct (Qlt_le_dec 0 duration) as [Hd | Hd].
  - destruct (Qlt_le_dec 0 interval) as [Hi | Hi].
    + pose proof (generateTimePoints_runs duration interval Hd Hi) as Hcanon.
      cbv zeta in Hcanon.
      pose proof (Hcanon (S (rounds duration interval)) ltac:(lia)) as H1.
      pose proof (Hcanon (fuel + S (rounds duration interval))%nat ltac:(lia))
        as H2.
      rewrite (generateTimePoints_fuel_mono duration interval fuel
                 (fuel + S (rounds duration interval)) result
                 Hrun ltac:(lia)) in H2.
      rewrite H1, <- H2. reflexivity.
    + unfold generateTimePoints in Hrun.
      rewrite (loop_diverges duration interval Hi fuel 0 [] Hd) in Hrun.
      discriminate.
  - destruct fuel as [ | fuel]; [discriminate | ].
    unfold generateTimePoints in *. simpl in *.
    apply Qlt_bool_false in Hd. rewrite Hd in *. exact Hrun.
Qed.





End SamplingTimestamps.

(** ** Termination of the sampling *)

Section SamplingTermination.
Import TimePoints FrameExtractor UseFrameExtractor.



End SamplingTermination.

(** ** The renderer's frame tiles *)

Section FrameTiles.
Import TimelineRenderer.

Variable decodes : string -> bool.

Lemma store_keeps (missing : list VideoFrame) :
  forall (cache : gmap string HTMLImageElement) (key : string),
  is_Some (cache !! key) -> is_Some (foldl (store decodes) cache missing !! key).
Proof.
  induction missing as [ | frame missing IH]; intros cache key Hkey; simpl.
  - exact Hkey.
  - apply IH. unfold store, loadImage.
    destruct (decodes (imageData frame)); [ | exact Hkey].
    destruct (decide (imageData frame = key)) as [-> | Hne].
    + rewrite lookup_insert_eq. eauto.
    + rewrite lookup_insert_ne by exact Hne. exact Hkey.
Qed.

Lemma store_loads (missing : list VideoFrame) :
  forall (cache : gmap string HTMLImageElement),
  forallb (fun frame => decodes (imageData frame)) missing = true ->
  forall frame, In frame missing ->
  is_Some (foldl (store decodes) cache missing !! imageData frame).
Proof.
  induction missing as [ | first missing IH]; intros cache Hall frame Hin;
    simpl in *; [destruct Hin | ].
  apply andb_true_iff in Hall as [Hfirst Hall].
  destruct Hin as [-> | Hin]; [ | apply IH; assumption].
  apply store_keeps. unfold store, loadImage. rewrite Hfirst.
  rewrite lookup_insert_eq. eauto.
Qed.

(** After a fulfilled preload every frame has its image in the cache. *)
Lemma preloadFrameImages_fulfilled
    (frameImages : gmap string HTMLImageElement) (frames : list VideoFrame) :
  (preloadFrameImages decodes frameImages frames).2 = fulfilled ->
  forall frame, In frame frames ->
  is_Some ((preloadFrameImages decodes frameImages frames).1 !! imageData frame).
Proof.
  unfold preloadFrameImages. simpl. intros Hall frame Hin.
  destruct (forallb _ _) eqn:E; [clear Hall | discriminate].
  destruct (frameImages !! imageData frame) eqn:Hcached.
  - apply store_keeps. rewrite Hcached. eauto.
  - apply store_loads; [exact E | ].
    apply list_elem_of_In, list_elem_of_filter.
    split; [exact Hcached | apply list_elem_of_In, Hin].
Qed.

(** [Promise.all] is fulfilled exactly when every image that is not yet in
    the cache decodes. *)
Lemma preloadFrameImages_settled
    (frameImages : gmap string HTMLImageElement) (frames : list VideoFrame) :
  (preloadFrameImages decodes frameImages frames).2 = fulfilled <->
  (forall frame, In frame frames ->
     is_Some (frameImages !! imageData frame) \/
     decodes (imageData frame) = true).
Proof.
  unfold preloadFrameImages. simpl.
  destruct (forallb _ _) eqn:E.
  - split; [intros _ | reflexivity]. intros frame Hin.
    destruct (frameImages !! imageData frame) eqn:Hcached; [left; eauto | right].
    rewrite forallb_forall in E. apply E.
    apply list_elem_of_In, list_elem_of_filter.
    split; [exact Hcached | apply list_elem_of_In, Hin].
  - split; [discriminate | intros Hall; exfalso].
    assert (forallb (fun frame => decodes (imageData frame))
              (filter (fun frame => frameImages !! imageData frame = None) frames)
            = true); [ | congruence].
    apply forallb_forall. intros frame Hin.
    apply list_elem_of_In, list_elem_of_filter in Hin as [Hnone Hin].
    apply list_elem_of_In in Hin.
    destruct (Hall frame Hin) as [[img Hsome] | Hd]; [congruence | exact Hd].
Qed.

(** With every image in the cache the loop draws one tile per frame. *)
Lemma drawFrames_loop_tiles (cache : gmap string HTMLImageElement)
    (frameWidth offsetY frameHeight handleWidth : Q)
    (frames : list VideoFrame) :
  forall first : nat,
  (forall frame, In frame frames -> is_Some (cache !! imageData frame)) ->
  length (drawFrames_loop cache frames first
            frameWidth offsetY frameHeight handleWidth) = length frames /\
  forall (i : nat) (frame : VideoFrame),
    frames !! i = Some frame ->
    exists img,
      cache !! imageData frame = Some img /\
      drawFrames_loop cache frames first
        frameWidth offsetY frameHeight handleWidth !! i =
      Some (drawImage img
              (handleWidth + inject_Z (Z.of_nat (first + i)) * frameWidth)
              offsetY frameWidth frameHeight).
Proof.
  induction frames as [ | frame rest IH]; intros first Hall; simpl.
  - split; [reflexivity | intros i f Hi; discriminate].
  - destruct (Hall frame (or_introl eq_refl)) as [img Himg]. rewrite Himg.
    destruct (IH (S first) (fun f Hf => Hall f (or_intror Hf))) as [Hlen Hnth].
    split; [simpl; rewrite Hlen; reflexivity | ].
    intros [ | i] f Hi; simpl in Hi |- *.
    + injection Hi as <-. exists img. rewrite Nat.add_0_r. auto.
    + destruct (Hnth i f Hi) as (img' & Hc & Ht). exists img'.
      rewrite <- Nat.add_succ_comm. auto.
Qed.

(** With frames to draw, [render] makes its first calls, awaits
    [drawFrames], and goes on only when that is fulfilled. *)
Lemma render_with_frames
    (frameImages : gmap string HTMLImageElement) (o : RenderOptions) :
  frames o <> [] ->
  let offsetY := if showTimeScale o then scaleHeight o else 0 in
  let drawn :=
    drawFrames decodes frameImages (frames o) (duration o) (width o)
               offsetY (frameHeight o) (handleWidth o) in
  (drawn.2 = rejected ->
   render decodes frameImages o =
     (drawn.1.1, drawn_before_frames o ++ drawn.1.2, rejected)) /\
  (drawn.2 = fulfilled -> (render decodes frameImages o).2 = fulfilled).
Proof.
  intros Hne offsetY. cbv zeta. unfold render. fold offsetY.
  destruct (frames o) as [ | f0 rest] eqn:Hframes; [congruence | ].
  rewrite <- Hframes.
  destruct (drawFrames decodes frameImages (frames o) (duration o) (width o)
              offsetY (frameHeight o) (handleWidth o))
    as [[cache tiles] settled]. simpl.
  split; intros ->; reflexivity.
Qed.

(** C3 (as amended).  For a non-empty frame list, [drawFrames] is all or
    nothing.  When every thumbnail that is not in the cache decodes, it is
    fulfilled and draws one tile per frame, in order, tile [i] at
    [handleWidth + i * frameWidth] with the cached image of frame [i], and
    [render] is fulfilled.  When one thumbnail that is not in the cache
    fails to decode, [drawFrames] is rejected without drawing any tile, and
    [render] is rejected after the calls it made before the frames:
    neither tiles nor mask, handles or cursor are drawn. *)
Theorem drawFrames_all_or_nothing
    (frameImages : gmap string HTMLImageElement) (o : RenderOptions) :
  frames o <> [] ->
  let offsetY := if showTimeScale o then scaleHeight o else 0 in
  let frameWidth :=
    (width o - handleWidth o * 2) / inject_Z (Z.of_nat (length (frames o))) in
  let drawn :=
    drawFrames decodes frameImages (frames o) (duration o) (width o)
               offsetY (frameHeight o) (handleWidth o) in
  let rendered := render decodes frameImages o in
  ((forall frame, In frame (frames o) ->
      is_Some (frameImages !! imageData frame) \/
      decodes (imageData frame) = true) ->
   drawn.2 = fulfilled /\ rendered.2 = fulfilled /\
   length drawn.1.2 = length (frames o) /\
   forall (i : nat) (frame : VideoFrame),
     frames o !! i = Some frame ->
     exists img,
       drawn.1.1 !! imageData frame = Some img /\
       drawn.1.2 !! i =
         Some (drawImage img
                 (handleWidth o + inject_Z (Z.of_nat i) * frameWidth)
                 offsetY frameWidth (frameHeight o))) /\
  ((exists frame, In frame (frames o) /\
      frameImages !! imageData frame = None /\
      decodes (imageData frame) = false) ->
   drawn.2 = rejected /\ drawn.1.2 = [] /\
   rendered.2 = rejected /\ rendered.1.2 = drawn_before_frames o).
Proof.
  intros Hne offsetY frameWidth drawn rendered.
  pose proof (preloadFrameImages_settled frameImages (frames o)) as Hsettled.
  pose proof (preloadFrameImages_fulfilled frameImages (frames o)) as Hcache.
  destruct (render_with_frames frameImages o Hne) as [Hrej Hful].
  fold offsetY in Hrej, Hful. fold drawn in Hrej, Hful. fold rendered in Hrej, Hful.
  clearbody rendered.
  subst drawn. unfold drawFrames in *. fold frameWidth in Hrej, Hful |- *.
  destruct (preloadFrameImages decodes frameImages (frames o))
    as [cache settled]; simpl in Hsettled, Hcache.
  split.
  - intros Hall. apply Hsettled in Hall. subst settled. simpl.
    destruct (drawFrames_loop_tiles cache frameWidth offsetY (frameHeight o)
                (handleWidth o) (frames o) 0 (Hcache eq_refl)) as [Hlen Hnth].
    split; [reflexivity | ]. split; [apply Hful; reflexivity | ].
    split; [exact Hlen | exact Hnth].
  - intros (frame & Hin & Hnone & Hbad).
    destruct settled; simpl in *.
    + exfalso. destruct Hsettled as [Hs _].
      destruct (Hs eq_refl frame Hin) as [[img Himg] | Hd]; congruence.
    + split; [reflexivity | ]. split; [reflexivity | ].
      rewrite (Hrej eq_refl). simpl. rewrite app_nil_r.
      split; reflexivity.
Qed.

End FrameTiles.

Section FrameTilesScenario.
Import TimelineRenderer.

Lemma drawFrames_all_or_nothing_witness :
  (render decodes_first ∅ two_frames).2 = rejected /\
  (render decodes_first ∅ two_frames).1.2 = drawn_before_frames two_frames /\
  (render (fun _ => true) ∅ two_frames).2 = fulfilled.
Proof.
  pose proof (drawFrames_all_or_nothing decodes_first ∅ two_frames
                ltac:(discriminate)) as [_ Hbad].
  pose proof (drawFrames_all_or_nothing (fun _ => true) ∅ two_frames
                ltac:(discriminate)) as [Hgood _].
  cbv zeta in Hbad, Hgood.
  destruct Hbad as (_ & _ & Hr & Hc).
  { exists (mkFrame 5 "data:second").
    split; [right; left; reflexivity | split; reflexivity]. }
  destruct Hgood as (_ & Hf & _); [intros frame _; right; reflexivity | ].
  split; [exact Hr | split; [exact Hc | exact Hf]].
Defined.

(** C3 as stated does not hold: the first thumbnail decodes, the second
    does not, and the draw call ends after clearing the surface and drawing
    the time scale: no tile is drawn for the first frame either, and
    neither mask, handles nor cursor follow. *)
Lemma render_failed_tile_counterexample :
  decodes_first "data:first" = true /\
  decodes_first "data:second" = false /\
  (render decodes_first ∅ two_frames).1.2 =
    [clearRect 0 0 420 97; drawTimeScale 10 420 27 16] /\
  (render decodes_first ∅ two_frames).2 = rejected.
Proof.
  split; [reflexivity | split; [reflexivity | ] ].
  split; vm_compute; reflexivity.
Qed.

End FrameTilesScenario.

(** ** The frame extractor *)

Section Extractor.
Import FrameExtractor.


Lemma run_app (ex : VideoFrameExtractor) (first rest : list Action) :
  run ex (first ++ rest) =
    let (ex', seen) := run ex first in
    let (ex'', later) := run ex' rest in
    (ex'', seen ++ later).
Proof.
  revert ex. induction first as [ | a first IH]; intros ex; simpl.
  - destruct (run ex rest). reflexivity.
  - destruct (act ex a) as [ex1 o1]. rewrite IH.
    destruct (run ex1 first) as [ex2 o2].
    destruct (run ex2 rest) as [ex3 o3].
    rewrite app_assoc. reflexivity.
Qed.











Lemma extractFrames_loop_same_urls (ex : VideoFrameExtractor)
    (timePoints : list Q) (i : nat) (frames : list VideoFrame) :
  same_urls ex (extractFrames_loop ex timePoints i frames).1.
Proof.
  unfold same_urls, extractFrames_loop.
  destruct (timePoints !! i); [destruct (isDisposed ex) eqn:E | ]; simpl; auto.
Qed.

Lemma fire_same_urls (ex : VideoFrameExtractor) (ev : VideoEvent) :
  same_urls ex (fire ex ev).1.
Proof.
  destruct ex as [disposed src blob load seek ready dur susp calls].
  unfold fire.
  destruct ev as [d | | [imageData | ] ]; cbn -[extractFrames_loop].
  - destruct load as [s | ]; [ | unfold same_urls; auto].
    unfold resume_loaded; cbn -[extractFrames_loop].
    destruct susp as [ | | tps | tps i frames];
      try (unfold same_urls; simpl; auto; fail).
    apply (extractFrames_loop_same_urls
             (mkExtractor disposed (Some s) blob None seek
                (Nat.max 1 ready) d (in_loadVideo tps) calls)).
  - destruct load, seek, disposed, susp; cbn; unfold same_urls; cbn; auto.
  - destruct seek; [ | unfold same_urls; auto].
    unfold resume_captured; cbn -[extractFrames_loop].
    destruct susp as [ | | tps | tps i frames];
      try (unfold same_urls; simpl; auto; fail).
    destruct (tps !! i) as [t | ]; [ | unfold same_urls; simpl; auto].
    match goal with
    | |- context [extractFrames_loop ?e ?t ?j ?f] =>
        pose proof (extractFrames_loop_same_urls e t j f) as H;
        destruct (extractFrames_loop e t j f) as [ex' outs]
    end.
    exact H.
  - destruct seek; [ | unfold same_urls; auto].
    unfold resume_capture_rejected; cbn.
    destruct susp; unfold same_urls; cbn; auto.
Qed.






End Extractor.

(** ** The hook after its clean-up *)

Section HookCleanup.
Import FrameExtractor UseFrameExtractor.








End HookCleanup.

(** ** Disposal *)

Section Disposal.
Import FrameExtractor UseFrameExtractor.





End Disposal.

(** ** A superseded extraction *)

Section Superseded.
Import FrameExtractor UseFrameExtractor.

(** C2 fails on this run.  When B starts, A's extractor is disposed of
    and [abortRef] is set, but [abortRef] is cleared again at once.  The
    [seeked] that A was waiting for then lets A report progress and, its
    loop being left because the extractor is disposed of, complete with the
    one frame it has: both callbacks reach the caller, and the hook's
    [frames] and [loading] are overwritten while B is still running.  When B
    completes the caller has seen two completions. *)
Theorem superseded_extraction_calls_back :
  let started := hook_run (mount clip listening) a_then_b in
  let stale := hook_step started a_seeked in
  let finished := hook_run stale b_completes in
  (called started = [] /\ extractorRef started = Some 1%nat /\
   abortRef started = false /\
   (isDisposed ∘ extractor) <$> extractions started = [true; false]) /\
  (called stale =
     [onProgress_called 0 (percent ten_seconds 0);
      onComplete_called 0 [mkFrame 0 "data:A0"]] /\
   frames stale = [mkFrame 0 "data:A0"] /\ loading stale = false) /\
  filter (fun c => is_onComplete c = true) (called finished) =
    [onComplete_called 0 [mkFrame 0 "data:A0"];
     onComplete_called 1 b_frames].
Proof.
  cbv zeta. refine (conj _ (conj _ _)).
  - repeat apply conj; vm_compute; reflexivity.
  - repeat apply conj; vm_compute; reflexivity.
  - vm_compute. reflexivity.
Qed.

End Superseded.

(** * Further properties *)

(** ** Pointer positions *)

Section PointerTime.
Import TimeFormat DragInteraction.

Lemma pow10_pos (n : nat) : 0 < pow10 n.
Proof.
  unfold pow10. change 0 with (inject_Z 0). rewrite <- Zlt_Qlt.
  apply Z.pow_pos_nonneg; lia.
Qed.


Lemma Math_round_mono (x y : Q) : x <= y -> (Math_round x <= Math_round y)%Z.
Proof. intros H. unfold Math_round. apply Qfloor_resp_le. lra. Qed.



Lemma div_pow10_le (a b : Q) (n : nat) : a <= b -> a / pow10 n <= b / pow10 n.
Proof.
  intros H. unfold Qdiv. apply Qmult_le_compat_r; [exact H | ].
  apply Qlt_le_weak, Qinv_lt_0_compat, pow10_pos.
Qed.



Lemma roundToDecimals_mono (n : nat) (v w : Q) :
  v <= w -> roundToDecimals v n <= roundToDecimals w n.
Proof.
  pose proof (pow10_pos n) as Hp.
  intros Hvw. unfold roundToDecimals. apply div_pow10_le.
  rewrite <- Zle_Qle. apply Math_round_mono.
  apply Qmult_le_compat_r; lra.
Qed.





(** X3.  On a track wider than its two handles and a clip of positive
    duration, a pointer further to the right never reads an earlier
    time. *)
Theorem pixelToTime_monotone (o : UseDragInteractionOptions)
    (canvas : HTMLCanvasElement) (x1 x2 : Q) :
  canvasRef o = Some canvas -> 0 < duration o ->
  handleWidth o * 2 < offsetWidth canvas ->
  x1 <= x2 -> pixelToTime o x1 <= pixelToTime o x2.
Proof.
  intros Hc Hd Hw Hx. unfold pixelToTime. rewrite Hc.
  destruct (Qle_bool (duration o) 0) eqn:E;
    [apply Qle_bool_iff in E; lra | clear E].
  set (ew := offsetWidth canvas - handleWidth o * 2).
  assert (Hew : 0 < ew) by (unfold ew; lra).
  set (t1 := (x1 - rect_left canvas - handleWidth o) / ew * duration o).
  set (t2 := (x2 - rect_left canvas - handleWidth o) / ew * duration o).
  assert (Ht : t1 <= t2).
  { unfold t1, t2, Qdiv.
    apply Qmult_le_compat_r; [ | lra].
    apply Qmult_le_compat_r; [lra | ].
    apply Qlt_le_weak, Qinv_lt_0_compat, Hew. }
  clearbody t1 t2.
  apply roundToDecimals_mono. minmax_cases; lra.
Qed.

Lemma pixelToTime_monotone_witness :
  let o := demo_options (mkRange 2 8) 1 in
  pixelToTime o 100 <= pixelToTime o 307.
Proof.
  intros o.
  apply (pixelToTime_monotone o demo_canvas 100 307 eq_refl); simpl; lra.
Defined.

End PointerTime.

(** ** A drag from press to release *)

Section DragLifecycle.
Import DragInteraction DragPress.

(** [detectHitArea] has no branch that answers ['track']. *)
Lemma detectHitArea_not_track (o : UseDragInteractionOptions) (x y : Q) :
  detectHitArea o x y <> Some track.
Proof.
  unfold detectHitArea. destruct (canvasRef o); [ | discriminate].
  repeat match goal with
         | |- context [if ?b then _ else _] => destruct b
         end; discriminate.
Qed.

Lemma handleStart_hit (o : UseDragInteractionOptions) (st : DragState)
    (clientX clientY : Q) (d : DragType) :
  disabled o = false ->
  detectHitArea o clientX clientY = Some (hit d) ->
  handleStart o st clientX clientY =
    (mkDrag (Some d) clientX (selectedRange o) (currentTime o) true (Some d),
     call (onDragStart o) (DragStarted d) ++
     call (onTimeChange o) (TimeChange (snapped_time o d clientX))).
Proof.
  intros Hd Hh. unfold handleStart. rewrite Hd, Hh. destruct d; reflexivity.
Qed.

(** X4.  A press starts a drag exactly when the widget is enabled and the
    pointer hits something, and what it hits is never the track.  The drag
    is of the kind hit; [onDragStart] is called first and the time update
    that follows is the pointer's time for the cursor and the edge itself
    for a handle.  A press that starts no drag changes nothing and calls
    nothing. *)
Theorem handleStart_starts_drag (o : UseDragInteractionOptions)
    (st : DragState) (clientX clientY : Q) :
  detectHitArea o clientX clientY <> Some track /\
  (disabled o = true \/ detectHitArea o clientX clientY = None ->
   handleStart o st clientX clientY = (st, [])) /\
  (disabled o = false ->
   forall d : DragType,
   detectHitArea o clientX clientY = Some (hit d) ->
   handleStart o st clientX clientY =
     (mkDrag (Some d) clientX (selectedRange o) (currentTime o) true (Some d),
      call (onDragStart o) (DragStarted d) ++
      call (onTimeChange o) (TimeChange (snapped_time o d clientX)))).
Proof.
  refine (conj (detectHitArea_not_track o clientX clientY) (conj _ _)).
  - unfold handleStart. intros [Hd | Hh].
    + rewrite Hd. reflexivity.
    + rewrite Hh. destruct (disabled o); reflexivity.
  - intros Hd d Hh. apply handleStart_hit; assumption.
Qed.

Lemma handleStart_starts_drag_witness :
  let o := demo_options (mkRange 2 8) 1 in
  handleStart o (dragging cursor) 90 40 =
    (mkDrag (Some start_handle) 90 (mkRange 2 8) 0 true (Some start_handle),
     [DragStarted start_handle; TimeChange 2]).
Proof.
  intros o.
  destruct (handleStart_starts_drag o (dragging cursor) 90 40) as (_ & _ & H).
  apply (H eq_refl start_handle). vm_compute. reflexivity.
Defined.

(** X5.  From press to release: whatever was emitted in between and
    whatever the options are at the release, the release of a drag that a
    press started with kind [d] calls [onDragEnd] with that same [d] and
    leaves the hook idle, where moves and further releases call nothing,
    until the next press. *)
Theorem drag_ends_as_started (o o' o'' : UseDragInteractionOptions)
    (st : DragState) (clientX clientY : Q) (d : DragType) :
  disabled o = false ->
  detectHitArea o clientX clientY = Some (hit d) ->
  let pressed := (handleStart o st clientX clientY).1 in
  let released := (handleEnd o' pressed).1 in
  (handleEnd o' pressed).2 = call (onDragEnd o') (DragEnded d) /\
  isDragging released = false /\ dragType released = None /\
  (forall x, handleMove o'' released x = []) /\
  (handleEnd o'' released).2 = [].
Proof.
  intros Hd Hh pressed released.
  subst released pressed. rewrite (handleStart_hit o st _ _ d Hd Hh).
  simpl. auto.
Qed.

Lemma drag_ends_as_started_witness :
  let o := demo_options (mkRange 2 8) 1 in
  (handleEnd o (handleStart o (dragging cursor) 330 40).1).2 =
    [DragEnded end_handle].
Proof.
  intros o.
  apply (drag_ends_as_started o o o (dragging cursor) 330 40 end_handle
           eq_refl).
  vm_compute. reflexivity.
Defined.

End DragLifecycle.

(** ** The widget under pointer events *)

Section WidgetDrag.
Import DragInteraction VideoTimeline.












Lemma handle_emitted_times (p : VideoTimelineProps) (t : Q) (w : Widget) :
  foldl (handle_emitted p) (w, []) [TimeChange t] =
    (mkWidget t (internalSelectedRange w) (videoDuration w) (drag w),
     call (prop_onTimeChange p) (TimeChange t)).
Proof. reflexivity. Qed.

(** X8.  The current time the component hands to the drag hook (and to
    the renderer) is the [currentTime] prop, or [0] when the caller gives
    none, after any run of pointer events: a cursor drag calls
    [onTimeChange] with the pointer's time and stores that time in the
    component's own state, but the stored time is never read back, because
    the prop has been given its default [0] before it is compared with
    [undefined]. *)
Theorem currentTime_is_the_prop (p : VideoTimelineProps)
    (canvas : HTMLCanvasElement) (w : Widget) :
  (forall evs : list PointerEvent,
     currentTime (drag_options p canvas (widget_run p canvas w evs).1)
     = default 0 (prop_currentTime p)) /\
  (forall clientX : Q,
     dragTypeRef (drag w) = Some cursor ->
     let t := pixelToTime (drag_options p canvas w) clientX in
     let moved := widget_step p canvas w (pointer_move clientX) in
     moved.2 = call (prop_onTimeChange p) (TimeChange t) /\
     internalCurrentTime moved.1 = t /\
     currentTime (drag_options p canvas moved.1) = default 0 (prop_currentTime p)).
Proof.
  split; [reflexivity | ].
  intros clientX Hd t moved. subst moved. unfold widget_step, handleMove.
  rewrite Hd. change (onTimeChange (drag_options p canvas w)) with true.
  cbn [call]. rewrite handle_emitted_times. fold t. cbn [fst snd].
  auto.
Qed.

Lemma currentTime_is_the_prop_witness :
  let moved :=
    widget_step uncontrolled demo_canvas
      (mkWidget 0 (mkRange 2 8) 0 (dragging cursor)) (pointer_move 307) in
  internalCurrentTime moved.1 == 7.5 /\
  currentTime (drag_options uncontrolled demo_canvas moved.1) = 0.
Proof.
  intros moved.
  destruct (currentTime_is_the_prop uncontrolled demo_canvas
              (mkWidget 0 (mkRange 2 8) 0 (dragging cursor))) as [_ H].
  destruct (H 307 eq_refl) as (_ & Ht & Hc).
  split; [ | exact Hc].
  fold moved in Ht. rewrite Ht. vm_compute. reflexivity.
Defined.

End WidgetDrag.

(** ** Extractions from start to end *)

Section ExtractionRuns.
Import FrameExtractor Extraction.

(** An extractor at rest lets nothing be observed of an event. *)
Lemma fire_at_rest (ex : VideoFrameExtractor) (ev : VideoEvent) :
  at_rest ex ->
  at_rest (fire ex ev).1 /\ (fire ex ev).2 = [] /\
  isDisposed (fire ex ev).1 = isDisposed ex.
Proof.
  destruct ex as [disposed src blob load seek ready dur susp calls].
  unfold at_rest. simpl. intros (-> & -> & ->).
  destruct ev as [d | | [p | ] ]; cbn; auto.
Qed.

Lemma run_at_rest (evs : list VideoEvent) :
  forall ex : VideoFrameExtractor,
  at_rest ex ->
  at_rest (run ex (events evs)).1 /\ (run ex (events evs)).2 = [].
Proof.
  induction evs as [ | ev evs IH]; intros ex Hr; simpl; [auto | ].
  destruct (fire_at_rest ex ev Hr) as (Hr' & Ho & _).
  destruct (fire ex ev) as [ex1 o1]. simpl in *. subst o1.
  specialize (IH ex1 Hr').
  destruct (run ex1 (events evs)) as [ex2 o2]. simpl in *. exact IH.
Qed.

(** One capture that can be drawn. *)
Lemma fire_seeked_capturing (ex : VideoFrameExtractor) (timePoints : list Q)
    (i : nat) (frames : list VideoFrame) (time : Q) (imageData : string) :
  capturing ex timePoints i frames ->
  timePoints !! i = Some time ->
  let frames' := frames ++ [mkFrame time imageData] in
  match timePoints !! (i + 1)%nat with
  | Some _ =>
    capturing (fire ex (seeked (Some imageData))).1 timePoints (i + 1) frames' /\
    (fire ex (seeked (Some imageData))).2 =
      [progress_called (percent timePoints i)]
  | None =>
    at_rest (fire ex (seeked (Some imageData))).1 /\
    isDisposed (fire ex (seeked (Some imageData))).1 = false /\
    (fire ex (seeked (Some imageData))).2 =
      [progress_called (percent timePoints i); frames_returned frames']
  end.
Proof.
  destruct ex as [disposed src blob load seek ready dur susp calls].
  unfold capturing. simpl. intros (-> & -> & _ & -> & ->) Ht.
  unfold fire, resume_captured, extractFrames_loop. cbn. rewrite Ht. cbn.
  destruct (timePoints !! (i + 1)%nat) as [t' | ] eqn:Ht'; cbn.
  - unfold capturing. cbn. eauto 10.
  - unfold at_rest. cbn. auto.
Qed.

(** One capture that fails. *)
Lemma fire_failure_capturing (ex : VideoFrameExtractor) (timePoints : list Q)
    (i : nat) (frames : list VideoFrame) (ev : VideoEvent) (e : ExtractError) :
  capturing ex timePoints i frames ->
  failure_of timePoints i ev = Some e ->
  at_rest (fire ex ev).1 /\ isDisposed (fire ex ev).1 = false /\
  (fire ex ev).2 = [thrown e].
Proof.
  destruct ex as [disposed src blob load seek ready dur susp calls].
  unfold capturing. simpl. intros (-> & -> & [t Ht] & -> & ->) He.
  unfold at_rest, fire. rewrite Ht in *.
  destruct ev as [d | | [p | ] ]; simpl in He; rewrite ?Ht in He;
    simplify_eq/=; cbn; auto.
Qed.

(** Captures that do not yet reach the last time point. *)
Lemma run_captures (timePoints : list Q) (pictures : list string) :
  forall (ex : VideoFrameExtractor) (i : nat) (frames : list VideoFrame),
  capturing ex timePoints i frames ->
  (i + length pictures < length timePoints)%nat ->
  capturing (run ex (captures pictures)).1 timePoints (i + length pictures)
            (frames ++ frames_of (drop i timePoints) pictures) /\
  (run ex (captures pictures)).2 =
    progress_reports timePoints i (length pictures).
Proof.
  induction pictures as [ | p pictures IH]; intros ex i frames Hc Hlen.
  - simpl. unfold frames_of. rewrite zip_with_nil_r, app_nil_r, Nat.add_0_r.
    auto.
  - simpl in Hlen.
    destruct (lookup_lt_is_Some_2 timePoints i ltac:(lia)) as [t Ht].
    destruct (lookup_lt_is_Some_2 timePoints (i + 1) ltac:(lia)) as [t' Ht'].
    pose proof (fire_seeked_capturing ex timePoints i frames t p Hc Ht) as Hf.
    rewrite Ht' in Hf. destruct Hf as [Hc' Ho].
    cbn [captures map run act].
    destruct (fire ex (seeked (Some p))) as [ex1 o1]. simpl in Hc', Ho.
    subst o1.
    destruct (IH ex1 (i + 1)%nat (frames ++ [mkFrame t p]) Hc' ltac:(lia))
      as [Hc2 Ho2].
    fold (captures pictures).
    destruct (run ex1 (captures pictures)) as [ex2 o2]. simpl in Hc2, Ho2.
    subst o2. cbn [fst snd]. split.
    + replace (i + length (p :: pictures))%nat
        with (i + 1 + length pictures)%nat by (simpl; lia).
      rewrite (drop_S timePoints t i Ht). unfold frames_of in *.
      cbn [zip_with]. rewrite <- app_assoc in Hc2.
      replace (S i) with (i + 1)%nat by lia. exact Hc2.
    + unfold progress_reports. cbn [length seq map app].
      replace (S i) with (i + 1)%nat by lia. reflexivity.
Qed.

(** A fresh extractor after [extractFrames] was called and the metadata
    of its video arrived. *)
Lemma run_loaded (src : VideoSource) (timePoints : list Q) (d : Q) :
  let started :=
    run new_extractor
      [call_extractFrames src timePoints; event (loadedmetadata d)] in
  isDisposed started.1 = false /\
  currentSrc started.1 = Some src /\
  match timePoints with
  | [] => at_rest started.1 /\ started.2 = [frames_returned []]
  | _ :: _ => capturing started.1 timePoints 0 [] /\ started.2 = []
  end.
Proof.
  destruct src as [href | object]; destruct timePoints as [ | t rest];
    cbn; unfold at_rest, capturing; cbn; eauto 10.
Qed.

(** The captures up to the last time point. *)
Lemma run_captures_to_end (timePoints : list Q) (pictures : list string) :
  forall (ex : VideoFrameExtractor) (i : nat) (frames : list VideoFrame),
  capturing ex timePoints i frames ->
  pictures <> [] ->
  (i + length pictures)%nat = length timePoints ->
  at_rest (run ex (captures pictures)).1 /\
  isDisposed (run ex (captures pictures)).1 = false /\
  (run ex (captures pictures)).2 =
    progress_reports timePoints i (length pictures) ++
    [frames_returned (frames ++ frames_of (drop i timePoints) pictures)].
Proof.
  induction pictures as [ | p pictures IH]; intros ex i frames Hc Hne Hlen;
    [congruence | ].
  simpl in Hlen.
  destruct (lookup_lt_is_Some_2 timePoints i ltac:(lia)) as [t Ht].
  pose proof (fire_seeked_capturing ex timePoints i frames t p Hc Ht) as Hf.
  cbn [captures map run act]. fold (captures pictures).
  rewrite (drop_S timePoints t i Ht). unfold frames_of in *. cbn [zip_with].
  destruct pictures as [ | p' pictures].
  - rewrite (lookup_ge_None_2 timePoints (i + 1)) in Hf by (simpl in Hlen; lia).
    destruct Hf as (Hr & Hd & Ho).
    destruct (fire ex (seeked (Some p))) as [ex1 o1]. simpl in Hr, Hd, Ho.
    subst o1. cbn. rewrite zip_with_nil_r. auto.
  - destruct (lookup_lt_is_Some_2 timePoints (i + 1)
                ltac:(simpl in Hlen; lia)) as [t' Ht'].
    rewrite Ht' in Hf. destruct Hf as [Hc' Ho].
    destruct (fire ex (seeked (Some p))) as [ex1 o1]. simpl in Hc', Ho.
    subst o1.
    destruct (IH ex1 (i + 1)%nat (frames ++ [mkFrame t p]) Hc'
                ltac:(discriminate) ltac:(simpl in *; lia))
      as (Hr2 & Hd2 & Ho2).
    destruct (run ex1 (captures (p' :: pictures))) as [ex2 o2].
    simpl in Hr2, Hd2, Ho2. subst o2. cbn [fst snd].
    refine (conj Hr2 (conj Hd2 _)).
    unfold progress_reports. cbn [length seq map app].
    replace (S i) with (i + 1)%nat by lia.
    rewrite <- app_assoc. reflexivity.
Qed.

Lemma percent_last (timePoints : list Q) :
  timePoints <> [] ->
  percent timePoints (length timePoints - 1) == 100.
Proof.
  intros Hne. unfold percent.
  replace (length timePoints - 1 + 1)%nat with (length timePoints)
    by (destruct timePoints; [congruence | simpl; lia]).
  assert (0 < inject_Z (Z.of_nat (length timePoints))).
  { change 0 with (inject_Z 0). rewrite <- Zlt_Qlt.
    destruct timePoints; [congruence | simpl; lia]. }
  field. lra.
Qed.

Lemma run_extraction_completes (src : VideoSource) (timePoints : list Q)
    (pictures : list string) (d : Q) (later : list VideoEvent) :
  length pictures = length timePoints ->
  (run new_extractor
     (call_extractFrames src timePoints :: event (loadedmetadata d) ::
      captures pictures ++ events later)).2 =
    progress_reports timePoints 0 (length timePoints) ++
    [frames_returned (frames_of timePoints pictures)].
Proof.
  intros Hlen.
  change (call_extractFrames src timePoints :: event (loadedmetadata d) ::
          captures pictures ++ events later)
    with ([call_extractFrames src timePoints; event (loadedmetadata d)]
          ++ (captures pictures ++ events later)).
  rewrite run_app.
  pose proof (run_loaded src timePoints d) as (Hd & _ & Hstart).
  cbv zeta in Hd, Hstart.
  destruct (run new_extractor
              [call_extractFrames src timePoints; event (loadedmetadata d)])
    as [ex1 o1]. cbn [fst snd] in *.
  destruct timePoints as [ | t rest].
  - destruct pictures; [ | discriminate]. destruct Hstart as [Hr ->].
    cbn [captures map app]. destruct (run_at_rest later ex1 Hr) as [_ Ho].
    destruct (run ex1 (events later)) as [ex2 o2]. simpl in *. subst o2.
    reflexivity.
  - destruct Hstart as [Hc ->]. rewrite run_app.
    destruct (run_captures_to_end (t :: rest) pictures ex1 0%nat [] Hc)
      as (Hr & _ & Ho); [destruct pictures; discriminate | exact Hlen | ].
    destruct (run ex1 (captures pictures)) as [ex2 o2]. cbn [fst snd] in *.
    destruct (run_at_rest later ex2 Hr) as [_ Ho'].
    destruct (run ex2 (events later)) as [ex3 o3]. cbn [fst snd] in *.
    subst o2 o3. rewrite Hlen, app_nil_r. reflexivity.
Qed.

(** X9.  An extraction that nothing disturbs: [extractFrames] on a fresh
    extractor, the metadata of the video, and one [seeked] per time point
    whose picture can be drawn.  The call reports progress once per time
    point, in order and ending at 100 percent, and then returns one frame
    per time point, in order, each with its time point and the picture
    captured for it; whatever event follows is ignored.  Without time
    points it returns the empty list once the video has loaded. *)
Theorem extractFrames_completes (src : VideoSource) (timePoints : list Q)
    (pictures : list string) (d : Q) (later : list VideoEvent) :
  length pictures = length timePoints ->
  (run new_extractor
     (call_extractFrames src timePoints :: event (loadedmetadata d) ::
      captures pictures ++ events later)).2 =
    progress_reports timePoints 0 (length timePoints) ++
    [frames_returned (frames_of timePoints pictures)] /\
  length (frames_of timePoints pictures) = length timePoints /\
  (forall (i : nat) (frame : VideoFrame),
     frames_of timePoints pictures !! i = Some frame ->
     timePoints !! i = Some (time frame) /\
     pictures !! i = Some (imageData frame)) /\
  (timePoints <> [] -> percent timePoints (length timePoints - 1) == 100).
Proof.
  intros Hlen. refine (conj _ (conj _ (conj _ (percent_last timePoints)))).
  - apply run_extraction_completes, Hlen.
  - unfold frames_of. rewrite length_zip_with. lia.
  - unfold frames_of. intros i frame Hi.
    apply lookup_zip_with_Some in Hi as (t & p & -> & Ht & Hp). auto.
Qed.

Lemma extractFrames_completes_witness :
  (run new_extractor
     (call_extractFrames (file 0) [0; 5] :: event (loadedmetadata 10) ::
      captures ["data:a"; "data:b"] ++ events [seeked (Some "data:c")])).2 =
    progress_reports [0; 5] 0 2 ++
    [frames_returned [mkFrame 0 "data:a"; mkFrame 5 "data:b"]].
Proof.
  apply (extractFrames_completes (file 0) [0; 5] ["data:a"; "data:b"] 10
           [seeked (Some "data:c")] eq_refl).
Defined.

(** X10.  A capture that fails ends the whole extraction: when, after
    some captures have succeeded, the video element raises [error] or the
    picture of the next capture cannot be drawn, the call throws (the
    capture error with the time point, or what the drawing threw); the
    frames captured so far are not returned, neither then nor on any later
    event. *)
Theorem capture_failure_aborts (src : VideoSource) (timePoints : list Q)
    (pictures : list string) (d : Q) (failure : VideoEvent)
    (e : ExtractError) (later : list VideoEvent) :
  (length pictures < length timePoints)%nat ->
  failure_of timePoints (length pictures) failure = Some e ->
  (run new_extractor
     (call_extractFrames src timePoints :: event (loadedmetadata d) ::
      captures pictures ++ event failure :: events later)).2 =
    progress_reports timePoints 0 (length pictures) ++ [thrown e].
Proof.
  intros Hlen He.
  change (call_extractFrames src timePoints :: event (loadedmetadata d) ::
          captures pictures ++ event failure :: events later)
    with ([call_extractFrames src timePoints; event (loadedmetadata d)]
          ++ (captures pictures ++ event failure :: events later)).
  rewrite run_app.
  pose proof (run_loaded src timePoints d) as (_ & _ & Hstart).
  cbv zeta in Hstart.
  destruct (run new_extractor
              [call_extractFrames src timePoints; event (loadedmetadata d)])
    as [ex1 o1]. cbn [fst snd] in *.
  destruct timePoints as [ | t rest]; [simpl in Hlen; lia | ].
  destruct Hstart as [Hc ->]. rewrite run_app.
  destruct (run_captures (t :: rest) pictures ex1 0%nat [] Hc Hlen) as [Hc2 Ho].
  destruct (run ex1 (captures pictures)) as [ex2 o2]. cbn [fst snd] in *.
  subst o2. cbn [run act].
  destruct (fire_failure_capturing ex2 (t :: rest) (length pictures) _
              failure e Hc2 He) as (Hr & _ & Ho3).
  destruct (fire ex2 failure) as [ex3 o3]. cbn [fst snd] in *. subst o3.
  destruct (run_at_rest later ex3 Hr) as [_ Ho4].
  fold (events later).
  destruct (run ex3 (events later)) as [ex4 o4]. cbn [fst snd] in *. subst o4.
  reflexivity.
Qed.

Lemma capture_failure_aborts_witness :
  (run new_extractor
     (call_extractFrames (url "/video.mp4") [0; 5] ::
      event (loadedmetadata 10) ::
      captures ["data:a"] ++ event video_error ::
      events [seeked (Some "data:b")])).2 =
    progress_reports [0; 5] 0 1 ++ [thrown (capture_error 5)].
Proof.
  apply (capture_failure_aborts (url "/video.mp4") [0; 5] ["data:a"] 10
           video_error (capture_error 5) [seeked (Some "data:b")]).
  - simpl. lia.
  - reflexivity.
Defined.

(** X11.  A video that fails to load: the call, be it [getDuration] or
    [extractFrames], throws the load error, and nothing is observed of any
    later event.  The extractor is not disposed by that and has not taken
    the source for loaded: a new call for the same source loads it
    again. *)
Theorem load_failure_throws (src : VideoSource) (timePoints : list Q)
    (later : list VideoEvent) :
  let failed_extract :=
    run new_extractor
      (call_extractFrames src timePoints :: event video_error :: events later) in
  let failed_duration :=
    run new_extractor (call_getDuration src :: event video_error :: events later) in
  failed_extract.2 = [thrown load_error] /\
  failed_duration.2 = [thrown load_error] /\
  isDisposed failed_extract.1 = false /\
  currentSrc failed_extract.1 = None /\
  currentLoadHandler (extractFrames failed_extract.1 src timePoints).1
    = Some src /\
  (extractFrames failed_extract.1 src timePoints).2 = [].
Proof.
  assert (H : forall a, a = call_extractFrames src timePoints \/
                        a = call_getDuration src ->
            let r := run new_extractor [a; event video_error] in
            at_rest r.1 /\ r.2 = [thrown load_error] /\
            isDisposed r.1 = false /\ currentSrc r.1 = None /\
            readyState r.1 = 0%nat).
  { intros a [-> | ->]; destruct src; cbn; unfold at_rest; cbn; auto 10. }
  intros failed_extract failed_duration. subst failed_extract failed_duration.
  change (call_extractFrames src timePoints :: event video_error :: events later)
    with ([call_extractFrames src timePoints; event video_error] ++ events later).
  change (call_getDuration src :: event video_error :: events later)
    with ([call_getDuration src; event video_error] ++ events later).
  rewrite !run_app.
  destruct (H _ (or_introl eq_refl)) as (Hr1 & Ho1 & Hd1 & Hs1 & Hy1).
  destruct (H _ (or_intror eq_refl)) as (Hr2 & Ho2 & _).
  cbv zeta in *.
  destruct (run new_extractor [call_extractFrames src timePoints; event video_error])
    as [ex1 o1].
  destruct (run new_extractor [call_getDuration src; event video_error])
    as [ex2 o2].
  cbn [fst snd] in *. subst o1 o2.
  pose proof (run_at_rest later ex1 Hr1) as [Hr3 Ho3].
  pose proof (run_at_rest later ex2 Hr2) as [_ Ho4].
  assert (Hkeep : isDisposed (run ex1 (events later)).1 = false /\
                  currentSrc (run ex1 (events later)).1 = None).
  { clear -Hr1 Hd1 Hs1. revert ex1 Hr1 Hd1 Hs1.
    induction later as [ | ev later IH]; intros ex Hr Hd Hs; simpl; [auto | ].
    pose proof (fire_at_rest ex ev Hr) as (Hr' & _ & Hd').
    assert (Hs' : currentSrc (fire ex ev).1 = None).
    { destruct ex as [disposed src0 blob load seek ready dur susp calls].
      destruct Hr as (Hl & Hk & Hu). simpl in *. subst.
      destruct ev as [d | | [p | ] ]; reflexivity. }
    destruct (fire ex ev) as [ex' o']. simpl in *.
    specialize (IH ex' Hr' ltac:(congruence) Hs').
    destruct (run ex' (events later)) as [ex'' o'']. exact IH. }
  destruct (run ex1 (events later)) as [ex3 o3].
  destruct (run ex2 (events later)) as [ex4 o4].
  cbn [fst snd] in *. subst o3 o4. destruct Hkeep as [Hd3 Hs3].
  refine (conj eq_refl (conj eq_refl (conj Hd3 (conj Hs3 _)))).
  destruct ex3 as [disposed src0 blob load seek ready dur susp calls].
  destruct Hr3 as (Hl & Hk & Hu). simpl in *. subst.
  unfold extractFrames, loadVideo. cbn.
  destruct src; cbn; destruct blob; cbn; auto.
Qed.

(** A source that is loaded is not loaded again. *)
Lemma loadVideo_loaded (ex : VideoFrameExtractor) (src : VideoSource) :
  isDisposed ex = false -> currentSrc ex = Some src ->
  (1 <= readyState ex)%nat ->
  loadVideo ex src = (ex, load_resolved).
Proof.
  intros Hd Hs Hr. unfold loadVideo. rewrite Hd, Hs.
  rewrite bool_decide_eq_true_2 by reflexivity.
  apply Nat.leb_le in Hr. rewrite Hr. reflexivity.
Qed.

(** X12.  [getDuration] answers with the duration the video element
    reports when its metadata arrive, and the source then counts as
    loaded: a second [getDuration] for it answers at once and leaves the
    extractor as it is, and [extractFrames] for it goes straight to its
    first capture, without registering load handlers and without another
    call of [createObjectURL] or [revokeObjectURL]. *)
Theorem getDuration_then_reuse (src : VideoSource) (d : Q)
    (timePoints : list Q) :
  let loaded :=
    run new_extractor [call_getDuration src; event (loadedmetadata d)] in
  loaded.2 = [duration_returned d] /\
  getDuration loaded.1 src = (loaded.1, [duration_returned d]) /\
  urlCalls (extractFrames loaded.1 src timePoints).1 = urlCalls loaded.1 /\
  match timePoints with
  | [] => (extractFrames loaded.1 src timePoints).2 = [frames_returned []]
  | _ :: _ =>
    capturing (extractFrames loaded.1 src timePoints).1 timePoints 0 [] /\
    (extractFrames loaded.1 src timePoints).2 = []
  end.
Proof.
  intros loaded.
  assert (H : loaded.2 = [duration_returned d] /\
              isDisposed loaded.1 = false /\ currentSrc loaded.1 = Some src /\
              (1 <= readyState loaded.1)%nat /\ video_duration loaded.1 = d /\
              currentLoadHandler loaded.1 = None).
  { subst loaded. destruct src; cbn; auto 10. }
  destruct H as (Ho & Hd & Hs & Hr & Hv & Hl).
  destruct loaded as [ex o]. cbn [fst snd] in *.
  pose proof (loadVideo_loaded ex src Hd Hs Hr) as Hload.
  refine (conj Ho (conj _ _)).
  - unfold getDuration. rewrite Hload, Hv. reflexivity.
  - unfold extractFrames. rewrite Hd, Hload.
    destruct (extractFrames_loop_same_urls ex timePoints 0 []) as (Hc & _).
    split; [exact Hc | ].
    unfold extractFrames_loop. destruct timePoints as [ | t rest]; cbn.
    + reflexivity.
    + rewrite Hd. unfold capturing. cbn. rewrite Hd, Hl. eauto 10.
Qed.

Lemma urls_balanced_ext (ex ex' : VideoFrameExtractor) :
  same_urls ex ex' -> urls_balanced ex -> urls_balanced ex'.
Proof.
  unfold same_urls, urls_balanced, creations, revocations.
  intros (-> & -> & ->). tauto.
Qed.

Lemma revokeBlobUrl_balanced (ex : VideoFrameExtractor) :
  urls_balanced ex ->
  urls_balanced (revokeBlobUrl ex) /\ blobUrl (revokeBlobUrl ex) = None /\
  isDisposed (revokeBlobUrl ex) = isDisposed ex.
Proof.
  unfold urls_balanced, revokeBlobUrl, creations, revocations.
  intros [Hb Hd]. destruct (blobUrl ex) as [b | ] eqn:E; cbn.
  - rewrite !List.filter_app, !length_app. cbn. split; [ | auto].
    split; [lia | auto].
  - rewrite E. auto.
Qed.

Lemma loadVideo_balanced (ex : VideoFrameExtractor) (src : VideoSource) :
  urls_balanced ex ->
  urls_balanced (loadVideo ex src).1 /\
  isDisposed (loadVideo ex src).1 = isDisposed ex.
Proof.
  intros Hb. unfold loadVideo.
  destruct (isDisposed ex) eqn:Hd; [cbn; auto | ].
  destruct (_ && _); [cbn; auto | ].
  destruct (revokeBlobUrl_balanced (cleanupListeners ex) Hb)
    as ([Hc Hdn] & Hn & Hd').
  change (isDisposed (cleanupListeners ex)) with (isDisposed ex) in Hd'.
  set (ex1 := revokeBlobUrl (cleanupListeners ex)) in *.
  destruct src as [href | object]; cbn [fst].
  - split; [ | cbn; congruence].
    apply (urls_balanced_ext ex1); [unfold same_urls; cbn; auto | ].
    split; assumption.
  - split; [ | cbn; congruence].
    unfold urls_balanced, creations, revocations in *. cbn.
    rewrite !List.filter_app, !length_app. cbn. rewrite Hn in Hc.
    split; [lia | ]. intros Ht. congruence.
Qed.

Lemma act_balanced (ex : VideoFrameExtractor) (a : Action) :
  urls_balanced ex -> urls_balanced (act ex a).1.
Proof.
  intros Hb. destruct a as [src | src tps | | ev]; cbn [act fst].
  - unfold getDuration. pose proof (loadVideo_balanced ex src Hb) as [H _].
    destruct (loadVideo ex src) as [ex1 [e | | ] ]; cbn [fst] in *; exact H.
  - unfold extractFrames. destruct (isDisposed ex); [exact Hb | ].
    pose proof (loadVideo_balanced ex src Hb) as [H _].
    destruct (loadVideo ex src) as [ex1 [e | | ] ]; cbn [fst] in *;
      try exact H.
    apply (urls_balanced_ext ex1);
      [apply extractFrames_loop_same_urls | exact H].
  - unfold dispose.
    destruct (revokeBlobUrl_balanced (cleanupListeners ex) Hb)
      as ([Hc _] & Hn & _).
    unfold urls_balanced, creations, revocations in *. cbn. rewrite Hn in *.
    auto.
  - apply (urls_balanced_ext ex); [apply fire_same_urls | exact Hb].
Qed.

(** X13.  Blob URLs do not pile up.  Whatever is called on an extractor
    and whatever its video element raises, in whatever order, the blob URLs
    it has created and not revoked are exactly the one it holds, if it
    holds one: each load of another source revokes the URL of the previous
    one first, and a disposed extractor holds none. *)
Theorem blob_urls_balanced (actions : list Action) :
  let ex := (run new_extractor actions).1 in
  creations ex = (revocations ex + if blobUrl ex is Some _ then 1 else 0)%nat /\
  (isDisposed ex = true -> creations ex = revocations ex).
Proof.
  intros ex.
  assert (H : urls_balanced ex).
  { subst ex.
    assert (Hnew : urls_balanced new_extractor)
      by (split; [reflexivity | discriminate]).
    revert Hnew. generalize new_extractor.
    induction actions as [ | a actions IH]; intros ex0 Hb; simpl; [exact Hb | ].
    pose proof (act_balanced ex0 a Hb) as H1.
    destruct (act ex0 a) as [ex1 o1]. specialize (IH ex1 H1).
    destruct (run ex1 actions) as [ex2 o2]. exact IH. }
  destruct H as [Hc Hd]. split; [exact Hc | ].
  intros Ht. rewrite (Hd Ht) in Hc. lia.
Qed.

Lemma blob_urls_balanced_witness :
  let ex :=
    (run new_extractor
       [call_getDuration (file 0); event (loadedmetadata 10);
        call_extractFrames (file 1) [0; 5]; call_dispose]).1 in
  creations ex = 2%nat /\ revocations ex = 2%nat.
Proof.
  intros ex.
  destruct (blob_urls_balanced
              [call_getDuration (file 0); event (loadedmetadata 10);
               call_extractFrames (file 1) [0; 5]; call_dispose]) as [_ H].
  fold ex in H. rewrite <- (H eq_refl). split; vm_compute; reflexivity.
Defined.

(** X14.  [dispose()] can be called again without further effect, and a
    disposed extractor refuses work: it holds no blob URL, no source and no
    load handlers; [getDuration] and [extractFrames] throw at once and
    leave it as it is. *)
Theorem dispose_is_final (ex : VideoFrameExtractor) (src : VideoSource)
    (timePoints : list Q) :
  dispose (dispose ex) = dispose ex /\
  (isDisposed (dispose ex) = true /\ blobUrl (dispose ex) = None /\
   currentSrc (dispose ex) = None /\ currentLoadHandler (dispose ex) = None) /\
  getDuration (dispose ex) src = (dispose ex, [thrown disposed_error]) /\
  extractFrames (dispose ex) src timePoints =
    (dispose ex, [thrown disposed_error]).
Proof.
  destruct ex as [disposed src0 blob load seek ready dur susp calls].
  unfold getDuration, extractFrames, loadVideo, dispose, revokeBlobUrl,
    cleanupListeners.
  destruct blob; cbn; auto 10.
Qed.

End ExtractionRuns.

(** ** The extractors of the hook *)

Section HookInvariant.
Import FrameExtractor Extraction UseFrameExtractor HookExtractors.

(** Every method but [dispose], and every event, leaves the disposed flag
    as it is. *)
Lemma act_keeps_disposed (ex : VideoFrameExtractor) (a : Action) :
  a <> call_dispose -> isDisposed (act ex a).1 = isDisposed ex.
Proof.
  intros Ha. destruct a as [src | src tps | | ev]; cbn [act]; [ | | congruence | ].
  - unfold getDuration. pose proof (loadVideo_balanced ex src) as H.
    assert (Hd : isDisposed (loadVideo ex src).1 = isDisposed ex).
    { unfold loadVideo. destruct (isDisposed ex) eqn:E; [cbn; auto | ].
      destruct (_ && _); [cbn; auto | ].
      unfold revokeBlobUrl, cleanupListeners. cbn.
      destruct (blobUrl ex); destruct src; cbn; auto. }
    destruct (loadVideo ex src) as [ex1 [e | | ] ]; cbn in *; exact Hd.
  - unfold extractFrames. destruct (isDisposed ex) eqn:E; [cbn; auto | ].
    assert (Hd : isDisposed (loadVideo ex src).1 = false).
    { unfold loadVideo. rewrite E.
      destruct (_ && _); [cbn; auto | ].
      unfold revokeBlobUrl, cleanupListeners. cbn.
      destruct (blobUrl ex); destruct src; cbn; auto. }
    destruct (loadVideo ex src) as [ex1 [e | | ] ]; cbn [fst] in *;
      try exact Hd.
    destruct (extractFrames_loop_same_urls ex1 tps 0 []) as (_ & _ & H).
    congruence.
  - apply fire_same_urls.
Qed.

Lemma extractors_in_order_ext (h h' : Hook) :
  extractorRef h' = extractorRef h -> extractions h' = extractions h ->
  extractors_in_order h -> extractors_in_order h'.
Proof. unfold extractors_in_order. intros -> ->. tauto. Qed.

(** An extractor of the hook takes a step of its own. *)
Lemma set_extractor_in_order (h : Hook) (k : nat) (e : Extraction)
    (a : Action) :
  extractions h !! k = Some e -> a <> call_dispose ->
  extractors_in_order h ->
  extractors_in_order (set_extractor k (act (extractor e) a).1 h).
Proof.
  intros Hk Ha [Hlen Hall]. unfold extractors_in_order, set_extractor. cbn.
  split.
  - destruct (extractorRef h); [rewrite length_alter; exact Hlen | ].
    rewrite Hlen in Hk. discriminate.
  - intros j e' Hj. destruct (decide (k = j)) as [-> | Hne].
    + rewrite list_lookup_alter_eq, Hk in Hj. cbn in Hj.
      injection Hj as <-. cbn. destruct (Hall j e Hk) as [Hb Hd].
      split; [apply act_balanced, Hb | ].
      rewrite (act_keeps_disposed _ a Ha). exact Hd.
    + rewrite list_lookup_alter_ne in Hj by exact Hne. apply Hall, Hj.
Qed.

Lemma deliver_in_order (k : nat) (h : Hook) (o : Outcome) :
  extractors_in_order h -> extractors_in_order (deliver k h o).
Proof.
  intros Hh. unfold deliver.
  destruct o; destruct (abortRef h); try exact Hh;
    (eapply extractors_in_order_ext; [ | | exact Hh]; reflexivity).
Qed.

Lemma foldl_deliver_in_order (k : nat) (outcomes : list Outcome) :
  forall h, extractors_in_order h ->
  extractors_in_order (foldl (deliver k) h outcomes).
Proof.
  induction outcomes as [ | o outcomes IH]; intros h Hh; simpl; [exact Hh | ].
  apply IH, deliver_in_order, Hh.
Qed.

Lemma extract_at_in_order (k : nat) (o : UseFrameExtractorOptions)
    (src : VideoSource) (d : Q) (h : Hook) :
  extractors_in_order h -> extractors_in_order (extract_at k o src d h).
Proof.
  intros Hh. unfold extract_at.
  destruct (TimePoints.generateTimePoints _ _ _) as [tps | ].
  - destruct (extractions h !! k) as [e | ] eqn:Hk; [ | exact Hh].
    pose proof (set_extractor_in_order h k e (call_extractFrames src tps) Hk
                  ltac:(discriminate) Hh) as H.
    cbn [act] in H.
    destruct (extractFrames (extractor e) src tps) as [ex outcomes].
    apply foldl_deliver_in_order, H.
  - eapply extractors_in_order_ext; [ | | exact Hh]; reflexivity.
Qed.

Lemma continue_in_order (k : nat) (o : UseFrameExtractorOptions)
    (src : VideoSource) (h : Hook) (out : Outcome) :
  extractors_in_order h -> extractors_in_order (continue k o src h out).
Proof.
  intros Hh. destruct out as [p | d | fs | e]; cbn [continue];
    try (apply deliver_in_order, Hh).
  apply extract_at_in_order.
  eapply extractors_in_order_ext; [ | | exact Hh]; reflexivity.
Qed.

Lemma foldl_continue_in_order (k : nat) (o : UseFrameExtractorOptions)
    (src : VideoSource) (outcomes : list Outcome) :
  forall h, extractors_in_order h ->
  extractors_in_order (foldl (continue k o src) h outcomes).
Proof.
  induction outcomes as [ | out outcomes IH]; intros h Hh; simpl;
    [exact Hh | ].
  apply IH, continue_in_order, Hh.
Qed.

(** After [extractorRef.current?.dispose()] every extractor is disposed
    of. *)
Lemma dispose_current_in_order (h : Hook) :
  extractors_in_order h ->
  extractors_in_order (dispose_current h) /\
  extractorRef (dispose_current h) = extractorRef h /\
  length (extractions (dispose_current h)) = length (extractions h) /\
  forall (j : nat) (e : Extraction),
    extractions (dispose_current h) !! j = Some e ->
    urls_balanced (extractor e) /\ isDisposed (extractor e) = true.
Proof.
  intros Hh. pose proof Hh as [Hlen Hall]. unfold dispose_current.
  destruct (extractorRef h) as [k | ] eqn:Hk.
  - destruct (extractions h !! k) as [e | ] eqn:He.
    + unfold extractors_in_order, set_extractor. cbn. rewrite Hk.
      rewrite length_alter.
      assert (Hj : forall j e', alter (fun e0 => mkExtraction (closure e0)
                                           (dispose (extractor e))) k
                                  (extractions h) !! j = Some e' ->
                     urls_balanced (extractor e') /\
                     isDisposed (extractor e') = true).
      { intros j e' Hj. destruct (decide (k = j)) as [-> | Hne].
        - rewrite list_lookup_alter_eq, He in Hj. cbn in Hj.
          injection Hj as <-. cbn [extractor].
          split; [ | reflexivity].
          apply (act_balanced (extractor e) call_dispose).
          apply (Hall _ _ He).
        - rewrite list_lookup_alter_ne in Hj by exact Hne.
          destruct (Hall j e' Hj) as [Hb Hd]. split; [exact Hb | ].
          apply Hd. congruence. }
      refine (conj (conj Hlen _) (conj eq_refl (conj eq_refl Hj))).
      intros j e' Hje. destruct (Hj j e' Hje). auto.
    + apply lookup_ge_None_1 in He. lia.
  - rewrite Hk. refine (conj Hh (conj eq_refl (conj eq_refl _))).
    rewrite Hlen. intros j e Hj. destruct j; discriminate.
Qed.

Lemma extractFrames_hook_in_order (o : UseFrameExtractorOptions) (h : Hook) :
  extractors_in_order h -> extractors_in_order (extractFrames_hook o h).
Proof.
  intros Hh. unfold extractFrames_hook.
  destruct (truthy_src (videoSrc o)) as [src | ]; [ | exact Hh].
  assert (Ha : extractors_in_order (set_abortRef true h)).
  { eapply extractors_in_order_ext; [ | | exact Hh]; reflexivity. }
  destruct (dispose_current_in_order _ Ha) as (_ & _ & _ & Hall).
  set (h1 := dispose_current (set_abortRef true h)) in *. clearbody h1.
  cbv zeta.
  set (k := length (extractions h1)).
  set (h2 := mkHook _ _ _ _ _ _ _ _ _ _ _).
  assert (Hnew : extractions h2 !! k = Some (mkExtraction o new_extractor)).
  { subst h2 k. cbn [extractions]. apply list_lookup_middle. reflexivity. }
  assert (H2 : extractors_in_order h2).
  { split.
    - subst h2 k. cbn. rewrite length_app. cbn. lia.
    - intros j e Hj. subst h2. cbn [extractions extractorRef] in *.
      destruct (decide (j = k)) as [-> | Hne].
      + rewrite Hnew in Hj. injection Hj as <-. cbn [extractor].
        split; [ | congruence].
        split; [reflexivity | discriminate].
      + assert (Hlt : (j < k)%nat).
        { apply lookup_lt_Some in Hj. rewrite length_app in Hj. cbn in Hj.
          subst k. lia. }
        rewrite lookup_app_l in Hj by exact Hlt.
        destruct (Hall j e Hj) as [Hb Hd]. auto. }
  clearbody h2 k.
  destruct (truthy_duration (duration o)) as [d | ].
  - apply extract_at_in_order, H2.
  - pose proof (set_extractor_in_order h2 k _ (call_getDuration src) Hnew
                  ltac:(discriminate) H2) as H.
    cbn [act extractor] in H.
    destruct (getDuration new_extractor src) as [ex outcomes].
    apply foldl_continue_in_order, H.
Qed.

Lemma hook_step_in_order (h : Hook) (e : HookEvent) :
  extractors_in_order h -> extractors_in_order (hook_step h e).
Proof.
  intros Hh. unfold hook_step. destruct (frozen h); [exact Hh | ].
  destruct e as [cbs | o | | k ev].
  - eapply extractors_in_order_ext; [ | | exact Hh]; reflexivity.
  - apply extractFrames_hook_in_order, Hh.
  - apply dispose_current_in_order.
    eapply extractors_in_order_ext; [ | | exact Hh]; reflexivity.
  - destruct (extractions h !! k) as [e | ] eqn:Hk; [ | exact Hh].
    pose proof (set_extractor_in_order h k e (event ev) Hk
                  ltac:(discriminate) Hh) as H.
    cbn [act] in H.
    destruct (fire (extractor e) ev) as [ex outcomes].
    destruct (truthy_src (videoSrc (closure e))) as [src | ]; [ | exact H].
    apply foldl_continue_in_order, H.
Qed.

Lemma hook_run_in_order (events : list HookEvent) :
  forall h, extractors_in_order h -> extractors_in_order (hook_run h events).
Proof.
  induction events as [ | e events IH]; intros h Hh; simpl; [exact Hh | ].
  apply IH, hook_step_in_order, Hh.
Qed.

Lemma mount_in_order (o : UseFrameExtractorOptions) (cbs : Callbacks) :
  extractors_in_order (mount o cbs).
Proof. split; [reflexivity | ]. intros j e Hj. destruct j; discriminate. Qed.

(** Blob URLs not revoked, summed over a list of extractions of which at
    most the one at [k] holds a URL. *)
Lemma live_blob_urls_none (l : list Extraction) :
  (forall j e, l !! j = Some e ->
     (creations (extractor e) - revocations (extractor e) = 0)%nat) ->
  foldr (fun e n => (creations (extractor e) - revocations (extractor e) + n)%nat)
        0%nat l = 0%nat.
Proof.
  induction l as [ | e l IH]; intros H; simpl; [reflexivity | ].
  rewrite (H 0%nat e eq_refl), IH; [reflexivity | ].
  intros j e' Hj. apply (H (S j) e' Hj).
Qed.

Lemma live_blob_urls_one (l : list Extraction) :
  forall k : nat,
  (forall j e, l !! j = Some e ->
     (creations (extractor e) - revocations (extractor e) <= 1)%nat /\
     (j <> k ->
      (creations (extractor e) - revocations (extractor e) = 0)%nat)) ->
  (foldr (fun e n => (creations (extractor e) - revocations (extractor e) + n)%nat)
         0%nat l <= 1)%nat.
Proof.
  induction l as [ | e l IH]; intros k H; simpl; [lia | ].
  destruct k as [ | k].
  - rewrite live_blob_urls_none.
    + destruct (H 0%nat e eq_refl). lia.
    + intros j e' Hj. apply (H (S j) e' Hj). discriminate.
  - destruct (H 0%nat e eq_refl) as [_ H0]. rewrite H0 by discriminate.
    apply (IH k). intros j e' Hj. destruct (H (S j) e' Hj) as [H1 H2].
    split; [exact H1 | ]. intros Hne. apply H2. congruence.
Qed.

(** X15 (use-frame-extractor.ts, extractFrames and the effect's cleanup):
    whatever is rendered, started, cleaned up and fired on the videos after
    the hook is mounted, [extractorRef] is the extractor built last, and
    every other extractor the hook has built is disposed of and holds no
    blob URL. *)
Theorem hook_disposes_earlier_extractors
    (o : UseFrameExtractorOptions) (cbs : Callbacks)
    (events : list HookEvent) (j : nat) (e : Extraction) :
  let h := hook_run (mount o cbs) events in
  (extractorRef h = None -> extractions h = []) /\
  (forall k, extractorRef h = Some k -> length (extractions h) = S k) /\
  (extractions h !! j = Some e -> extractorRef h <> Some j ->
   isDisposed (extractor e) = true /\ blobUrl (extractor e) = None).
Proof.
  intros h.
  destruct (hook_run_in_order events _ (mount_in_order o cbs)) as [Hlen Hall].
  fold h in Hlen, Hall. refine (conj _ (conj _ _)).
  - intros Hn. rewrite Hn in Hlen. exact Hlen.
  - intros k Hk. rewrite Hk in Hlen. exact Hlen.
  - intros Hj Hne. destruct (Hall j e Hj) as [[_ Hb] Hd].
    split; [exact (Hd Hne) | exact (Hb (Hd Hne))].
Qed.

Lemma hook_disposes_earlier_extractors_witness :
  let h := hook_run (mount clip listening) a_then_b in
  exists e, extractions h !! 0%nat = Some e /\
            isDisposed (extractor e) = true /\ blobUrl (extractor e) = None.
Proof.
  eexists. split; [reflexivity | ].
  apply (hook_disposes_earlier_extractors clip listening a_then_b 0%nat);
    [reflexivity | discriminate].
Defined.

(** X16 (use-frame-extractor.ts with frame-extractor.ts,
    URL.createObjectURL and URL.revokeObjectURL): at every moment all the
    extractors a hook has built hold together at most one blob URL that is
    not revoked. *)
Theorem hook_holds_one_blob_url
    (o : UseFrameExtractorOptions) (cbs : Callbacks)
    (events : list HookEvent) :
  (live_blob_urls (hook_run (mount o cbs) events) <= 1)%nat.
Proof.
  destruct (hook_run_in_order events _ (mount_in_order o cbs)) as [Hlen Hall].
  unfold live_blob_urls.
  set (h := hook_run (mount o cbs) events) in *. clearbody h.
  apply (live_blob_urls_one _ (default 0%nat (extractorRef h))).
  intros j e Hj. destruct (Hall j e Hj) as [[Hc Hb] Hd]. split.
  - destruct (blobUrl (extractor e)); lia.
  - intros Hne.
    assert (Href : extractorRef h <> Some j).
    { intros Hk. rewrite Hk in Hne, Hlen. cbn in Hne. congruence. }
    rewrite (Hb (Hd Href)) in Hc. lia.
Qed.

End HookInvariant.

(** ** Runs of the hook *)

Section HookExtraction.
Import TimePoints FrameExtractor Extraction UseFrameExtractor HookRuns.

Lemma deliver_set_extractor (k j : nat) (ex : VideoFrameExtractor) (h : Hook)
    (o : Outcome) :
  deliver k (set_extractor j ex h) o = set_extractor j ex (deliver k h o).
Proof.
  destruct h as [? ? ? ? ? ? a ? ? ? ?]. destruct o, a; reflexivity.
Qed.

Lemma foldl_deliver_set_extractor (k j : nat) (ex : VideoFrameExtractor)
    (outcomes : list Outcome) :
  forall h,
  foldl (deliver k) (set_extractor j ex h) outcomes =
  set_extractor j ex (foldl (deliver k) h outcomes).
Proof.
  induction outcomes as [ | o outcomes IH]; intros h; simpl; [reflexivity | ].
  rewrite deliver_set_extractor. apply IH.
Qed.

Lemma set_extractor_twice (k : nat) (ex1 ex2 : VideoFrameExtractor) (h : Hook) :
  set_extractor k ex2 (set_extractor k ex1 h) = set_extractor k ex2 h.
Proof.
  unfold set_extractor. cbn. f_equal.
  rewrite list_alter_alter_eq. apply list_alter_ext; auto.
Qed.

Lemma foldl_deliver_keeps (k : nat) (outcomes : list Outcome) :
  forall h,
  frozen (foldl (deliver k) h outcomes) = frozen h /\
  extractions (foldl (deliver k) h outcomes) = extractions h.
Proof.
  induction outcomes as [ | o outcomes IH]; intros h; simpl; [auto | ].
  destruct (IH (deliver k h o)) as [-> ->].
  unfold deliver. destruct o; destruct (abortRef h); auto.
Qed.

Lemma foldl_continue_deliver (k : nat) (o : UseFrameExtractorOptions)
    (src : VideoSource) (outcomes : list Outcome) :
  Forall no_duration outcomes ->
  forall h,
  foldl (continue k o src) h outcomes = foldl (deliver k) h outcomes.
Proof.
  induction 1 as [ | out outcomes Hout _ IH]; intros h; simpl; [reflexivity | ].
  rewrite <- IH. destruct out; [reflexivity | destruct Hout | | ]; reflexivity.
Qed.

(** Events on the video of extraction [k], none of which makes
    [getDuration] return, take the hook to where the extractor's run takes
    it. *)
Lemma hook_run_video (k : nat) (src : VideoSource) (evs : list VideoEvent) :
  forall (h : Hook) (e : Extraction),
  frozen h = false ->
  extractions h !! k = Some e ->
  truthy_src (videoSrc (closure e)) = Some src ->
  Forall no_duration (run (extractor e) (events evs)).2 ->
  hook_run h (map (video k) evs) =
  foldl (deliver k) (set_extractor k (run (extractor e) (events evs)).1 h)
        (run (extractor e) (events evs)).2.
Proof.
  unfold hook_run.
  induction evs as [ | ev evs IH]; intros h e Hf Hk Hsrc Hno.
  - simpl. unfold set_extractor.
    destruct h; cbn in *. f_equal.
    symmetry. apply list_eq. intros j.
    rewrite list_lookup_alter. case_decide; [subst j | reflexivity].
    rewrite Hk. destruct e; reflexivity.
  - cbn [map foldl events run act] in *.
    unfold hook_step at 2. rewrite Hf, Hk, Hsrc.
    destruct (fire (extractor e) ev) as [ex1 o1] eqn:Hfire.
    specialize (IH (foldl (deliver k) (set_extractor k ex1 h) o1)
                   (mkExtraction (closure e) ex1)).
    cbn [extractor closure] in IH. fold (events evs) in *.
    destruct (run ex1 (events evs)) as [ex2 o2]. cbn [fst snd] in *.
    apply Forall_app in Hno as [Hno1 Hno2].
    rewrite foldl_continue_deliver by exact Hno1.
    rewrite IH; [ | | | exact Hsrc | exact Hno2].
    + rewrite foldl_app. f_equal.
      rewrite <- foldl_deliver_set_extractor, set_extractor_twice.
      reflexivity.
    + destruct (foldl_deliver_keeps k o1 (set_extractor k ex1 h)) as [-> _].
      exact Hf.
    + destruct (foldl_deliver_keeps k o1 (set_extractor k ex1 h)) as [_ ->].
      cbn. rewrite list_lookup_alter_eq, Hk. reflexivity.
Qed.

(** Progress reports reach the state and the caller one by one. *)
Lemma foldl_deliver_progress (k : nat) (ps : list Q) :
  forall h, abortRef h = false ->
  foldl (deliver k) h (map progress_called ps) =
  mkHook (frames h) (videoDuration h) (loading h)
    (default (progress h) (last ps)) (error h) (extractorRef h) false
    (callbacksRef h) (extractions h) (frozen h)
    (called h ++ if onProgress (callbacksRef h)
                 then map (onProgress_called k) ps else []).
Proof.
  induction ps as [ | p ps IH]; intros h Ha.
  - destruct h. cbn in *. subst. destruct (onProgress _); rewrite app_nil_r;
      reflexivity.
  - cbn [map foldl]. unfold deliver at 2. rewrite Ha.
    rewrite IH by reflexivity. cbn. rewrite last_cons. unfold call_back.
    f_equal.
    + destruct (last ps); reflexivity.
    + destruct (onProgress (callbacksRef h)); [ | reflexivity].
      rewrite <- app_assoc. reflexivity.
Qed.

Lemma captures_seeks (pictures : list string) :
  captures pictures = events (seeks pictures).
Proof. unfold captures, events, seeks. rewrite map_map. reflexivity. Qed.

(** The first [extractFrames] of a hook whose [duration] is given. *)
Lemma first_extractFrames (o : UseFrameExtractorOptions) (cbs : Callbacks)
    (src : VideoSource) (d : Q) (timePoints : list Q) :
  truthy_src (videoSrc o) = Some src ->
  truthy_duration (duration o) = Some d ->
  generateTimePoints (S (rounds d (frameInterval o))) d (frameInterval o)
    = Some timePoints ->
  hook_step (mount o cbs) (extractFrames_called o) =
  set_extractor 0 (extractFrames new_extractor src timePoints).1
    (first_started o cbs) /\
  (extractFrames new_extractor src timePoints).2 = [].
Proof.
  intros Hsrc Hd Htps.
  assert (H0 : (extractFrames new_extractor src timePoints).2 = []).
  { destruct src; reflexivity. }
  split; [ | exact H0].
  set (r := extractFrames new_extractor src timePoints) in *.
  assert (Hr : extractFrames new_extractor src timePoints = r) by reflexivity.
  clearbody r.
  unfold hook_step, extractFrames_hook. cbn [frozen mount]. rewrite Hsrc.
  change (dispose_current (set_abortRef true (mount o cbs)))
    with (mkHook [] (default 0 (duration o)) false 0 None None true cbs []
            false []).
  cbn [extractorRef extractions length frames videoDuration callbacksRef
       frozen called app].
  rewrite Hd. unfold extract_at. rewrite Htps.
  cbn [extractions lookup list_lookup extractor]. rewrite Hr.
  destruct r as [ex0 o0]. cbn in H0. subst o0. reflexivity.
Qed.

(** X17 (use-frame-extractor.ts, extractFrames, with frame-extractor.ts):
    a hook is mounted with a source and a duration for which
    [generateTimePoints] returns; the video loads and every capture draws.
    Then [frames] holds one frame for each time point, [loading] is off,
    there is no error, the progress stands at 100, and the caller has
    received, of what it listens to, one progress report for each time
    point in order and then the one completion with these frames. *)
Theorem hook_extraction_completes
    (o : UseFrameExtractorOptions) (cbs : Callbacks) (src : VideoSource)
    (d videoLength : Q) (timePoints : list Q) (pictures : list string) :
  truthy_src (videoSrc o) = Some src ->
  truthy_duration (duration o) = Some d ->
  generateTimePoints (S (rounds d (frameInterval o))) d (frameInterval o)
    = Some timePoints ->
  length pictures = length timePoints ->
  let h :=
    hook_run (mount o cbs)
      (extractFrames_called o ::
       map (video 0) (loadedmetadata videoLength :: seeks pictures)) in
  frames h = frames_of timePoints pictures /\
  loading h = false /\
  error h = None /\
  (timePoints <> [] -> progress h == 100) /\
  called h =
    (if onProgress cbs then progress_calls 0 timePoints else []) ++
    (if onComplete cbs
     then [onComplete_called 0 (frames_of timePoints pictures)] else []).
Proof.
  intros Hsrc Hd Htps Hlen h. subst h. unfold hook_run. cbn [foldl].
  destruct (first_extractFrames o cbs src d timePoints Hsrc Hd Htps)
    as [-> H0].
  pose proof (run_extraction_completes src timePoints pictures videoLength []
                Hlen) as Hrun.
  cbn [run act] in Hrun.
  destruct (extractFrames new_extractor src timePoints) as [ex0 o0].
  cbn [fst snd] in *. subst o0.
  change (events []) with (@nil Action) in Hrun.
  rewrite app_nil_r, captures_seeks in Hrun.
  assert (Hrun' :
    (run ex0 (events (loadedmetadata videoLength :: seeks pictures))).2 =
    progress_reports timePoints 0 (length timePoints) ++
    [frames_returned (frames_of timePoints pictures)]).
  { change (events (loadedmetadata videoLength :: seeks pictures))
      with (event (loadedmetadata videoLength) :: events (seeks pictures)).
    cbn [run act].
    destruct (fire ex0 (loadedmetadata videoLength)) as [ex1 o1].
    destruct (run ex1 (events (seeks pictures))) as [ex2 o2]. exact Hrun. }
  clear Hrun.
  fold (hook_run (set_extractor 0 ex0 (first_started o cbs))
          (map (video 0) (loadedmetadata videoLength :: seeks pictures))).
  rewrite (hook_run_video 0 src _ _ (mkExtraction o ex0));
    [ | reflexivity | reflexivity | exact Hsrc | ]; cbn [extractor].
  - destruct (run ex0 (events (loadedmetadata videoLength :: seeks pictures)))
      as [exF oF].
    cbn [fst snd app] in *. subst oF.
    rewrite foldl_app. unfold progress_reports.
    rewrite <- (map_map (percent timePoints) progress_called).
    rewrite foldl_deliver_progress by reflexivity.
    cbn. refine (conj eq_refl (conj eq_refl (conj eq_refl (conj _ _)))).
    + intros Hne. pose proof (percent_last timePoints Hne) as H100.
      destruct (length timePoints) as [ | n] eqn:Hn.
      { destruct timePoints; [congruence | discriminate]. }
      rewrite seq_S, map_app. cbn [map]. rewrite last_snoc. cbn.
      replace (S n - 1)%nat with n in H100 by lia. exact H100.
    + unfold call_back, progress_calls.
      rewrite <- (map_map (percent timePoints) (onProgress_called 0)).
      destruct (onProgress cbs), (onComplete cbs); rewrite ?app_nil_r;
        reflexivity.
  - rewrite Hrun'. apply Forall_app. split.
    + unfold progress_reports. apply Forall_map, Forall_forall.
      intros; exact I.
    + repeat constructor.
Qed.

Lemma hook_extraction_completes_witness :
  exists timePoints : list Q,
    generateTimePoints (S (rounds 10 2)) 10 2 = Some timePoints /\
    let pictures := ["p0"; "p1"; "p2"; "p3"; "p4"; "p5"] in
    let h :=
      hook_run (mount clip listening)
        (extractFrames_called clip ::
         map (video 0) (loadedmetadata 10 :: seeks pictures)) in
    frames h = frames_of timePoints pictures /\ loading h = false.
Proof.
  eexists. split; [vm_compute; reflexivity | ].
  intros pictures h.
  lazymatch goal with
  | |- _ = frames_of ?timePoints _ /\ _ =>
    destruct (hook_extraction_completes clip listening (url "/video.mp4")
                10 10 timePoints pictures)
      as (Hframes & Hloading & _)
  end;
    [reflexivity | reflexivity | vm_compute; reflexivity | reflexivity | ].
  exact (conj Hframes Hloading).
Defined.

Lemma dispose_current_fields (h : Hook) :
  dispose_current h =
  mkHook (frames h) (videoDuration h) (loading h) (progress h) (error h)
    (extractorRef h) (abortRef h) (callbacksRef h)
    (extractions (dispose_current h)) (frozen h) (called h) /\
  length (extractions (dispose_current h)) = length (extractions h).
Proof.
  destruct h as [fs vd l p e r a cbs xs fr c].
  unfold dispose_current, set_extractor. cbn.
  destruct r as [k | ]; [ | auto].
  destruct (xs !! k); [ | auto].
  cbn. rewrite length_alter. auto.
Qed.

(** The synchronous part of the hook's [extractFrames]: the new extractor
    is left loading the video, and nothing has been observed of it. *)
Lemma extractFrames_hook_started (o : UseFrameExtractorOptions) (h : Hook)
    (src : VideoSource) :
  truthy_src (videoSrc o) = Some src ->
  returns_time_points o ->
  exists ex0 : VideoFrameExtractor,
    (fire ex0 video_error).2 = [thrown load_error] /\
    extractFrames_hook o h =
      set_extractor (length (extractions h)) ex0 (restarted o h).
Proof.
  intros Hsrc Hret. unfold extractFrames_hook. rewrite Hsrc. cbv zeta.
  destruct (dispose_current_fields (set_abortRef true h)) as [Hfields Hlen].
  set (h1 := dispose_current (set_abortRef true h)) in *.
  cbn [extractions set_abortRef] in Hlen.
  rewrite Hfields.
  cbn [frames videoDuration callbacksRef frozen called extractions
       set_abortRef].
  rewrite Hlen. clear Hfields. subst h1. fold (restarted o h).
  assert (Hnew : extractions (restarted o h) !! length (extractions h) =
                 Some (mkExtraction o new_extractor)).
  { unfold restarted. cbn [extractions].
    apply list_lookup_middle. symmetry. exact Hlen. }
  unfold returns_time_points in Hret.
  destruct (truthy_duration (duration o)) as [d | ].
  - destruct Hret as [timePoints Htps]. unfold extract_at.
    rewrite Htps, Hnew. cbn [extractor].
    exists (extractFrames new_extractor src timePoints).1.
    split; destruct src; reflexivity.
  - exists (getDuration new_extractor src).1.
    split; destruct src; reflexivity.
Qed.

(** X18 (use-frame-extractor.ts, extractFrames): what a call of the
    hook's [extractFrames], by the effect or by [refresh()], has done when
    it first yields.  Without a source it has done nothing.  With one, and
    [generateTimePoints] returning, [loading] is on, the progress is 0, the
    error is cleared and [abortRef] is off; a new extractor has been built
    and is the current one; no callback has been called; and the frames of
    the extraction before are still the hook's [frames]. *)
Theorem extractFrames_restarts (o : UseFrameExtractorOptions) (h : Hook) :
  frozen h = false ->
  let h' := hook_step h (extractFrames_called o) in
  (truthy_src (videoSrc o) = None -> h' = h) /\
  (is_Some (truthy_src (videoSrc o)) -> returns_time_points o ->
   loading h' = true /\ progress h' = 0 /\ error h' = None /\
   abortRef h' = false /\
   extractorRef h' = Some (length (extractions h)) /\
   length (extractions h') = S (length (extractions h)) /\
   called h' = called h /\ frames h' = frames h).
Proof.
  intros Hf h'. subst h'. unfold hook_step. rewrite Hf. split.
  - intros Hsrc. unfold extractFrames_hook. rewrite Hsrc. reflexivity.
  - intros [src Hsrc] Hret.
    destruct (extractFrames_hook_started o h src Hsrc Hret) as (ex0 & _ & ->).
    unfold set_extractor, restarted. cbn.
    rewrite length_alter, length_app.
    destruct (dispose_current_fields (set_abortRef true h)) as [_ ->].
    cbn. refine (conj eq_refl (conj eq_refl (conj eq_refl (conj eq_refl
                   (conj eq_refl (conj _ (conj eq_refl eq_refl))))))).
    lia.
Qed.

Lemma extractFrames_restarts_witness :
  let failed :=
    hook_run (mount clip listening)
      [extractFrames_called clip; video 0 video_error] in
  error failed = Some load_error /\
  error (hook_step failed (extractFrames_called clip)) = None.
Proof.
  intros failed. split; [reflexivity | ].
  destruct (extractFrames_restarts clip failed eq_refl) as [_ H].
  destruct H as (_ & _ & He & _);
    [eexists; reflexivity | eexists; vm_compute; reflexivity | exact He].
Defined.

(** X19 (use-frame-extractor.ts, the catch of extractFrames): the video
    of the first extraction fails to load, whether the extraction was
    loading it for its duration or for its frames.  Then the hook's [error]
    is the load error, [loading] is off, there are no frames, and the
    caller's [onError], if there is one, has been called once with that
    error and nothing else has. *)
Theorem hook_load_failure (o : UseFrameExtractorOptions) (cbs : Callbacks) :
  is_Some (truthy_src (videoSrc o)) ->
  returns_time_points o ->
  let failed :=
    hook_run (mount o cbs) [extractFrames_called o; video 0 video_error] in
  error failed = Some load_error /\
  loading failed = false /\
  frames failed = [] /\
  progress failed = 0 /\
  called failed =
    if onError cbs then [onError_called 0 load_error] else [].
Proof.
  intros [src Hsrc] Hret failed.
  destruct (extractFrames_hook_started o (mount o cbs) src Hsrc Hret)
    as (ex0 & Hfire & Hstart).
  assert (E : failed =
    deliver 0
      (set_extractor 0 (fire ex0 video_error).1
         (set_extractor 0 ex0 (restarted o (mount o cbs))))
      (thrown load_error)).
  { subst failed. unfold hook_run. cbn [foldl].
    change (hook_step (mount o cbs) (extractFrames_called o))
      with (extractFrames_hook o (mount o cbs)).
    rewrite Hstart. unfold hook_step.
    change (frozen (set_extractor (length (extractions (mount o cbs))) ex0
                      (restarted o (mount o cbs)))) with false.
    change (extractions (set_extractor (length (extractions (mount o cbs)))
                           ex0 (restarted o (mount o cbs))) !! 0%nat)
      with (Some (mkExtraction o ex0)).
    cbn [closure extractor]. rewrite Hsrc.
    destruct (fire ex0 video_error) as [ex1 o1].
    cbn [fst snd] in *. subst o1. reflexivity. }
  rewrite E. cbn. unfold call_back. cbn.
  destruct (onError cbs); auto.
Qed.

Lemma hook_load_failure_witness :
  called (hook_run (mount clip listening)
            [extractFrames_called clip; video 0 video_error]) =
    [onError_called 0 load_error].
Proof.
  destruct (hook_load_failure clip listening) as (_ & _ & _ & _ & H);
    [eexists; reflexivity | eexists; vm_compute; reflexivity | exact H].
Defined.

(** The captures of extraction [k] all draw, from the first on. *)
Lemma hook_captures_complete (k : nat) (src : VideoSource)
    (timePoints : list Q) (pictures : list string) (h : Hook)
    (e : Extraction) :
  frozen h = false -> abortRef h = false ->
  extractions h !! k = Some e ->
  truthy_src (videoSrc (closure e)) = Some src ->
  capturing (extractor e) timePoints 0 [] ->
  pictures <> [] ->
  length pictures = length timePoints ->
  let h' := hook_run h (map (video k) (seeks pictures)) in
  frames h' = frames_of timePoints pictures /\
  videoDuration h' = videoDuration h /\
  loading h' = false /\
  error h' = error h /\
  called h' =
    called h ++
    (if onProgress (callbacksRef h) then progress_calls k timePoints else []) ++
    (if onComplete (callbacksRef h)
     then [onComplete_called k (frames_of timePoints pictures)] else []).
Proof.
  intros Hf Ha Hk Hsrc Hc Hne Hlen h'. subst h'.
  destruct (run_captures_to_end timePoints pictures (extractor e) 0%nat []
              Hc Hne Hlen) as (_ & _ & Hrun).
  rewrite captures_seeks in Hrun. cbn [app drop] in Hrun.
  rewrite (hook_run_video k src _ _ e Hf Hk Hsrc).
  - destruct (run (extractor e) (events (seeks pictures))) as [exF oF].
    cbn [fst snd] in *. subst oF.
    rewrite foldl_app. unfold progress_reports.
    rewrite <- (map_map (percent timePoints) progress_called).
    rewrite foldl_deliver_progress by exact Ha.
    cbn. unfold call_back, progress_calls. cbn. rewrite Hlen.
    rewrite <- (map_map (percent timePoints) (onProgress_called k)).
    rewrite <- app_assoc.
    destruct (onProgress (callbacksRef h)), (onComplete (callbacksRef h));
      cbn [app]; rewrite ?app_nil_r; auto.
  - rewrite Hrun. apply Forall_app. split.
    + unfold progress_reports. apply Forall_map, Forall_forall.
      intros; exact I.
    + repeat constructor.
Qed.

(** [getDuration] on a new extractor, and then the metadata of the
    video: the duration is returned, and [extractFrames] for the same
    source goes straight to its first capture. *)
Lemma getDuration_loaded (src : VideoSource) (d : Q) (timePoints : list Q) :
  let loaded := fire (getDuration new_extractor src).1 (loadedmetadata d) in
  loaded.2 = [duration_returned d] /\
  match timePoints with
  | [] => (extractFrames loaded.1 src timePoints).2 = [frames_returned []]
  | _ :: _ =>
    capturing (extractFrames loaded.1 src timePoints).1 timePoints 0 [] /\
    (extractFrames loaded.1 src timePoints).2 = []
  end.
Proof.
  intros loaded.
  assert (H : loaded.2 = [duration_returned d] /\
              isDisposed loaded.1 = false /\ currentSrc loaded.1 = Some src /\
              (1 <= readyState loaded.1)%nat /\
              currentLoadHandler loaded.1 = None).
  { subst loaded. destruct src; cbn; auto 10. }
  destruct H as (Ho & Hd & Hs & Hr & Hl).
  destruct loaded as [ex o]. cbn [fst snd] in *.
  split; [exact Ho | ].
  unfold extractFrames.
  rewrite Hd, (loadVideo_loaded ex src Hd Hs Hr).
  unfold extractFrames_loop. destruct timePoints as [ | t rest]; cbn.
  - reflexivity.
  - rewrite Hd. unfold capturing. cbn. rewrite Hd, Hl. eauto 10.
Qed.

(** X20 (use-frame-extractor.ts, extractFrames, with getDuration and
    loadVideo of frame-extractor.ts): a hook is mounted with a source and
    no duration.  When the video has loaded, [videoDuration] is the
    duration the video reports, the time points are generated for it, and
    the frames are captured from the video as it is, with no second load:
    once every capture has drawn, the hook has one frame for each time
    point and the caller has had its progress reports and its one
    completion. *)
Theorem hook_takes_duration_from_video
    (o : UseFrameExtractorOptions) (cbs : Callbacks) (src : VideoSource)
    (videoLength : Q) (timePoints : list Q) (pictures : list string) :
  truthy_src (videoSrc o) = Some src ->
  truthy_duration (duration o) = None ->
  generateTimePoints (S (rounds videoLength (frameInterval o))) videoLength
    (frameInterval o) = Some timePoints ->
  length pictures = length timePoints ->
  let h :=
    hook_run (mount o cbs)
      (extractFrames_called o ::
       map (video 0) (loadedmetadata videoLength :: seeks pictures)) in
  videoDuration h = videoLength /\
  frames h = frames_of timePoints pictures /\
  loading h = false /\
  error h = None /\
  called h =
    (if onProgress cbs then progress_calls 0 timePoints else []) ++
    (if onComplete cbs
     then [onComplete_called 0 (frames_of timePoints pictures)] else []).
Proof.
  intros Hsrc Hd Htps Hlen h. subst h. unfold hook_run. cbn [foldl map].
  assert (E1 : hook_step (mount o cbs) (extractFrames_called o) =
               set_extractor 0 (getDuration new_extractor src).1
                 (first_started o cbs)).
  { unfold hook_step, extractFrames_hook. cbn [frozen mount]. rewrite Hsrc.
    change (dispose_current (set_abortRef true (mount o cbs)))
      with (mkHook [] (default 0 (duration o)) false 0 None None true cbs []
              false []).
    cbn [extractorRef extractions length frames videoDuration callbacksRef
         frozen called app].
    rewrite Hd. destruct src; reflexivity. }
  rewrite E1. clear E1.
  set (loaded := hook_step _ (video 0 (loadedmetadata videoLength))).
  assert (E2 : exists (ex : VideoFrameExtractor) (outcomes : list Outcome),
            loaded =
              foldl (deliver 0)
                (set_extractor 0 ex
                   (mkHook [] videoLength true 0 None (Some 0%nat) false cbs
                      [mkExtraction o new_extractor] false []))
                outcomes /\
            match timePoints with
            | [] => outcomes = [frames_returned []]
            | _ :: _ => outcomes = [] /\ capturing ex timePoints 0 []
            end).
  { subst loaded. unfold hook_step.
    change (frozen (set_extractor 0 (getDuration new_extractor src).1
                      (first_started o cbs))) with false.
    change (extractions (set_extractor 0 (getDuration new_extractor src).1
                           (first_started o cbs)) !! 0%nat)
      with (Some (mkExtraction o (getDuration new_extractor src).1)).
    cbn [closure extractor]. rewrite Hsrc.
    destruct (getDuration_loaded src videoLength timePoints) as [Ho1 Hex].
    cbv zeta in Ho1, Hex.
    destruct (fire (getDuration new_extractor src).1
                   (loadedmetadata videoLength)) as [ex1 o1].
    cbn [fst snd] in *. subst o1. cbn [foldl continue].
    unfold extract_at. cbn [frameInterval]. rewrite Htps.
    lazymatch goal with
    | |- context [extractions ?hh !! 0%nat] =>
      change (extractions hh !! 0%nat) with (Some (mkExtraction o ex1))
    end.
    cbn [extractor].
    destruct (extractFrames ex1 src timePoints) as [ex2 o2].
    cbn [fst snd] in Hex. exists ex2, o2. split; [reflexivity | ].
    destruct timePoints; [exact Hex | ]. destruct Hex; auto. }
  destruct E2 as (ex & outcomes & -> & Hout).
  destruct timePoints as [ | t rest].
  - destruct pictures; [ | discriminate]. subst outcomes. cbn.
    unfold call_back, progress_calls. cbn.
    destruct (onProgress cbs), (onComplete cbs); auto.
  - destruct Hout as [-> Hc]. cbn [foldl].
    fold (hook_run (set_extractor 0 ex
                      (mkHook [] videoLength true 0 None (Some 0%nat) false
                         cbs [mkExtraction o new_extractor] false []))
            (map (video 0) (seeks pictures))).
    destruct (hook_captures_complete 0 src (t :: rest) pictures
                (set_extractor 0 ex
                   (mkHook [] videoLength true 0 None (Some 0%nat) false
                      cbs [mkExtraction o new_extractor] false []))
                (mkExtraction o ex))
      as (H1 & H2 & H3 & H4 & H5);
      [reflexivity | reflexivity | reflexivity | exact Hsrc | exact Hc
      | destruct pictures; discriminate | exact Hlen | ].
    cbn in H2, H4, H5. auto.
Qed.

Lemma hook_takes_duration_from_video_witness :
  exists timePoints : list Q,
    generateTimePoints (S (rounds 10 2)) 10 2 = Some timePoints /\
    let o := mkHookOptions (Some (url "/video.mp4")) None 2 50 in
    let pictures := ["p0"; "p1"; "p2"; "p3"; "p4"; "p5"] in
    let h :=
      hook_run (mount o listening)
        (extractFrames_called o ::
         map (video 0) (loadedmetadata 10 :: seeks pictures)) in
    videoDuration h = 10 /\ frames h = frames_of timePoints pictures.
Proof.
  eexists. split; [vm_compute; reflexivity | ].
  intros o pictures h.
  lazymatch goal with
  | |- _ /\ _ = frames_of ?timePoints _ =>
    destruct (hook_takes_duration_from_video o listening (url "/video.mp4")
                10 timePoints pictures)
      as (Hduration & Hframes & _)
  end;
    [reflexivity | reflexivity | vm_compute; reflexivity | reflexivity | ].
  exact (conj Hduration Hframes).
Defined.

End HookExtraction.

(** ** The renderer's cache and its tiles *)

Section RendererCacheReuse.
Import TimelineRenderer RendererCache.

Lemma filter_cached (cache : gmap string HTMLImageElement)
    (frames : list VideoFrame) :
  (forall frame, In frame frames -> is_Some (cache !! imageData frame)) ->
  filter (fun frame => cache !! imageData frame = None) frames = [].
Proof.
  induction frames as [ | frame frames IH]; intros H; [reflexivity | ].
  rewrite filter_cons. destruct (H frame (or_introl eq_refl)) as [img Himg].
  case_decide; [congruence | ].
  apply IH. intros f Hf. apply H. right. exact Hf.
Qed.

(** With every image in the cache nothing is loaded. *)
Lemma preloadFrameImages_cached (decodes : string -> bool)
    (cache : gmap string HTMLImageElement) (frames : list VideoFrame) :
  (forall frame, In frame frames -> is_Some (cache !! imageData frame)) ->
  preloadFrameImages decodes cache frames = (cache, fulfilled).
Proof.
  intros H. unfold preloadFrameImages. rewrite filter_cached by exact H.
  reflexivity.
Qed.

(** X21 (timeline-renderer.ts, render, drawFrames, preloadFrameImages,
    clearCache): a render that is fulfilled has every image of its frames
    in the cache, and drawing the same options again loads nothing:
    whatever would or would not decode by then, the second render is
    fulfilled, makes the same canvas calls and leaves the cache as it is.
    After [clearCache()] the same render is fulfilled only if every image
    decodes again. *)
Theorem render_reuses_cache (decodes again : string -> bool)
    (frameImages : gmap string HTMLImageElement) (o : RenderOptions) :
  (render decodes frameImages o).2 = fulfilled ->
  let cache := (render decodes frameImages o).1.1 in
  (forall frame, In frame (frames o) -> is_Some (cache !! imageData frame)) /\
  render again cache o =
    (cache, (render decodes frameImages o).1.2, fulfilled) /\
  ((render again (clearCache cache) o).2 = fulfilled <->
   forall frame, In frame (frames o) -> again (imageData frame) = true).
Proof.
  intros Hok cache. subst cache.
  assert (Hclear :
    (render again (clearCache (render decodes frameImages o).1.1) o).2
      = fulfilled <->
    forall frame, In frame (frames o) -> again (imageData frame) = true).
  { unfold render, drawFrames, clearCache.
    destruct (frames o) as [ | f fs] eqn:Hfs.
    - cbn. split; [intros _ frame [] | reflexivity].
    - pose proof (preloadFrameImages_settled again ∅ (f :: fs)) as Hs.
      destruct (preloadFrameImages again ∅ (f :: fs)) as [c [ | ] ];
        cbn [fst snd] in *.
      + split; [intros _ | reflexivity].
        intros frame Hin. destruct (proj1 Hs eq_refl frame Hin) as [Hc | Hd];
          [ | exact Hd].
        rewrite lookup_empty in Hc. destruct Hc; discriminate.
      + split; [discriminate | ]. intros Hall.
        apply Hs. intros frame Hin. right. apply Hall, Hin. }
  refine (conj _ (conj _ Hclear)); clear Hclear;
    unfold render, drawFrames in *.
  - destruct (frames o) as [ | f fs] eqn:Hfs; [intros frame [] | ].
    pose proof (preloadFrameImages_fulfilled decodes frameImages (f :: fs))
      as Hf.
    destruct (preloadFrameImages decodes frameImages (f :: fs))
      as [c [ | ] ]; cbn [fst snd] in *; [ | discriminate].
    apply Hf. reflexivity.
  - destruct (frames o) as [ | f fs] eqn:Hfs; [reflexivity | ].
    pose proof (preloadFrameImages_fulfilled decodes frameImages (f :: fs))
      as Hf.
    destruct (preloadFrameImages decodes frameImages (f :: fs))
      as [c [ | ] ]; cbn [fst snd] in *; [ | discriminate].
    rewrite (preloadFrameImages_cached again c (f :: fs) (Hf eq_refl)).
    reflexivity.
Qed.

Lemma render_reuses_cache_witness :
  let first := render (fun _ => true) ∅ two_frames in
  render (fun _ => false) first.1.1 two_frames =
    (first.1.1, first.1.2, fulfilled).
Proof.
  intros first.
  destruct (render_reuses_cache (fun _ => true) (fun _ => false) ∅ two_frames)
    as (_ & H & _); [reflexivity | exact H].
Defined.

(** X22 (timeline-renderer.ts, drawFrames): the tiles of a fulfilled
    [drawFrames] lie side by side and cover the track: there is one for
    each frame, the first begins at [handleWidth], each one begins where
    the one before ends, and the last ends at [width - handleWidth]; all
    have the same width.  A frame is thus placed by its index alone. *)
Theorem frame_tiles_cover_track (decodes : string -> bool)
    (frameImages : gmap string HTMLImageElement) (o : RenderOptions) :
  frames o <> [] ->
  let offsetY := if showTimeScale o then scaleHeight o else 0 in
  let drawn :=
    drawFrames decodes frameImages (frames o) (duration o) (width o)
               offsetY (frameHeight o) (handleWidth o) in
  drawn.2 = fulfilled ->
  length drawn.1.2 = length (frames o) /\
  forall (i : nat) (tile : CanvasCall),
    drawn.1.2 !! i = Some tile ->
    exists l r : Q,
      left_edge tile = Some l /\ right_edge tile = Some r /\
      r - l == (width o - handleWidth o * 2) /
               inject_Z (Z.of_nat (length (frames o))) /\
      (i = 0%nat -> l == handleWidth o) /\
      (S i = length (frames o) -> r == width o - handleWidth o) /\
      (forall next, drawn.1.2 !! S i = Some next ->
         exists l', left_edge next = Some l' /\ l' == r).
Proof.
  intros Hne offsetY drawn Hok. subst drawn. unfold drawFrames in *.
  pose proof (preloadFrameImages_fulfilled decodes frameImages (frames o))
    as Hf.
  destruct (preloadFrameImages decodes frameImages (frames o))
    as [cache [ | ] ]; cbn [fst snd] in *; [ | discriminate].
  set (frameWidth := (width o - handleWidth o * 2) /
                     inject_Z (Z.of_nat (length (frames o)))) in *.
  destruct (drawFrames_loop_tiles cache frameWidth offsetY (frameHeight o)
              (handleWidth o) (frames o) 0 (Hf eq_refl)) as [Hlen Hat].
  split; [exact Hlen | ].
  intros i tile Hi.
  assert (Hlt : (i < length (frames o))%nat).
  { rewrite <- Hlen. apply lookup_lt_Some in Hi. exact Hi. }
  destruct (lookup_lt_is_Some_2 (frames o) i Hlt) as [frame Hframe].
  destruct (Hat i frame Hframe) as (img & _ & Htile).
  rewrite Htile in Hi. injection Hi as <-. cbn [left_edge right_edge].
  eexists. eexists.
  refine (conj eq_refl (conj eq_refl (conj _ (conj _ (conj _ _))))).
  - subst frameWidth. ring.
  - intros ->. cbn. ring.
  - intros Hlast. cbn [Nat.add]. subst frameWidth. rewrite <- Hlast.
    rewrite inject_Z_succ. field.
    rewrite <- inject_Z_succ. change 0 with (inject_Z 0).
    rewrite inject_Z_injective. lia.
  - intros next Hnext.
    assert (Hlt' : (S i < length (frames o))%nat).
    { rewrite <- Hlen. apply lookup_lt_Some in Hnext. exact Hnext. }
    destruct (lookup_lt_is_Some_2 (frames o) (S i) Hlt') as [frame' Hframe'].
    destruct (Hat (S i) frame' Hframe') as (img' & _ & Htile').
    rewrite Htile' in Hnext. injection Hnext as <-. cbn [left_edge].
    eexists. split; [reflexivity | ]. cbn [Nat.add].
    rewrite inject_Z_succ. ring.
Qed.

Lemma frame_tiles_cover_track_witness :
  let drawn := drawFrames (fun _ => true) ∅ (frames two_frames) 10 420 27 50 16 in
  length drawn.1.2 = 2%nat.
Proof.
  intros drawn.
  destruct (frame_tiles_cover_track (fun _ => true) ∅ two_frames)
    as [H _]; [discriminate | reflexivity | exact H].
Defined.

End RendererCacheReuse.

(** ** The time scale *)

Section TimeScaleTicks.
Import TimeScale.

Lemma first_interval_sorted (rawInterval : Q) (candidates : list Q) :
  StronglySorted Qle candidates ->
  (In (first_interval rawInterval candidates) candidates /\
   rawInterval <= first_interval rawInterval candidates /\
   forall c, In c candidates -> rawInterval <= c ->
             first_interval rawInterval candidates <= c) \/
  (first_interval rawInterval candidates = 600 /\
   forall c, In c candidates -> c < rawInterval).
Proof.
  induction 1 as [ | c0 rest Hsorted IH Hall]; cbn [first_interval].
  - right. split; [reflexivity | intros c [] ].
  - destruct (Qle_bool rawInterval c0) eqn:Hle.
    + left. apply Qle_bool_iff in Hle.
      refine (conj (or_introl eq_refl) (conj Hle _)).
      intros c [<- | Hin] _; [apply Qle_refl | ].
      rewrite Forall_forall in Hall. apply Hall. apply list_elem_of_In, Hin.
    + apply Qle_bool_false in Hle.
      destruct IH as [(Hin & Hraw & Hmin) | [H600 Hbelow] ].
      * left. refine (conj (or_intror Hin) (conj Hraw _)).
        intros c [<- | Hc] Hrc; [lra | apply Hmin; assumption].
      * right. split; [exact H600 | ].
        intros c [<- | Hc]; [exact Hle | apply Hbelow, Hc].
Qed.

Lemma intervals_sorted : StronglySorted Qle intervals.
Proof.
  unfold intervals.
  repeat (constructor; [ | repeat (constructor; [discriminate | ]); constructor]).
  constructor.
Qed.

Lemma intervals_bounds (c : Q) : In c intervals -> 1 # 2 <= c /\ c <= 600.
Proof.
  unfold intervals. cbn [In].
  intros H; repeat (destruct H as [<- | H]; [split; discriminate | ]).
  destruct H.
Qed.

Lemma calculateScaleInterval_cases (duration : Q) :
  let interval := calculateScaleInterval duration in
  (In interval intervals /\ duration / 7 <= interval /\
   forall c, In c intervals -> duration / 7 <= c -> interval <= c) \/
  (interval = 600 /\ 4200 < duration).
Proof.
  intros interval. subst interval. unfold calculateScaleInterval.
  destruct (first_interval_sorted (duration / 7) intervals intervals_sorted)
    as [H | [H600 Hbelow] ]; [left; exact H | right].
  split; [exact H600 | ].
  assert (H : 600 < duration / 7).
  { apply Hbelow. unfold intervals. cbn. tauto. }
  assert (H7 : duration == 7 * (duration / 7)) by field.
  set (raw := duration / 7) in *. clearbody raw. lra.
Qed.

Lemma Qfloor_ge (z : Z) (x : Q) : inject_Z z <= x -> (z <= Qfloor x)%Z.
Proof. intros H. rewrite <- (Qfloor_Z z). apply Qfloor_resp_le, H. Qed.

Lemma Qfloor_le_Z (z : Z) (x : Q) : x <= inject_Z z -> (Qfloor x <= z)%Z.
Proof. intros H. rewrite <- (Qfloor_Z z). apply Qfloor_resp_le, H. Qed.

(** X23 (timeline-renderer.ts, calculateScaleInterval and the tick count
    of drawTimeScale): for a positive duration the interval is one of the
    eleven candidates.  Up to 4200 seconds it is the smallest candidate
    that is at least a seventh of the duration, and [tickCount] is at most
    7, and at least 2 once the duration is above 3.5 seconds; past 4200
    seconds the interval is 600 and [tickCount] exceeds 7. *)
Theorem calculateScaleInterval_ticks (duration : Q) :
  0 < duration ->
  let interval := calculateScaleInterval duration in
  In interval intervals /\
  (duration <= 4200 ->
   duration / 7 <= interval /\
   (forall c, In c intervals -> duration / 7 <= c -> interval <= c) /\
   (0 <= tickCount duration <= 7)%Z /\
   (7 # 2 < duration -> (2 <= tickCount duration)%Z)) /\
  (4200 < duration -> interval = 600 /\ (7 <= tickCount duration)%Z).
Proof.
  intros Hpos interval.
  pose proof (calculateScaleInterval_cases duration) as Hcases.
  cbv zeta in Hcases. fold interval in Hcases.
  unfold tickCount. fold interval.
  assert (H7 : duration == 7 * (duration / 7)) by field.
  set (raw := duration / 7) in *. clearbody raw.
  destruct Hcases as [(Hin & Hraw & Hmin) | [H600 Hbig] ].
  - pose proof (intervals_bounds interval Hin) as [Hlo Hhi].
    refine (conj Hin (conj _ _)).
    + intros _. refine (conj Hraw (conj Hmin (conj _ _))).
      * split.
        -- apply Qfloor_ge. change (inject_Z 0) with 0.
           apply Qle_shift_div_l; lra.
        -- apply Qfloor_le_Z. change (inject_Z 7) with 7.
           apply Qle_shift_div_r; lra.
      * intros Hlong. apply Qfloor_ge. change (inject_Z 2) with 2.
        apply Qle_shift_div_l; [lra | ].
        assert (Hprev : forall c, In c intervals -> c < interval ->
                                  c < raw).
        { intros c Hc Hlt. destruct (Qlt_le_dec c raw) as [ | Hle];
            [assumption | ].
          specialize (Hmin c Hc Hle). lra. }
        clearbody interval. unfold intervals in Hin, Hprev. cbn [In] in Hin.
        repeat (destruct Hin as [<- | Hin];
                [ first
                    [ lra
                    | match goal with
                      | |- 2 * ?c <= _ =>
                        first
                          [ assert (1 # 2 < raw)
                              by (apply Hprev; [cbn; tauto | reflexivity]); lra
                          | assert (1 < raw)
                              by (apply Hprev; [cbn; tauto | reflexivity]); lra
                          | assert (2 < raw)
                              by (apply Hprev; [cbn; tauto | reflexivity]); lra
                          | assert (5 < raw)
                              by (apply Hprev; [cbn; tauto | reflexivity]); lra
                          | assert (10 < raw)
                              by (apply Hprev; [cbn; tauto | reflexivity]); lra
                          | assert (15 < raw)
                              by (apply Hprev; [cbn; tauto | reflexivity]); lra
                          | assert (30 < raw)
                              by (apply Hprev; [cbn; tauto | reflexivity]); lra
                          | assert (60 < raw)
                              by (apply Hprev; [cbn; tauto | reflexivity]); lra
                          | assert (120 < raw)
                              by (apply Hprev; [cbn; tauto | reflexivity]); lra
                          | assert (300 < raw)
                              by (apply Hprev; [cbn; tauto | reflexivity]); lra ]
                      end ]
                | ]).
        destruct Hin.
    + intros Hbig. lra.
  - refine (conj _ (conj _ _)).
    + rewrite H600. unfold intervals. cbn. tauto.
    + intros Hsmall. lra.
    + intros _. split; [exact H600 | ].
      apply Qfloor_ge. change (inject_Z 7) with 7. rewrite H600.
      apply Qle_shift_div_l; lra.
Qed.

Lemma calculateScaleInterval_ticks_witness :
  calculateScaleInterval 10 = 2 /\ (2 <= tickCount 10 <= 7)%Z.
Proof.
  split; [reflexivity | ].
  destruct (calculateScaleInterval_ticks 10 eq_refl) as (_ & H & _).
  destruct H as (_ & _ & Hle & Hge); [discriminate | ].
  split; [apply Hge; reflexivity | apply Hle].
Defined.

(** The loop of [drawTimeScale] does not reach its [break]: every round
    draws its tick and its label, between the handles. *)
Lemma drawTimeScale_loop_ticks
    (duration interval effectiveWidth scaleHeight handleWidth : Q) (n : nat) :
  0 < duration -> 0 < interval -> 0 <= effectiveWidth ->
  forall i : Z,
  (0 <= i)%Z ->
  inject_Z (i + Z.of_nat n - 1) * interval <= duration ->
  let calls :=
    drawTimeScale_loop n i duration interval effectiveWidth scaleHeight
                       handleWidth in
  length (List.filter is_tick calls) = n /\
  Forall (fun c => handleWidth <= call_x c <= handleWidth + effectiveWidth)
         calls.
Proof.
  intros Hd Hi Hw. induction n as [ | n IH]; intros i Hi0 Hlast; cbn zeta.
  - split; [reflexivity | constructor].
  - cbn [drawTimeScale_loop].
    assert (Hle : inject_Z i * interval <= duration).
    { apply Qle_trans with (inject_Z (i + Z.of_nat (S n) - 1) * interval);
        [ | exact Hlast].
      apply Qmult_le_compat_r; [ | lra]. rewrite <- Zle_Qle. lia. }
    assert (H0 : 0 <= inject_Z i * interval).
    { apply Qmult_le_0_compat; [ | lra].
      change 0 with (inject_Z 0). rewrite <- Zle_Qle. exact Hi0. }
    destruct (Qlt_bool duration (inject_Z i * interval)) eqn:Hbreak.
    { apply Qlt_bool_iff in Hbreak. lra. }
    destruct (IH (i + 1)%Z ltac:(lia)) as [Hn Hall].
    { replace (i + 1 + Z.of_nat n - 1)%Z with (i + Z.of_nat (S n) - 1)%Z
        by lia. exact Hlast. }
    cbn [List.filter is_tick length]. split; [rewrite Hn; reflexivity | ].
    assert (Hx : handleWidth <=
                 handleWidth + inject_Z i * interval / duration * effectiveWidth
                 <= handleWidth + effectiveWidth).
    { set (r := inject_Z i * interval / duration).
      assert (Hr : 0 <= r <= 1).
      { subst r. split.
        - apply Qle_shift_div_l; lra.
        - apply Qle_shift_div_r; lra. }
      clearbody r. nra. }
    constructor; [exact Hx | ]. constructor; [exact Hx | exact Hall].
Qed.

(** X24 (timeline-renderer.ts, drawTimeScale): for a positive duration on
    a canvas at least two handles wide, the scale has a tick at every
    multiple of the interval from 0 to [tickCount] times the interval, none
    being cut off by the [break], and the tick of the end of the video:
    [tickCount + 2] ticks.  Every tick and every label lies between the two
    handles. *)
Theorem drawTimeScale_ticks (duration width scaleHeight handleWidth : Q) :
  0 < duration -> handleWidth * 2 <= width ->
  let calls := drawTimeScale duration width scaleHeight handleWidth in
  length (List.filter is_tick calls) = Z.to_nat (tickCount duration + 2) /\
  Forall (fun c => handleWidth <= call_x c <= width - handleWidth) calls.
Proof.
  intros Hd Hw calls. subst calls. unfold drawTimeScale, tickCount.
  assert (Hi : 0 < calculateScaleInterval duration).
  { destruct (calculateScaleInterval_cases duration) as [(Hin & _) | [H _] ].
    - destruct (intervals_bounds _ Hin). lra.
    - rewrite H. reflexivity. }
  set (interval := calculateScaleInterval duration) in *. clearbody interval.
  set (effectiveWidth := width - handleWidth * 2).
  assert (Hq : 0 <= duration / interval) by (apply Qle_shift_div_l; lra).
  assert (H0 : (0 <= Qfloor (duration / interval))%Z).
  { apply Qfloor_ge. exact Hq. }
  destruct (drawTimeScale_loop_ticks duration interval effectiveWidth
              scaleHeight handleWidth
              (Z.to_nat (Qfloor (duration / interval) + 1))
              Hd Hi ltac:(subst effectiveWidth; lra) 0%Z ltac:(lia))
    as [Hn Hall].
  { rewrite Z2Nat.id by lia.
    replace (0 + (Qfloor (duration / interval) + 1) - 1)%Z
      with (Qfloor (duration / interval)) by lia.
    pose proof (Qfloor_le (duration / interval)) as Hfl.
    apply Qle_trans with (duration / interval * interval).
    - apply Qmult_le_compat_r; lra.
    - assert (E : duration / interval * interval == duration)
        by (field; lra).
      rewrite E. apply Qle_refl. }
  assert (Hend : handleWidth <= handleWidth + effectiveWidth
                 <= width - handleWidth)
    by (subst effectiveWidth; lra).
  split.
  - rewrite !List.filter_app, !length_app, Hn. cbn [List.filter is_tick length].
    destruct (Qlt_bool _ _); cbn [List.filter is_tick length]; lia.
  - apply Forall_app. split.
    + eapply Forall_impl; [exact Hall | ]. cbn. intros c Hc. lra.
    + apply Forall_app. split; [repeat constructor; cbn; lra | ].
      destruct (Qlt_bool _ _); repeat constructor; cbn; lra.
Qed.

Lemma drawTimeScale_ticks_witness :
  length (List.filter is_tick (drawTimeScale 10 420 27 16)) = 7%nat.
Proof.
  destruct (drawTimeScale_ticks 10 420 27 16) as [H _];
    [reflexivity | discriminate | exact H].
Defined.

End TimeScaleTicks.

(** ** The selection on the canvas *)

Section SelectionOnCanvas.
Import DragInteraction SelectionGeometry.

Lemma fraction_bounds (t duration : Q) :
  0 < duration -> 0 <= t <= duration -> 0 <= t / duration <= 1.
Proof.
  intros Hd [H0 H1]. split.
  - apply Qle_shift_div_l; lra.
  - apply Qle_shift_div_r; lra.
Qed.

(** X25 (timeline-renderer.ts, drawSelectionMask, drawHandles,
    drawHandle, drawCursor): for a selection inside the video,
    [0 <= start <= end <= duration], on a canvas at least two handles
    wide, the left mask, the border of the selection and the right mask
    follow one another without gap or overlap from [handleWidth] to
    [width - handleWidth], none of negative width; the start handle ends
    where the selection begins and the end handle begins where it ends,
    and both lie on the canvas; the stripe of a handle is centred in it;
    and the play head is centred on the column of the current time. *)
Theorem selection_drawn_in_track (range : TimeRange)
    (duration currentTime width offsetY frameHeight handleWidth : Q) :
  0 < duration -> 0 <= handleWidth -> handleWidth * 2 <= width ->
  0 <= start range -> start range <= end_ range -> end_ range <= duration ->
  let mask :=
    drawSelectionMask range duration width offsetY frameHeight handleWidth in
  let handles :=
    drawHandles range duration width offsetY frameHeight handleWidth in
  let head :=
    drawCursor currentTime duration width (offsetY - 10) (frameHeight + 20)
               handleWidth in
  (0 <= rw (leftMask mask) /\ 0 <= rw (border mask) /\
   0 <= rw (rightMask mask)) /\
  (rx (leftMask mask) == handleWidth /\
   right (leftMask mask) == rx (border mask) /\
   right (border mask) == rx (rightMask mask) /\
   right (rightMask mask) == width - handleWidth) /\
  (0 <= rx (body handles.1) /\
   right (body handles.1) == rx (border mask) /\
   rx (body handles.2) == right (border mask) /\
   right (body handles.2) <= width) /\
  (rx (stripe handles.1) - rx (body handles.1) ==
     right (body handles.1) - right (stripe handles.1) /\
   ry (stripe handles.1) - ry (body handles.1) ==
     (ry (body handles.1) + rh (body handles.1)) -
     (ry (stripe handles.1) + rh (stripe handles.1))) /\
  rx head + rw head / 2 ==
    handleWidth + currentTime / duration * (width - handleWidth * 2).
Proof.
  intros Hd Hh Hw H0 Hse He mask handles head.
  subst mask handles head.
  unfold drawSelectionMask, drawHandles, drawHandle, drawCursor, right.
  cbn [leftMask rightMask border body stripe rx ry rw rh fst snd].
  destruct (fraction_bounds (start range) duration Hd ltac:(lra)) as [Hs0 Hs1].
  destruct (fraction_bounds (end_ range) duration Hd ltac:(lra)) as [He0 He1].
  assert (Hord : start range / duration <= end_ range / duration).
  { unfold Qdiv. apply Qmult_le_compat_r; [exact Hse | ].
    apply Qlt_le_weak, Qinv_lt_0_compat, Hd. }
  set (s := start range / duration) in *.
  set (e := end_ range / duration) in *.
  set (c := currentTime / duration).
  set (w := width - handleWidth * 2).
  assert (Hw0 : 0 <= w) by (subst w; lra).
  assert (Hwidth : width == w + handleWidth * 2) by (subst w; ring).
  clearbody s e c w.
  assert (0 <= s * w) by (apply Qmult_le_0_compat; lra).
  assert (s * w <= e * w) by (apply Qmult_le_compat_r; lra).
  assert (e * w <= 1 * w) by (apply Qmult_le_compat_r; lra).
  refine (conj _ (conj _ (conj _ (conj _ _)))).
  - refine (conj _ (conj _ _)); lra.
  - refine (conj _ (conj _ (conj _ _))); lra.
  - refine (conj _ (conj _ (conj _ _))); lra.
  - split; field.
  - field.
Qed.

Lemma selection_drawn_in_track_witness :
  let mask := drawSelectionMask (mkRange 2 8) 10 420 27 50 16 in
  right (leftMask mask) == rx (border mask) /\
  right (rightMask mask) == 420 - 16.
Proof.
  intros mask.
  destruct (selection_drawn_in_track (mkRange 2 8) 10 0 420 27 50 16)
    as (_ & (_ & Hleft & _ & Hright) & _);
    [reflexivity | discriminate | discriminate | discriminate | discriminate
    | discriminate | ].
  exact (conj Hleft Hright).
Defined.

(** X26 (use-drag-interaction.ts, detectHitArea, against
    timeline-renderer.ts, drawHandles): the hook is given the canvas the
    renderer draws on.  A press on the drawn start handle, inside the frame
    rows, hits the start handle; one on the drawn end handle and off the
    start handle hits the end handle.  The handles are drawn one pixel
    higher and one pixel lower than the frame rows: a press on the upper
    overhang falls into the time scale and moves the play head, or hits
    nothing when there is no scale, and a press on the lower overhang hits
    nothing. *)
Theorem handles_hit_where_drawn (o : UseDragInteractionOptions)
    (canvas : HTMLCanvasElement) (clientX clientY : Q) :
  canvasRef o = Some canvas ->
  0 <= scaleHeight o -> 0 <= frameHeight o ->
  let x := clientX - rect_left canvas in
  let y := clientY - rect_top canvas in
  let handles :=
    SelectionGeometry.drawHandles (selectedRange o) (duration o)
      (offsetWidth canvas) (scaleHeight o) (frameHeight o) (handleWidth o) in
  let in_frames := scaleHeight o <= y /\ y <= scaleHeight o + frameHeight o in
  let on_start := on_rect (body handles.1) x y in
  let on_end := on_rect (body handles.2) x y in
  (on_start -> in_frames ->
   detectHitArea o clientX clientY = Some (hit start_handle)) /\
  (on_end -> in_frames -> ~ on_start ->
   detectHitArea o clientX clientY = Some (hit end_handle)) /\
  (on_start \/ on_end -> y < scaleHeight o ->
   detectHitArea o clientX clientY =
     if Qle_bool 0 y then Some (hit cursor) else None) /\
  (on_start \/ on_end -> scaleHeight o + frameHeight o < y ->
   detectHitArea o clientX clientY = None).
Proof.
  intros Hc Hs Hf x y handles in_frames on_start on_end.
  subst handles in_frames on_start on_end.
  unfold SelectionGeometry.drawHandles, drawHandle, on_rect, detectHitArea.
  rewrite Hc. cbn [body rx ry rw rh fst snd]. fold x y.
  set (startX := handleWidth o + start (selectedRange o) / duration o *
                 (offsetWidth canvas - handleWidth o * 2)).
  set (endX := handleWidth o + end_ (selectedRange o) / duration o *
               (offsetWidth canvas - handleWidth o * 2)).
  clearbody startX endX x y.
  refine (conj _ (conj _ (conj _ _))).
  - intros [Hx Hy] Hin. bool_cases; cbn; try reflexivity; exfalso; lra.
  - intros [Hx Hy] Hin Hnot. bool_cases; cbn; try reflexivity; exfalso;
      try lra; apply Hnot; lra.
  - intros _ Hy. bool_cases; cbn; try reflexivity; exfalso; lra.
  - intros _ Hy. bool_cases; cbn; try reflexivity; exfalso; lra.
Qed.

Lemma handles_hit_where_drawn_witness :
  detectHitArea (demo_options (mkRange 2 8) 1) 90 50
    = Some (hit start_handle) /\
  detectHitArea (demo_options (mkRange 2 8) 1) 90 (155 # 2) = None.
Proof.
  destruct (handles_hit_where_drawn (demo_options (mkRange 2 8) 1)
              demo_canvas 90 50 eq_refl) as (H & _);
    [discriminate | discriminate | ].
  destruct (handles_hit_where_drawn (demo_options (mkRange 2 8) 1)
              demo_canvas 90 (155 # 2) eq_refl) as (_ & _ & _ & H');
    [discriminate | discriminate | ].
  split.
  - apply H; unfold on_rect; cbn; repeat split; discriminate.
  - apply H'; [left; unfold on_rect; cbn; repeat split; discriminate
              | reflexivity].
Defined.

End SelectionOnCanvas.

(** ** Times as text *)

Section TimeAsText.
Import TimeFormat TimeText.

Lemma Qfloor_unique (z : Z) (x : Q) :
  inject_Z z <= x -> x < inject_Z (z + 1) -> Qfloor x = z.
Proof.
  intros Hlo Hhi.
  pose proof (Qfloor_le x) as H1. pose proof (Qlt_floor x) as H2.
  assert (inject_Z (Qfloor x) < inject_Z (z + 1)) as H3 by lra.
  assert (inject_Z z < inject_Z (Qfloor x + 1)) as H4 by lra.
  rewrite <- Zlt_Qlt in H3, H4. lia.
Qed.

(** The minutes printed are the whole seconds divided by 60. *)
Lemma minutes_of_whole (x : Q) :
  0 <= x -> Qfloor (x / 60) = (Qfloor x / 60)%Z.
Proof.
  intros Hx. pose proof (Qfloor_le x) as H1. pose proof (Qlt_floor x) as H2.
  set (w := Qfloor x) in *.
  pose proof (Z.div_mod w 60 ltac:(lia)) as Hdm.
  pose proof (Z.mod_pos_bound w 60 ltac:(lia)) as Hm.
  set (q := (w / 60)%Z) in *. set (r := (w mod 60)%Z) in *.
  assert (Hw : inject_Z w == 60 * inject_Z q + inject_Z r).
  { rewrite Hdm, inject_Z_plus, inject_Z_mult. reflexivity. }
  assert (Hr0 : 0 <= inject_Z r).
  { change 0 with (inject_Z 0). rewrite <- Zle_Qle. lia. }
  assert (Hr1 : inject_Z r + 1 <= 60).
  { change 1 with (inject_Z 1). change 60 with (inject_Z 60).
    rewrite <- inject_Z_plus, <- Zle_Qle. lia. }
  rewrite inject_Z_plus in H2. change (inject_Z 1) with 1 in H2.
  apply Qfloor_unique.
  - apply Qle_shift_div_l; lra.
  - rewrite inject_Z_plus. change (inject_Z 1) with 1.
    apply Qlt_shift_div_r; lra.
Qed.

(** The seconds printed are the whole seconds modulo 60, and what is
    left of the remainder is the fraction of the second. *)
Lemma seconds_of_whole (x : Q) :
  0 <= x ->
  Qfloor (rem60 x) = (Qfloor x mod 60)%Z /\
  rem60 x - inject_Z (Qfloor (rem60 x)) == x - inject_Z (Qfloor x).
Proof.
  intros Hx. unfold rem60, trunc.
  assert (Hq : 0 <= x / 60) by (apply Qle_shift_div_l; lra).
  destruct (Qlt_bool (x / 60) 0) eqn:E;
    [apply Qlt_bool_iff in E; lra | clear E].
  rewrite minutes_of_whole by exact Hx.
  pose proof (Qfloor_le x) as H1. pose proof (Qlt_floor x) as H2.
  set (w := Qfloor x) in *.
  pose proof (Z.div_mod w 60 ltac:(lia)) as Hdm.
  set (q := (w / 60)%Z) in *. set (r := (w mod 60)%Z) in *.
  assert (Hw : inject_Z w == 60 * inject_Z q + inject_Z r).
  { rewrite Hdm, inject_Z_plus, inject_Z_mult. reflexivity. }
  rewrite inject_Z_plus in H2. change (inject_Z 1) with 1 in H2.
  assert (Hfl : Qfloor (x - 60 * inject_Z q) = r).
  { apply Qfloor_unique.
    - lra.
    - rewrite inject_Z_plus. change (inject_Z 1) with 1. lra. }
  split; [exact Hfl | ]. rewrite Hfl. lra.
Qed.

Lemma length_append (s1 s2 : string) :
  String.length (s1 +:+ s2) = (String.length s1 + String.length s2)%nat.
Proof.
  induction s1 as [ | c s1 IH]; [reflexivity | ].
  change (String c s1 +:+ s2) with (String c (s1 +:+ s2)).
  cbn [String.length]. rewrite IH. reflexivity.
Qed.

(** Two digits for every number below 100. *)
Lemma padStart2_length (n : Z) :
  (0 <= n < 100)%Z -> String.length (padStart2 (toString n)) = 2%nat.
Proof.
  intros Hn.
  assert (H : forallb
                (fun k => Nat.eqb
                   (String.length (padStart2 (toString (Z.of_nat k)))) 2)
                (seq 0 100) = true) by (vm_compute; reflexivity).
  rewrite forallb_forall in H.
  specialize (H (Z.to_nat n)). rewrite Z2Nat.id in H by lia.
  apply Nat.eqb_eq, H, in_seq. lia.
Qed.

(** X27 (time-format.ts, formatTime and formatTimeMMSS; the same
    expressions are formatScaleTime of timeline-renderer.ts): the text of a
    time that is not negative depends on its whole seconds alone: the
    minutes are the whole seconds divided by 60 and the seconds what is
    left, below 60.  [formatTime] prints the bare seconds below a minute.
    Below 100 minutes [formatTimeMMSS] has five characters. *)
Theorem formatTime_whole_seconds (seconds : Q) :
  0 <= seconds ->
  let whole := Qfloor seconds in
  let m := (whole / 60)%Z in
  let s := (whole mod 60)%Z in
  (0 <= m)%Z /\ (0 <= s < 60)%Z /\ (60 * m + s)%Z = whole /\
  formatTimeMMSS seconds =
    padStart2 (toString m) +:+ ":" +:+ padStart2 (toString s) /\
  formatTime seconds =
    (if (whole <? 60)%Z then toString whole
     else toString m +:+ ":" +:+ padStart2 (toString s)) /\
  TimeScale.formatScaleTime seconds =
    (if (0 <? m)%Z then toString m +:+ ":" +:+ padStart2 (toString s)
     else toString s +:+ "s") /\
  ((whole < 6000)%Z -> String.length (formatTimeMMSS seconds) = 5%nat).
Proof.
  intros H0 whole m s.
  assert (Hw : (0 <= whole)%Z) by (apply Qfloor_ge; exact H0).
  pose proof (Z.mod_pos_bound whole 60 ltac:(lia)) as Hs.
  pose proof (Z.div_mod whole 60 ltac:(lia)) as Hdm.
  assert (Hm : (0 <= m)%Z) by (apply Z.div_pos; lia).
  destruct (seconds_of_whole seconds H0) as [Hsec _].
  pose proof (minutes_of_whole seconds H0) as Hmin.
  assert (HMMSS : formatTimeMMSS seconds =
                  padStart2 (toString m) +:+ ":" +:+ padStart2 (toString s)).
  { unfold formatTimeMMSS. rewrite Hsec, Hmin. reflexivity. }
  refine (conj Hm (conj Hs (conj _ (conj HMMSS (conj _ (conj _ _)))))).
  - subst m s. lia.
  - unfold formatTime. rewrite Hsec, Hmin. fold whole m s.
    destruct (Qlt_bool seconds 60) eqn:E.
    + apply Qlt_bool_iff in E.
      assert ((whole < 60)%Z).
      { pose proof (Qfloor_le seconds) as Hfl. fold whole in Hfl.
        assert (inject_Z whole < inject_Z 60) as Hlt
          by (change (inject_Z 60) with 60; lra).
        rewrite <- Zlt_Qlt in Hlt. exact Hlt. }
      destruct (Z.ltb_spec whole 60); [reflexivity | lia].
    + apply Qlt_bool_false in E.
      assert ((60 <= whole)%Z)
        by (apply Qfloor_ge; change (inject_Z 60) with 60; exact E).
      destruct (Z.ltb_spec whole 60); [lia | reflexivity].
  - unfold TimeScale.formatScaleTime. rewrite Hsec, Hmin. reflexivity.
  - intros Hsmall. rewrite HMMSS, !length_append.
    rewrite !padStart2_length; [reflexivity | lia | ].
    split; [exact Hm | ]. subst m. apply Z.div_lt_upper_bound; lia.
Qed.

Lemma formatTime_whole_seconds_witness :
  formatTimeMMSS (1255 # 10) = "02:05" /\ formatTime (1255 # 10) = "2:05".
Proof.
  destruct (formatTime_whole_seconds (1255 # 10)) as (_ & _ & _ & H1 & H2 & _);
    [discriminate | ].
  split; [rewrite H1 | rewrite H2]; vm_compute; reflexivity.
Defined.



(** X29 (time-format.ts, calculateScaleInterval): the interval grows
    with the duration, and up to 10 minutes it divides the duration into at
    most 10 parts. *)
Theorem calculateScaleInterval_parts (duration longer : Q) :
  duration <= longer ->
  TimeText.calculateScaleInterval duration
    <= TimeText.calculateScaleInterval longer /\
  (duration <= 600 ->
   duration <= 10 * TimeText.calculateScaleInterval duration).
Proof.
  intros Hle. unfold TimeText.calculateScaleInterval.
  split; [ | intros H600]; bool_cases; lra.
Qed.

Lemma calculateScaleInterval_parts_witness :
  TimeText.calculateScaleInterval 25 <= TimeText.calculateScaleInterval 45.
Proof.
  destruct (calculateScaleInterval_parts 25 45) as [H _];
    [discriminate | exact H].
Defined.

End TimeAsText.

(** ** The tooltip *)

Section TooltipOfDrag.
Import DragInteraction DragPress VideoTimeline Tooltip.

(** The component's callbacks leave the drag hook and the duration
    alone. *)
Lemma handle_emitted_keeps (p : VideoTimelineProps) (emitted : list Emitted) :
  forall (w : Widget) (seen : list Emitted),
  drag (foldl (handle_emitted p) (w, seen) emitted).1 = drag w /\
  videoDuration (foldl (handle_emitted p) (w, seen) emitted).1
    = videoDuration w.
Proof.
  induction emitted as [ | e emitted IH]; intros w seen; [auto | ].
  cbn [foldl]. destruct e; cbn [handle_emitted];
    match goal with
    | |- context [foldl _ (?w', ?seen') emitted] =>
      destruct (IH w' seen') as [-> ->]
    end; auto.
Qed.

Lemma moves_keep_drag (p : VideoTimelineProps) (canvas : HTMLCanvasElement)
    (moves : list Q) :
  forall w : Widget,
  drag (widget_run p canvas w (map pointer_move moves)).1 = drag w /\
  videoDuration (widget_run p canvas w (map pointer_move moves)).1
    = videoDuration w.
Proof.
  induction moves as [ | x moves IH]; intros w; [auto | ].
  cbn [map widget_run]. cbn [widget_step].
  destruct (handle_emitted_keeps p
              (handleMove (drag_options p canvas w) (drag w) x) w [])
    as [Hd Hv].
  destruct (foldl (handle_emitted p) (w, [])
              (handleMove (drag_options p canvas w) (drag w) x)) as [w1 first].
  cbn [fst] in Hd, Hv. destruct (IH w1) as [Hd' Hv'].
  destruct (widget_run p canvas w1 (map pointer_move moves)) as [w2 later].
  cbn [fst] in *. split; congruence.
Qed.

(** X30 (video-timeline.tsx, tooltipInfo, with handleStart, handleMove
    and handleEnd of use-drag-interaction.ts): a press that hits the play
    head or a handle shows the tooltip, through all the moves that follow,
    and the release hides it.  While a handle is dragged the tooltip shows
    the edge of the selected range that is dragged; while the play head is
    dragged it shows the [currentTime] prop, which is [0] when the caller
    gives none, and not the time under the pointer. *)
Theorem tooltip_during_drag (p : VideoTimelineProps)
    (canvas : HTMLCanvasElement) (w : Widget) (clientX clientY width : Q)
    (moves : list Q) (d : DragType) :
  default false (prop_disabled p) = false ->
  detectHitArea (drag_options p canvas w) clientX clientY = Some (hit d) ->
  0 < duration_of p w ->
  let dragged :=
    (widget_run p canvas w
       (pointer_down clientX clientY :: map pointer_move moves)).1 in
  let tip := tooltipInfo p dragged width in
  show tip = true /\
  tip_time tip =
    match d with
    | cursor => default 0 (prop_currentTime p)
    | start_handle => start (selectedRange_of p dragged)
    | end_handle => end_ (selectedRange_of p dragged)
    end /\
  position tip ==
    timeToPixel (drag_options p canvas dragged) width (tip_time tip) /\
  show (tooltipInfo p (widget_step p canvas dragged pointer_up).1 width)
    = false.
Proof.
  intros Hdis Hhit Hdur dragged tip.
  assert (Hstate : drag dragged =
                   mkDrag (Some d) clientX (selectedRange_of p w)
                          (currentTime_of p w) true (Some d) /\
                   videoDuration dragged = videoDuration w).
  { subst dragged. cbn [widget_run]. cbn [widget_step].
    rewrite (handleStart_hit (drag_options p canvas w) (drag w) clientX
               clientY d Hdis Hhit).
    match goal with
    | |- context [foldl (handle_emitted p) (?w0, []) ?es] =>
      destruct (handle_emitted_keeps p es w0 []) as [Hd Hv];
      destruct (foldl (handle_emitted p) (w0, []) es) as [w1 first]
    end.
    cbn [fst set_drag drag videoDuration] in Hd, Hv.
    destruct (moves_keep_drag p canvas moves w1) as [Hd' Hv'].
    destruct (widget_run p canvas w1 (map pointer_move moves)) as [w2 later].
    cbn [fst] in *. split; [rewrite Hd', Hd; reflexivity | congruence]. }
  destruct Hstate as [Hdrag Hvd].
  assert (Hsame : duration_of p dragged = duration_of p w).
  { unfold duration_of. rewrite Hvd. reflexivity. }
  assert (Hpos : Qle_bool (duration_of p dragged) 0 = false).
  { rewrite Hsame. apply Qle_bool_false. exact Hdur. }
  refine (conj _ (conj _ (conj _ _))).
  - subst tip. unfold tooltipInfo. rewrite Hpos, Hdrag. reflexivity.
  - subst tip. unfold tooltipInfo. rewrite Hpos, Hdrag.
    destruct d; reflexivity.
  - subst tip. unfold tooltipInfo, timeToPixel. rewrite Hpos, Hdrag.
    destruct d; reflexivity.
  - cbn [widget_step]. unfold handleEnd.
    match goal with
    | |- context [foldl (handle_emitted p) (?w0, []) ?es] =>
      destruct (handle_emitted_keeps p es w0 []) as [Hd _];
      destruct (foldl (handle_emitted p) (w0, []) es) as [w1 first]
    end.
    cbn [fst set_drag drag] in Hd. cbn [fst].
    unfold tooltipInfo. rewrite Hd. cbn [isDragging negb].
    rewrite orb_true_r. reflexivity.
Qed.

Lemma tooltip_during_drag_witness :
  let dragged :=
    (widget_run uncontrolled demo_canvas
       (first_render uncontrolled 0)
       (pointer_down 200 50 :: map pointer_move [250; 307])).1 in
  internalCurrentTime dragged == 7.5 /\
  tip_time (tooltipInfo uncontrolled dragged 420) = 0.
Proof.
  intros dragged. split; [vm_compute; reflexivity | ].
  destruct (tooltip_during_drag uncontrolled demo_canvas
              (first_render uncontrolled 0) 200 50 420 [250; 307] cursor)
    as (_ & H & _); [reflexivity | reflexivity | reflexivity | exact H].
Defined.

End TooltipOfDrag.
